(** * Chunked raster-to-table extraction: scan driver, checkpointing, merge

    A shallow embedding of [data_processer_4.py] (class
    [SingleYearCDLProcessor]), of the window loop it shares with
    [data_processor_2.py] (class [CaliforniaCDLProcessor]) and of
    [merge_chunk.py] ([validate_chunk_file], [merge_chunks]).

    Python integers are [Z]; [//] and [%] are [Z.div] and [Z.modulo], which
    round the same way.  Floating-point coordinates are kept abstract (a type
    [F] with a comparison), dictionaries are [gmap]s, the files of one year
    are a record, and every method is a function in a small state and
    exception monad that also records the I/O it performs.

    Conventions of the model:
    - an external operation that raises has had no effect on the files;
    - a process can be killed between two file-system mutations (never inside
      one): the scan state carries a budget [kill] of mutations left before
      the kill, [None] when the run is not interrupted;
    - logging, timing and memory reports have no effect on control flow; log
      lines are kept as events, their clock and memory figures are dropped. *)

From Stdlib Require Import ZArith Lia Ascii.
From stdpp Require Import base tactics option list numbers strings pretty gmap sorting.

Local Open Scope Z_scope.

(** ** Python built-ins used by the drivers *)

Module Py.

(** [range(start, stop, step)] for a positive step: [cur] is produced while
    it is below [stop].  [fuel] bounds the number of elements. *)
Fixpoint range_up (fuel : nat) (cur stop step : Z) : list Z :=
  match fuel with
  | O => []
  | S fuel' =>
      if cur <? stop then cur :: range_up fuel' (cur + step) stop step else []
  end.

(** [range(start, stop, step)].  A negative step counts down, which is the
    mirror image of counting up.  [range] with step [0] raises [ValueError]:
    the drivers divide by the step first, so they never get that far. *)
Definition range (start stop step : Z) : list Z :=
  if 0 <? step then range_up (Z.to_nat (stop - start)) start stop step
  else if step <? 0 then
    Z.opp <$> range_up (Z.to_nat (start - stop)) (- start) (- stop) (- step)
  else [].

(** [enumerate(xs, 1)] *)
Definition enumerate1 {A} (xs : list A) : list (Z * A) :=
  zip ((λ i : nat, Z.of_nat i + 1) <$> seq 0 (length xs)) xs.

(** Left padding with the digit zero up to width [w]. *)
Definition zfill (w : nat) (s : string) : string :=
  String.concat "" (replicate (w - String.length s) "0"%string) +:+ s.

(** The format [{n:05d}]: sign-aware zero padding to width five. *)
Definition fmt_05d (n : Z) : string :=
  if n <? 0 then "-" +:+ zfill 4 (pretty (- n)) else zfill 5 (pretty n).

(** [name.endswith(suffix)] *)
Definition endswith (name suffix : string) : bool :=
  let n := String.length name in
  let k := String.length suffix in
  (k <=? n)%nat && String.eqb (String.substring (n - k) k name) suffix.

(** [sorted(names)]: strings compare by code point. *)
Definition sorted (names : list string) : list string :=
  merge_sort (λ a b, Is_true (String.leb a b)) names.

End Py.

(** ** Windows over the grid *)

(** [rasterio.windows.Window(col_off, row_off, width, height)] *)
Record Window := mkWindow {
  col_off : Z;
  row_off : Z;
  width : Z;
  height : Z
}.

#[global] Instance Window_eq_dec : EqDecision Window.
Proof. solve_decision. Defined.

(** [ceil(a / b)] as both drivers write it: [(a + b - 1) // b]. *)
Definition ceil_div (a b : Z) : Z := (a + b - 1) / b.

(** [total_chunks] of [process] and [process_single_year]. *)
Definition total_chunks (h w chunk_size : Z) : Z :=
  ceil_div h chunk_size * ceil_div w chunk_size.

(** The windows of the two nested [for] loops of both drivers, in the order
    the loops reach them:
<<
    for y in range(0, height, chunk_size):
        chunk_height = min(chunk_size, height - y)
        for x in range(0, width, chunk_size):
            chunk_width = min(chunk_size, width - x)
            window = Window(x, y, chunk_width, chunk_height)
>> *)
Definition grid_windows (h w chunk_size : Z) : list Window :=
  y ← Py.range 0 h chunk_size;
  let chunk_height := Z.min chunk_size (h - y) in
  x ← Py.range 0 w chunk_size;
  let chunk_width := Z.min chunk_size (w - x) in
  [mkWindow x y chunk_width chunk_height].


(** ** Exceptions, outcomes and the monad of the methods *)

Inductive Exn :=
  | KeyError | TypeError | ValueError | ZeroDivisionError
  | JSONDecodeError | FileNotFoundError | OSError | ParserError
  | EmptyDataError | BadGzipFile | EOFError.

#[global] Instance Exn_eq_dec : EqDecision Exn.
Proof. solve_decision. Defined.

(** How a call ends: it returns, it raises, or the process is killed (a kill
    is no exception: no handler sees it). *)
Inductive Outcome (A : Type) :=
  | Ok (a : A)
  | Raised (e : Exn)
  | Killed.
Arguments Ok {A} a.
Arguments Raised {A} e.
Arguments Killed {A}.

Record Run (Ev S A : Type) := mkRun {
  events : list Ev;
  final : S;
  outcome : Outcome A
}.
Arguments mkRun {Ev S A} events final outcome.
Arguments events {Ev S A} r.
Arguments final {Ev S A} r.
Arguments outcome {Ev S A} r.

(** A method: from the state before to the events performed, the state after
    and the outcome. *)
Definition M (Ev S A : Type) : Type := S → Run Ev S A.

Section Monad.
Context {Ev S : Type}.

Definition ret {A} (a : A) : M Ev S A := λ st, mkRun [] st (Ok a).

Definition raise {A} (e : Exn) : M Ev S A := λ st, mkRun [] st (Raised e).

Definition bind {A B} (m : M Ev S A) (k : A → M Ev S B) : M Ev S B := λ st,
  let r := m st in
  match outcome r with
  | Ok a =>
      let r' := k a (final r) in
      mkRun (events r ++ events r') (final r') (outcome r')
  | Raised e => mkRun (events r) (final r) (Raised e)
  | Killed => mkRun (events r) (final r) Killed
  end.

Definition gets {A} (f : S → A) : M Ev S A := λ st, mkRun [] st (Ok (f st)).

Definition modify (f : S → S) : M Ev S unit := λ st, mkRun [] (f st) (Ok tt).

Definition emit (ev : Ev) : M Ev S unit := λ st, mkRun [ev] st (Ok tt).

(** [try: body  except Exception as e: handler(e)] *)
Definition try_except {A} (body : M Ev S A) (handler : Exn → M Ev S A)
  : M Ev S A := λ st,
  let r := body st in
  match outcome r with
  | Raised e =>
      let r' := handler e (final r) in
      mkRun (events r ++ events r') (final r') (outcome r')
  | _ => r
  end.

(** [for x in xs: body(x)] *)
Fixpoint for_each {A} (xs : list A) (body : A → M Ev S unit) : M Ev S unit :=
  match xs with
  | [] => ret tt
  | x :: xs' => bind (body x) (λ _, for_each xs' body)
  end.

(** A [for] loop that updates a local variable [acc]. *)
Fixpoint for_acc {A B} (xs : list A) (body : A → B → M Ev S B) (acc : B)
  : M Ev S B :=
  match xs with
  | [] => ret acc
  | x :: xs' => bind (body x acc) (λ acc', for_acc xs' body acc')
  end.

End Monad.

Notation "'let*' x ':=' m 'in' k" := (bind m (λ x, k))
  (at level 10, x pattern, m at level 100, k at level 200,
   format "'[v' 'let*'  x  ':='  m  'in' '/' k ']'").
Notation "m1 >> m2" := (bind m1 (λ _, m2))
  (at level 100, m2 at level 200, right associativity).


(** ** The static lookup table *)

(** [CDL_CROP_MAPPING], the same in both drivers. *)
Definition CDL_CROP_MAPPING : gmap Z string := list_to_map [
  (0, "Background"); (1, "Corn"); (2, "Cotton");
  (3, "Rice"); (4, "Sorghum"); (5, "Soybeans");
  (6, "Sunflower"); (10, "Peanuts"); (11, "Tobacco");
  (12, "Sweet Corn"); (13, "Pop or Orn Corn"); (14, "Mint");
  (21, "Barley"); (22, "Durum Wheat"); (23, "Spring Wheat");
  (24, "Winter Wheat"); (25, "Other Small Grains"); (26, "Dbl Crop WinWht/Soybeans");
  (27, "Rye"); (28, "Oats"); (29, "Millet");
  (30, "Speltz"); (31, "Canola"); (32, "Flaxseed");
  (33, "Safflower"); (34, "Rape Seed"); (35, "Mustard");
  (36, "Alfalfa"); (37, "Other Hay/Non Alfalfa"); (38, "Camelina");
  (39, "Buckwheat"); (41, "Sugarbeets"); (42, "Dry Beans");
  (43, "Potatoes"); (44, "Other Crops"); (45, "Sugarcane");
  (46, "Sweet Potatoes"); (47, "Misc Vegs & Fruits"); (48, "Watermelons");
  (49, "Onions"); (50, "Cucumbers"); (51, "Chick Peas");
  (52, "Lentils"); (53, "Peas"); (54, "Tomatoes");
  (55, "Caneberries"); (56, "Hops"); (57, "Herbs");
  (58, "Clover/Wildflowers"); (59, "Sod/Grass Seed"); (60, "Switchgrass");
  (61, "Fallow/Idle Cropland"); (62, "Pasture/Grass"); (63, "Forest");
  (64, "Shrubland"); (65, "Barren"); (66, "Cherries");
  (67, "Peaches"); (68, "Apples"); (69, "Grapes");
  (70, "Christmas Trees"); (71, "Other Tree Crops"); (72, "Citrus");
  (74, "Pecans"); (75, "Almonds"); (76, "Walnuts");
  (77, "Pears"); (81, "Clouds/No Data"); (82, "Developed");
  (83, "Water"); (87, "Wetlands"); (88, "Nonag/Undefined");
  (92, "Aquaculture"); (111, "Open Water"); (112, "Perennial Ice/Snow");
  (121, "Developed/Open Space"); (122, "Developed/Low Intensity"); (123, "Developed/Med Intensity");
  (124, "Developed/High Intensity"); (131, "Barren"); (141, "Deciduous Forest");
  (142, "Evergreen Forest"); (143, "Mixed Forest"); (152, "Shrubland");
  (176, "Grassland/Pasture"); (190, "Woody Wetlands"); (195, "Herbaceous Wetlands");
  (204, "Pistachios"); (205, "Triticale"); (206, "Carrots");
  (207, "Asparagus"); (208, "Garlic"); (209, "Cantaloupes");
  (210, "Prunes"); (211, "Olives"); (212, "Oranges");
  (213, "Honeydew Melons"); (214, "Broccoli"); (215, "Avocados");
  (216, "Peppers"); (217, "Pomegranates"); (218, "Nectarines");
  (219, "Greens"); (220, "Plums"); (221, "Strawberries");
  (222, "Squash"); (223, "Apricots"); (224, "Vetch");
  (225, "Dbl Crop WinWht/Corn"); (226, "Dbl Crop Oats/Corn"); (227, "Lettuce");
  (228, "Dbl Crop Triticale/Corn"); (229, "Pumpkins"); (230, "Dbl Crop Lettuce/Durum Wht");
  (231, "Dbl Crop Lettuce/Cantaloupe"); (232, "Dbl Crop Lettuce/Cotton"); (233, "Dbl Crop Lettuce/Barley");
  (234, "Dbl Crop Durum Wht/Sorghum"); (235, "Dbl Crop Barley/Sorghum"); (236, "Dbl Crop WinWht/Sorghum");
  (237, "Dbl Crop Barley/Corn"); (238, "Dbl Crop WinWht/Cotton"); (239, "Dbl Crop Soybeans/Cotton");
  (240, "Dbl Crop Soybeans/Oats"); (241, "Dbl Crop Corn/Soybeans"); (242, "Blueberries");
  (243, "Cabbage"); (244, "Cauliflower"); (245, "Celery");
  (246, "Radishes"); (247, "Turnips"); (248, "Eggplants");
  (249, "Gourds"); (250, "Cranberries"); (254, "Dbl Crop Barley/Soybeans")
]%string.


(** ** Data model *)

(** Values of the checkpoint dictionary as [json] gives them back. *)
Inductive JVal :=
  | JInt (n : Z)
  | JStr (s : string).

#[global] Instance JVal_eq_dec : EqDecision JVal.
Proof. solve_decision. Defined.

(** Comparison on the abstract floating-point numbers: [fle a b] is
    [a <= b]. *)
Class FloatLe (F : Type) := fle : F → F → bool.

(** A [numpy] array of two dimensions: its shape and its elements in
    row-major order (what [ravel] returns). *)
Record Array2 := mkArray2 {
  shape : nat * nat;
  flat : list Z
}.

Definition size_of (sh : nat * nat) : nat := (sh.1 * sh.2)%nat.

Section Model.
Context {F : Type} `{FloatLe F}.

(** One row of a chunk's table: the columns [year], [crop_code],
    [longitude], [latitude] and [crop_name] ([None] is the missing value
    [Series.map] leaves for a code the table does not have). *)
Record Row := mkRow {
  row_year : Z;
  crop_code : Z;
  longitude : F;
  latitude : F;
  crop_name : option string
}.

(** The open raster: [src.height], [src.width], [src.read(1, window=w)]
    ([None] when the decoder raises) and
    [rasterio.transform.xy(src.transform, row, col)]. *)
Record Raster := mkRaster {
  src_height : Z;
  src_width : Z;
  src_read : Window → option Array2;
  src_xy : Z → Z → F * F
}.

(** What is stored under a chunk file's name: a complete compressed table; a
    file whose first row parses and whose rest does not, with what the full
    read raises on it; a file that cannot be parsed at all, with what any
    read raises on it ([EmptyDataError] for an empty file, [BadGzipFile] for
    one that is not gzip, [EOFError] for one cut short, [ParserError] for
    malformed text). *)
Inductive ChunkFile :=
  | CsvGz (rows : list Row)
  | Truncated (e : Exn)
  | Unreadable (e : Exn).

(** [progress.json]: a complete JSON object, or the empty or partial text an
    interrupted write leaves, which [json.load] rejects. *)
Inductive ProgressFile :=
  | Json (d : gmap string JVal)
  | Torn.

(** The attributes [merge_chunks] attaches to the table [data]. *)
Record Metadata := mkMetadata {
  total_records : Z;
  md_year : Z;
  processing_date : string;
  num_chunks_processed : Z
}.

(** The consolidated HDF5 store: the table under the key [data] ([None]
    while nothing was appended) and its metadata attribute. *)
Record Store := mkStore {
  data : option (list Row);
  metadata : option Metadata
}.

(** The directory [chunks/<year>]: the chunk files and whatever else
    [glob] may meet, by name; [progress.json]; the subdirectory
    [corrupted] ([None] while it does not exist). *)
Record ChunksDir := mkChunksDir {
  chunk_files : gmap string ChunkFile;
  progress_json : option ProgressFile;
  corrupted : option (gmap string ChunkFile)
}.

(** The files of one year: [final/cdl_california_<year>.csv.gz] (present
    or not), [final/cdl_california_<year>.h5], the source raster
    [<year>_30m_cdls.tif] and the chunk directory. *)
Record FS := mkFS {
  final_csv : bool;
  final_h5 : option Store;
  source_tif : option Raster;
  chunks_dir : option ChunksDir
}.

Definition empty_dir : ChunksDir := mkChunksDir ∅ None None.

Definition set_chunks_dir (d : option ChunksDir) (fs : FS) : FS :=
  mkFS (final_csv fs) (final_h5 fs) (source_tif fs) d.

Definition set_final_h5 (s : option Store) (fs : FS) : FS :=
  mkFS (final_csv fs) s (source_tif fs) (chunks_dir fs).

Definition set_chunk_files (m : gmap string ChunkFile) (d : ChunksDir) : ChunksDir :=
  mkChunksDir m (progress_json d) (corrupted d).

Definition set_progress_json (p : option ProgressFile) (d : ChunksDir) : ChunksDir :=
  mkChunksDir (chunk_files d) p (corrupted d).

Definition set_corrupted (c : option (gmap string ChunkFile)) (d : ChunksDir) : ChunksDir :=
  mkChunksDir (chunk_files d) (progress_json d) c.

(** ** Log lines and I/O events *)

(** One constructor per [log(...)] call of the three files, with the integer
    and name arguments of its f-string. *)
Inductive Msg :=
  | MsgAlreadyProcessed
  | MsgSourceNotFound
  | MsgStartingFrom (start_chunk : JVal)
  | MsgProgress (chunk_num total : Z)
  | MsgSavedChunk (chunk_num : Z) (records : nat)
  | MsgErrorChunk (e : Exn)
  | MsgErrorYear (e : Exn)
  | MsgMergeStart
  | MsgNoChunks
  | MsgFoundChunks (n : nat)
  | MsgValidating
  | MsgCorruptFound (name : string) (e : Exn)
  | MsgMoveError (name : string) (e : Exn)
  | MsgMoveErrorMerging (e : Exn)
  | MsgValidated (i : Z) (total : nat)
  | MsgFoundValid (n : nat)
  | MsgMergeProgress (i : Z) (total_valid : nat) (records : Z)
  | MsgErrorProcessing (name : string) (e : Exn)
  | MsgVerifying
  | MsgVerified (count : Z)
  | MsgVerificationFailed (expected found : Z)
  | MsgErrorVerifying (e : Exn)
  | MsgCleanedUp
  | MsgCleanupError (e : Exn)
  | MsgKeepingForSafety
  | MsgKeepingUnverified
  | MsgSummary (records : Z)
  | MsgCompleted
  | MsgCritical (e : Exn)
  | MsgTraceback (e : Exn).

Inductive Event :=
  | EvLog (m : Msg)
  | EvMkdirChunks                               (* chunks_dir.mkdir(...) *)
  | EvRead (w : Window)                         (* src.read(1, window=w) *)
  | EvCreate (name : string)                    (* to_csv opens the file *)
  | EvToCsv (name : string) (rows : list Row)   (* to_csv has written it *)
  | EvOpenW                                     (* open(progress_file, 'w') *)
  | EvDump (d : gmap string JVal)               (* json.dump, file closed *)
  | EvMkdirCorrupted
  | EvMove (name : string)                      (* shutil.move to corrupted/ *)
  | EvHdfCreate                                 (* HDFStore(final, mode='w') *)
  | EvHdfAppend (name : string) (rows : nat)
  | EvHdfMetadata
  | EvRmtree.

Definition log {S} (m : Msg) : M Event S unit := emit (EvLog m).

(** ** The extractor: [process_chunk] *)

(** The immutable attributes of a [SingleYearCDLProcessor]: [year],
    [chunk_size], the transformer to longitude and latitude and the bounds
    [ca_bounds_5070] ([west], [east], [north], [south]). *)
Record Bounds := mkBounds {
  west : F;
  east : F;
  north : F;
  south : F
}.

Record Processor := mkProcessor {
  year : Z;
  chunk_size : Z;
  transformer : F → F → F * F;
  ca_bounds_5070 : Bounds
}.

(** [get_ca_bounds_5070]: the two corners of [CA_BOUNDS] through the inverse
    transformer. *)
Definition get_ca_bounds_5070 (transformer_inverse : F → F → F * F)
    (CA_BOUNDS : Bounds) : Bounds :=
  let '(west', north') := transformer_inverse (west CA_BOUNDS) (north CA_BOUNDS) in
  let '(east', south') := transformer_inverse (east CA_BOUNDS) (south CA_BOUNDS) in
  mkBounds west' east' north' south'.

(** [is_in_california]: two chained comparisons joined by [and]. *)
Definition is_in_california (self : Processor) (x y : F) : bool :=
  let b := ca_bounds_5070 self in
  (fle (west b) x && fle x (east b)) && (fle (south b) y && fle y (north b)).

End Model.

Arguments Row F : clear implicits.
Arguments Raster F : clear implicits.
Arguments ChunkFile F : clear implicits.
Arguments Store F : clear implicits.
Arguments ChunksDir F : clear implicits.
Arguments FS F : clear implicits.
Arguments Event F : clear implicits.
Arguments Bounds F : clear implicits.
Arguments Processor F : clear implicits.


(** ** The scan: state, checkpoint tracker, chunk store, driver *)

Section Scan.
Context {F : Type} `{FloatLe F}.

(** The mutable part of a run of the scan: [self.progress], the counter
    [chunk_num] of [process], the files, and the number of file-system
    mutations left before the process is killed ([None]: it is not). *)
Record Scan := mkScan {
  progress : gmap string JVal;
  chunk_num : Z;
  disk : FS F;
  kill : option nat
}.

Definition set_progress (p : gmap string JVal) (st : Scan) : Scan :=
  mkScan p (chunk_num st) (disk st) (kill st).

Definition set_chunk_num (n : Z) (st : Scan) : Scan :=
  mkScan (progress st) n (disk st) (kill st).

(** A mutation [f] of the files, announced by the event [ev]: skipped when
    the process is killed first; [f] is [None] when the operation raises
    because the chunk directory is missing, and [e] is what it raises
    then. *)
Definition io (ev : Event F) (f : FS F → option (FS F)) (e : Exn)
    : M (Event F) Scan unit :=
  λ st,
  match kill st with
  | Some O => mkRun [] st Killed
  | k =>
      match f (disk st) with
      | Some fs' => mkRun [ev] (mkScan (progress st) (chunk_num st) fs' (Nat.pred <$> k)) (Ok tt)
      | None => mkRun [] st (Raised e)
      end
  end.

(** Change something inside the chunk directory, which has to exist. *)
Definition in_chunks_dir (g : ChunksDir F → ChunksDir F) (fs : FS F) : option (FS F) :=
  d ← chunks_dir fs; Some (set_chunks_dir (Some (g d)) fs).

(** [mkdir(parents=True, exist_ok=True)] of the chunk directory. *)
Definition mkdir_chunks (fs : FS F) : option (FS F) :=
  Some (match chunks_dir fs with
        | None => set_chunks_dir (Some empty_dir) fs
        | Some _ => fs
        end).

Definition default_progress : gmap string JVal :=
  <["last_chunk" := JInt 0]> (<["status" := JStr "processing"]> ∅).

(** [load_progress] *)
Definition load_progress : M (Event F) Scan unit :=
  let* file := gets (λ st, chunks_dir (disk st) ≫= progress_json) in
  match file with
  | Some (Json d) => modify (set_progress d)
  | Some Torn => raise JSONDecodeError
  | None => modify (set_progress default_progress)
  end.

(** [save_progress]: the dictionary entry is assigned, the file is opened
    for writing (which empties it), the dictionary is dumped and the file
    closed. *)
Definition save_progress (chunk : Z) : M (Event F) Scan unit :=
  modify (λ st, set_progress (<["last_chunk" := JInt chunk]> (progress st)) st) >>
  io EvOpenW (in_chunks_dir (set_progress_json (Some Torn))) FileNotFoundError >>
  let* d := gets progress in
  io (EvDump d) (in_chunks_dir (set_progress_json (Some (Json d)))) FileNotFoundError.

(** The name [chunk_{chunk_num:05d}.csv.gz]. *)
Definition chunk_name (chunk_num : Z) : string :=
  "chunk_" +:+ Py.fmt_05d chunk_num +:+ ".csv.gz".

Definition write_file (name : string) (c : ChunkFile F) (fs : FS F) : option (FS F) :=
  in_chunks_dir (λ d, set_chunk_files (<[name := c]> (chunk_files d)) d) fs.

(** [save_chunk]: nothing for [None] or an empty table; otherwise [to_csv]
    creates the file and then completes it. *)
Definition save_chunk (df : option (list (Row F))) (chunk_num : Z)
    : M (Event F) Scan unit :=
  match df with
  | None => ret tt
  | Some rows =>
      if (length rows =? 0)%nat then ret tt
      else
        let output_file := chunk_name chunk_num in
        io (EvCreate output_file) (write_file output_file (Unreadable EmptyDataError)) OSError >>
        io (EvToCsv output_file rows) (write_file output_file (CsvGz rows)) OSError >>
        log (MsgSavedChunk chunk_num (length rows))
  end.

(** [np.array(values).reshape(sh)] *)
Definition reshape {A} (values : list A) (sh : nat * nat) : M (Event F) Scan (list A) :=
  if (length values =? size_of sh)%nat then ret values else raise ValueError.

(** [np.nonzero(mask)] for a mask of shape [sh]: the row and the column of
    every true element, in row-major order. *)
Definition nonzero (sh : nat * nat) (mask : list bool) : list (Z * Z) :=
  (λ i : nat, (Z.of_nat (i / sh.2), Z.of_nat (i mod sh.2))) <$>
  filter (λ i, mask !! i = Some true) (seq 0 (length mask)).

(** [values[mask]] *)
Definition bool_index {A} (values : list A) (mask : list bool) : list A :=
  snd <$> filter (λ p, p.1 = true) (zip mask values).

(** [positive & ca_mask], where [ca_mask] is [np.array] of a list of
    booleans: the array of the empty list has the type [float64], which [&]
    refuses. *)
Definition mask_and (positive ca_mask : list bool) : M (Event F) Scan (list bool) :=
  if (length ca_mask =? 0)%nat then raise TypeError
  else ret (zip_with andb positive ca_mask).

(** [src.read(1, window=window)] *)
Definition read_band (src : Raster F) (window : Window) : M (Event F) Scan Array2 :=
  emit (EvRead window) >>
  match src_read src window with
  | Some a => ret a
  | None => raise OSError
  end.

(** [process_chunk] *)
Definition process_chunk (self : Processor F) (src : Raster F) (window : Window)
    : M (Event F) Scan (option (list (Row F))) :=
  try_except
    (let* chunk_data := read_band src window in
     let rows_cols :=
       r ← Py.range (row_off window) (row_off window + height window) 1;
       c ← Py.range (col_off window) (col_off window + width window) 1;
       [(r, c)] in
     let xy_coords := (λ rc, src_xy src rc.1 rc.2) <$> rows_cols in
     let* ca_mask :=
       reshape ((λ xy, is_in_california self xy.1 xy.2) <$> xy_coords)
               (shape chunk_data) in
     let* valid_mask := mask_and ((λ v, 0 <? v) <$> flat chunk_data) ca_mask in
     if negb (existsb id valid_mask) then ret None
     else
       let rows_cols := nonzero (shape chunk_data) valid_mask in
       let xy_coords :=
         (λ rc, src_xy src (rc.1 + row_off window) (rc.2 + col_off window))
           <$> rows_cols in
       let lons_lats := (λ xy, transformer self xy.1 xy.2) <$> xy_coords in
       let df :=
         zip_with (λ code ll, mkRow (year self) code ll.1 ll.2 (CDL_CROP_MAPPING !! code))
                  (bool_index (flat chunk_data) valid_mask) lons_lats in
       ret (Some df))
    (λ e, log (MsgErrorChunk e) >> ret None).

(** [chunk_num <= start_chunk] with [start_chunk] from the dictionary: an
    integer and a string do not compare. *)
Definition py_le (n : Z) (v : JVal) : M (Event F) Scan bool :=
  match v with
  | JInt s => ret (n <=? s)
  | JStr _ => raise TypeError
  end.

(** The body of the inner loop of [process] for the column offset [x] of
    the row band at [y]. *)
Definition process_window (self : Processor F) (src : Raster F)
    (start_chunk : JVal) (total_chunks : Z) (y chunk_height x : Z)
    : M (Event F) Scan unit :=
  modify (λ st, set_chunk_num (chunk_num st + 1) st) >>
  let* chunk_num := gets chunk_num in
  let* skip := py_le chunk_num start_chunk in
  if skip then ret tt                                        (* continue *)
  else
    (if chunk_num mod 100 =? 0 then log (MsgProgress chunk_num total_chunks)
     else ret tt) >>
    let chunk_width := Z.min (chunk_size self) (src_width src - x) in
    let window := mkWindow x y chunk_width chunk_height in
    let* chunk_df := process_chunk self src window in
    (match chunk_df with
     | Some _ => save_chunk chunk_df chunk_num
     | None => ret tt
     end) >>
    save_progress chunk_num.

(** [process] *)
Definition process (self : Processor F) : M (Event F) Scan unit :=
  let* final_file_exists := gets (λ st, final_csv (disk st)) in
  if final_file_exists then log MsgAlreadyProcessed
  else
    let* file := gets (λ st, source_tif (disk st)) in
    match file with
    | None => log MsgSourceNotFound
    | Some src =>
        let* start_chunk :=
          (let* p := gets progress in
           match p !! "last_chunk" with
           | Some v => ret v
           | None => raise KeyError
           end) in
        log (MsgStartingFrom start_chunk) >>
        try_except
          (let height := src_height src in
           let width := src_width src in
           let* total_chunks :=
             (if chunk_size self =? 0 then raise ZeroDivisionError
              else ret (total_chunks height width (chunk_size self))) in
           modify (set_chunk_num 0) >>
           for_each (Py.range 0 height (chunk_size self)) (λ y,
             let chunk_height := Z.min (chunk_size self) (height - y) in
             for_each (Py.range 0 width (chunk_size self)) (λ x,
               process_window self src start_chunk total_chunks y chunk_height x)))
          (λ e, log (MsgErrorYear e) >> raise e)
    end.

(** [__init__]: the chunk directory is created if need be and the
    checkpoint loaded.  (The directory [final] is created too; the model
    keeps its two files, not the directory.) *)
Definition init : M (Event F) Scan unit :=
  io EvMkdirChunks mkdir_chunks OSError >> load_progress.

(** [main]: construct the processor, then [process]. *)
Definition main (self : Processor F) : M (Event F) Scan unit :=
  init >> process self.

(** The state in which a process starts on the files [fs]. *)
Definition boot (fs : FS F) (kill : option nat) : Scan := mkScan ∅ 0 fs kill.

End Scan.

Arguments Scan F : clear implicits.


(** ** The merge: [validate_chunk_file] and [merge_chunks] *)

Section Merge.
Context {F : Type}.

(** What the environment decides during a merge: whether [shutil.move] of a
    file raises, whether [store.append] of a file's table raises, what the
    reopened store reports as [nrows] ([None]: reopening raises), whether
    [shutil.rmtree] raises and, when it does, which entries it had removed
    before (by their path below the chunk directory), and the clock. *)
Record Env := mkEnv {
  mv_fails : string → bool;
  append_fails : string → bool;
  reopened_nrows : Store F → option Z;
  rmtree_fails : bool;
  rmtree_removed : string → bool;
  now : string
}.

(** A mutation [f] of the files, announced by [ev]; [f] is [None] when the
    operation raises [e]. *)
Definition mio (ev : Event F) (f : FS F → option (FS F)) (e : Exn)
    : M (Event F) (FS F) unit :=
  λ fs,
  match f fs with
  | Some fs' => mkRun [ev] fs' (Ok tt)
  | None => mkRun [] fs (Raised e)
  end.

(** [corrupt_dir.mkdir(exist_ok=True)]: the parent has to exist. *)
Definition mkdir_corrupted : M (Event F) (FS F) unit :=
  mio EvMkdirCorrupted
      (in_chunks_dir (λ d,
         match corrupted d with
         | None => set_corrupted (Some ∅) d
         | Some _ => d
         end))
      FileNotFoundError.

(** The pattern [chunk_*.csv.gz]. *)
Definition matches_glob (name : string) : bool :=
  String.prefix "chunk_" name && Py.endswith name ".csv.gz" &&
  (13 <=? String.length name)%nat.

(** [sorted(chunks_dir.glob("chunk_*.csv.gz"))], by name. *)
Definition glob_chunks : M (Event F) (FS F) (list string) :=
  gets (λ fs,
    match chunks_dir fs with
    | Some d => Py.sorted (filter (λ n, Is_true (matches_glob n)) (map_to_list (chunk_files d)).*1)
    | None => []
    end).

Definition lookup_chunk (name : string) (fs : FS F) : option (ChunkFile F) :=
  d ← chunks_dir fs; chunk_files d !! name.

(** [pd.read_csv(filepath, compression='gzip', nrows=1)], the table
    dropped. *)
Definition probe_csv (name : string) : M (Event F) (FS F) unit :=
  let* file := gets (lookup_chunk name) in
  match file with
  | Some (CsvGz _) | Some (Truncated _) => ret tt
  | Some (Unreadable e) => raise e
  | None => raise FileNotFoundError
  end.

(** [pd.read_csv(chunk_file, compression='gzip')] *)
Definition read_csv (name : string) : M (Event F) (FS F) (list (Row F)) :=
  let* file := gets (lookup_chunk name) in
  match file with
  | Some (CsvGz rows) => ret rows
  | Some (Truncated e) | Some (Unreadable e) => raise e
  | None => raise FileNotFoundError
  end.

(** [validate_chunk_file] *)
Definition validate_chunk_file (filepath : string) : M (Event F) (FS F) bool :=
  try_except
    (probe_csv filepath >> ret true)
    (λ e, log (MsgCorruptFound filepath e) >> ret false).

Definition quarantine (name : string) (fs : FS F) : option (FS F) :=
  d ← chunks_dir fs;
  c ← chunk_files d !! name;
  q ← corrupted d;
  Some (set_chunks_dir
          (Some (mkChunksDir (delete name (chunk_files d)) (progress_json d)
                             (Some (<[name := c]> q)))) fs).

(** [shutil.move(str(chunk), str(corrupt_dir / chunk.name))] *)
Definition shutil_move (env : Env) (name : string) : M (Event F) (FS F) unit :=
  if mv_fails env name then raise OSError
  else mio (EvMove name) (quarantine name) FileNotFoundError.

(** [pd.HDFStore(final_file, mode='w')]: a new, empty store replaces the
    file. *)
Definition hdf_create : M (Event F) (FS F) unit :=
  mio EvHdfCreate (λ fs, Some (set_final_h5 (Some (mkStore None None)) fs)) OSError.

(** Rows appended to the table [data]; an empty table is not stored. *)
Definition store_append (df : list (Row F)) (s : Store F) : Store F :=
  match df with
  | [] => s
  | _ => mkStore (Some (default [] (data s) ++ df)) (metadata s)
  end.

(** [store.append('data', df, ...)] *)
Definition hdf_append (env : Env) (name : string) (df : list (Row F))
    : M (Event F) (FS F) unit :=
  if append_fails env name then raise ValueError
  else
    mio (EvHdfAppend name (length df))
        (λ fs, s ← final_h5 fs; Some (set_final_h5 (Some (store_append df s)) fs))
        OSError.

(** [store.get_storer('data').attrs.metadata = md]: [get_storer] raises
    [KeyError] when the store has no table [data]. *)
Definition hdf_set_metadata (md : Metadata) : M (Event F) (FS F) unit :=
  mio EvHdfMetadata
      (λ fs, s ← final_h5 fs; rows ← data s;
             Some (set_final_h5 (Some (mkStore (Some rows) (Some md))) fs))
      KeyError.

(** [pd.HDFStore(final_file, mode='r')] and
    [store.get_storer('data').nrows] *)
Definition hdf_nrows (env : Env) : M (Event F) (FS F) Z :=
  let* file := gets final_h5 in
  match file ≫= reopened_nrows env with
  | Some n => ret n
  | None => raise OSError
  end.

(** What a [shutil.rmtree] that raises leaves of the directory.  The call
    removes entry after entry, the files of a subdirectory before the
    subdirectory, and the directory itself last; it raises at the first
    entry it cannot remove, and what it removed before stays removed. *)
Definition rmtree_partial (env : Env) (d : ChunksDir F) : ChunksDir F :=
  mkChunksDir
    (filter (λ kv, rmtree_removed env kv.1 = false) (chunk_files d))
    (if rmtree_removed env "progress.json" then None else progress_json d)
    (if rmtree_removed env "corrupted" then None
     else filter (λ kv, rmtree_removed env ("corrupted/" +:+ kv.1) = false)
            <$> corrupted d).

(** [shutil.rmtree(chunks_dir)]: the whole directory is removed, or the
    call raises with part of it removed.  [EvRmtree] is the completed
    removal. *)
Definition rmtree (env : Env) : M (Event F) (FS F) unit :=
  if rmtree_fails env then
    modify (λ fs, set_chunks_dir (rmtree_partial env <$> chunks_dir fs) fs) >>
    raise OSError
  else mio EvRmtree (λ fs, Some (set_chunks_dir None fs)) OSError.

(** One turn of the validation loop of [merge_chunks], for the pair
    [(i, chunk)] of [enumerate(chunks, 1)]; it returns [valid_chunks]. *)
Definition validate_body (env : Env) (total_chunks : nat) (ic : Z * string)
    (valid_chunks : list string) : M (Event F) (FS F) (list string) :=
  let i := ic.1 in
  let chunk := ic.2 in
  let* ok := validate_chunk_file chunk in
  let* valid_chunks :=
    (if ok then ret (valid_chunks ++ [chunk])
     else
       try_except (shutil_move env chunk)
                  (λ e, log (MsgMoveError chunk e)) >>
       ret valid_chunks) in
  (if i mod 100 =? 0 then log (MsgValidated i total_chunks) else ret tt) >>
  ret valid_chunks.

(** The validation loop of [merge_chunks]; it returns [valid_chunks]. *)
Definition validate_chunks (env : Env) (chunks : list string)
    : M (Event F) (FS F) (list string) :=
  for_acc (Py.enumerate1 chunks) (validate_body env (length chunks)) [].

(** One turn of the merging loop, for the pair [(i, chunk_file)] of
    [enumerate(valid_chunks, 1)]; it returns [total_records]. *)
Definition merge_body (env : Env) (total_valid : nat) (ic : Z * string)
    (total_records : Z) : M (Event F) (FS F) Z :=
  let i := ic.1 in
  let chunk_file := ic.2 in
  try_except
    (let* df := read_csv chunk_file in
     hdf_append env chunk_file df >>
     let total_records := total_records + Z.of_nat (length df) in
     log (MsgMergeProgress i total_valid total_records) >>
     ret total_records)
    (λ e,
     log (MsgErrorProcessing chunk_file e) >>
     try_except (shutil_move env chunk_file)
                (λ e', log (MsgMoveErrorMerging e')) >>
     ret total_records).

(** The merging loop of [merge_chunks]; it returns [total_records]. *)
Definition merge_valid (env : Env) (valid_chunks : list string)
    : M (Event F) (FS F) Z :=
  for_acc (Py.enumerate1 valid_chunks) (merge_body env (length valid_chunks)) 0.

(** The verification step; it returns [verification_successful]. *)
Definition verify (env : Env) (total_records : Z) : M (Event F) (FS F) bool :=
  log MsgVerifying >>
  try_except
    (let* verify_count := hdf_nrows env in
     if verify_count =? total_records then
       log (MsgVerified verify_count) >> ret true
     else
       log (MsgVerificationFailed total_records verify_count) >> ret false)
    (λ e, log (MsgErrorVerifying e) >> ret false).

(** The cleanup step. *)
Definition cleanup (env : Env) (verification_successful : bool)
    : M (Event F) (FS F) unit :=
  if verification_successful then
    try_except
      (let* dir_exists := gets (λ fs, bool_decide (is_Some (chunks_dir fs))) in
       if dir_exists then rmtree env >> log MsgCleanedUp else ret tt)
      (λ e, log (MsgCleanupError e) >> log MsgKeepingForSafety)
  else log MsgKeepingUnverified.

(** [merge_chunks(chunks_dir, final_dir, year)] *)
Definition merge_chunks (env : Env) (year : Z) : M (Event F) (FS F) unit :=
  try_except
    (log MsgMergeStart >>
     mkdir_corrupted >>
     let* chunks := glob_chunks in
     let total_chunks := length chunks in
     if (total_chunks =? 0)%nat then log MsgNoChunks
     else
       log (MsgFoundChunks total_chunks) >>
       log MsgValidating >>
       let* valid_chunks := validate_chunks env chunks in
       let total_valid := length valid_chunks in
       log (MsgFoundValid total_valid) >>
       hdf_create >>
       let* total_records := merge_valid env valid_chunks in
       hdf_set_metadata
         (mkMetadata total_records year (now env) (Z.of_nat total_valid)) >>
       let* verification_successful := verify env total_records in
       cleanup env verification_successful >>
       log (MsgSummary total_records) >>
       log MsgCompleted)
    (λ e, log (MsgCritical e) >> log (MsgTraceback e) >> raise e).

End Merge.

Arguments Env F : clear implicits.


(** ** Notions used to state the properties *)

(** The checkpoint a new process reads from the files [fs]: the integer
    under [last_chunk] after [load_progress]; [None] when loading raises or
    the entry is no integer. *)
Definition loaded_last_chunk {F} (fs : FS F) : option Z :=
  let r := load_progress (boot fs None) in
  match outcome r with
  | Ok _ =>
      match progress (final r) !! "last_chunk" with
      | Some (JInt n) => Some n
      | _ => None
      end
  | _ => None
  end.

(** A sequence of [save_progress] calls. *)
Definition saves {F} (chunks : list Z) : M (Event F) (Scan F) unit :=
  for_each chunks save_progress.

(** The same files with other final artifacts. *)
Definition with_finals {F} (csv : bool) (h5 : option (Store F)) (fs : FS F) : FS F :=
  mkFS csv h5 (source_tif fs) (chunks_dir fs).

(** Coordinates as integers, for the examples. *)
#[global] Instance Z_FloatLe : FloatLe Z := Z.leb.

(** *** Notions for the merge *)

Section MergeNotions.
Context {F : Type}.

(** What reading the file raises, or appending it when it reads. *)
Definition raised_on (c : ChunkFile F) : Exn :=
  match c with
  | CsvGz _ => ValueError
  | Truncated e | Unreadable e => e
  end.

(** The one-row probe of [validate_chunk_file] succeeds on this file. *)
Definition probe_passes (c : option (ChunkFile F)) : bool :=
  match c with
  | Some (CsvGz _) | Some (Truncated _) => true
  | _ => false
  end.

(** A chunk file is merged: it reads in full and its append does not
    raise. *)
Definition is_good (env : Env F) (d : ChunksDir F) (name : string) : bool :=
  match chunk_files d !! name with
  | Some (CsvGz _) => negb (append_fails env name)
  | _ => false
  end.

(** The rows of the merged files among [names], in order. *)
Definition good_rows (env : Env F) (d : ChunksDir F) (names : list string)
    : list (Row F) :=
  name ← names;
  match chunk_files d !! name with
  | Some (CsvGz rows) => if append_fails env name then [] else rows
  | _ => []
  end.

(** The file [name] moved to the subdirectory [corrupted]. *)
Definition quarantine_of (d : ChunksDir F) (name : string) : ChunksDir F :=
  match chunk_files d !! name, corrupted d with
  | Some c, Some q =>
      mkChunksDir (delete name (chunk_files d)) (progress_json d) (Some (<[name := c]> q))
  | _, _ => d
  end.

Definition quarantine_all (names : list string) (d : ChunksDir F) : ChunksDir F :=
  foldl quarantine_of d names.

(** The listing [sorted(glob(...))] of a chunk directory. *)
Definition listing (d : ChunksDir F) : list string :=
  Py.sorted (filter (λ n, Is_true (matches_glob n)) (map_to_list (chunk_files d)).*1).

End MergeNotions.

Section MergeEvents.
Context {F : Type}.

(** The events of a merge up to the verification: everything but the log
    lines of the verification and the cleanup and the removal of the chunk
    directory. *)
Definition merging_event (ev : Event F) : Prop :=
  match ev with
  | EvLog (MsgVerified _) | EvLog MsgVerifying | EvLog (MsgVerificationFailed _ _)
  | EvLog (MsgErrorVerifying _) | EvLog MsgCleanedUp | EvLog (MsgCleanupError _)
  | EvLog MsgKeepingForSafety | EvLog MsgKeepingUnverified | EvRmtree => False
  | _ => True
  end.

(** The events of one turn of the validation loop on the file [c]. *)
Definition validate_events (env : Env F) (total : nat) (i : Z) (name : string)
    (c : ChunkFile F) : list (Event F) :=
  (if probe_passes (Some c) then []
   else EvLog (MsgCorruptFound name (raised_on c)) ::
        (if mv_fails env name then [EvLog (MsgMoveError name OSError)]
         else [EvMove name])) ++
  (if i mod 100 =? 0 then [EvLog (MsgValidated i total)] else []).

(** The rows a chunk file contributes to the store. *)
Definition rows_of (env : Env F) (name : string) (c : ChunkFile F) : list (Row F) :=
  match c with
  | CsvGz rows => if append_fails env name then [] else rows
  | _ => []
  end.

Definition good_file (env : Env F) (name : string) (c : ChunkFile F) : bool :=
  match c with
  | CsvGz _ => negb (append_fails env name)
  | _ => false
  end.

(** The events of one turn of the merging loop on the file [c]. *)
Definition merge_events (env : Env F) (tv : nat) (i : Z) (name : string)
    (total : Z) (c : ChunkFile F) : list (Event F) :=
  if good_file env name c then
    [EvHdfAppend name (length (rows_of env name c));
     EvLog (MsgMergeProgress i tv (total + Z.of_nat (length (rows_of env name c))))]
  else
    EvLog (MsgErrorProcessing name (raised_on c)) ::
    (if mv_fails env name then [EvLog (MsgMoveErrorMerging OSError)]
     else [EvMove name]).

End MergeEvents.

Section VerifyEvents.
Context {F : Type}.

(** The verification succeeds on the files [fs]: the reopened store reports
    as many rows as the running total. *)
Definition verifies (env : Env F) (total : Z) (fs : FS F) : bool :=
  bool_decide (final_h5 fs ≫= reopened_nrows env = Some total).

Definition verify_events (env : Env F) (total : Z) (fs : FS F) : list (Event F) :=
  EvLog MsgVerifying ::
  match final_h5 fs ≫= reopened_nrows env with
  | Some n =>
      if n =? total then [EvLog (MsgVerified n)]
      else [EvLog (MsgVerificationFailed total n)]
  | None => [EvLog (MsgErrorVerifying OSError)]
  end.

(** The files after the cleanup step: the chunk directory is removed when
    the verification succeeded, or what a failing [shutil.rmtree] left of
    it; it is untouched when the verification failed. *)
Definition after_cleanup (env : Env F) (ok : bool) (fs : FS F) : FS F :=
  if ok then
    if rmtree_fails env
    then set_chunks_dir (rmtree_partial env <$> chunks_dir fs) fs
    else set_chunks_dir None fs
  else fs.

Definition cleanup_events (env : Env F) (ok : bool) : list (Event F) :=
  if ok then
    if rmtree_fails env then [EvLog (MsgCleanupError OSError); EvLog MsgKeepingForSafety]
    else [EvRmtree; EvLog MsgCleanedUp]
  else [EvLog MsgKeepingUnverified].

End VerifyEvents.

(** ** Further notions used by the statements *)

Section Silent.
Context {Ev S : Type}.

(** [m] performs no event, leaves the state as it is and ends alike in
    every state, not killed. *)
Definition silent {A} (m : M Ev S A) : Prop :=
  ∃ o, o ≠ Killed ∧ ∀ st, m st = mkRun [] st o.

End Silent.

(** A decimal numeral without sign: not empty, and with a leading zero only
    if it is the numeral 0. *)
Definition canonical (s : string) : Prop :=
  s ≠ "" ∧ ∀ t, s = String "0" t → t = "".


(** [chunk_data[i, j]] for an array in row-major order; [0] stands for an
    index out of range. *)
Definition array_get (a : Array2) (i j : nat) : Z :=
  default 0 (flat a !! (i * (shape a).2 + j)%nat).

Section ExtractorDefs.
Context {F : Type} `{FloatLe F}.

(** The cells of a window, row by row, as grid coordinates. *)
Definition window_cells (win : Window) : list (Z * Z) :=
  r ← Py.range (row_off win) (row_off win + height win) 1;
  c ← Py.range (col_off win) (col_off win + width win) 1;
  [(r, c)].

(** The value the array read for [win] holds for the grid cell [rc]. *)
Definition cell_value (a : Array2) (win : Window) (rc : Z * Z) : Z :=
  array_get a (Z.to_nat (rc.1 - row_off win)) (Z.to_nat (rc.2 - col_off win)).

(** A cell qualifies: its value is above zero and its native coordinate is
    inside the region. *)
Definition qualifies (self : Processor F) (src : Raster F) (a : Array2)
    (win : Window) (rc : Z * Z) : bool :=
  (0 <? cell_value a win rc) &&
  is_in_california self (src_xy src rc.1 rc.2).1 (src_xy src rc.1 rc.2).2.

(** The record of a cell. *)
Definition record_of (self : Processor F) (src : Raster F) (a : Array2)
    (win : Window) (rc : Z * Z) : Row F :=
  let xy := src_xy src rc.1 rc.2 in
  let ll := transformer self xy.1 xy.2 in
  mkRow (year self) (cell_value a win rc) ll.1 ll.2
        (CDL_CROP_MAPPING !! cell_value a win rc).

End ExtractorDefs.

Section CheckpointDefs.
Context {F : Type}.
Implicit Types (st : Scan F) (fs : FS F) (d : ChunksDir F).

Definition with_progress_json (p : option ProgressFile) fs d : FS F :=
  set_chunks_dir (Some (set_progress_json p d)) fs.

End CheckpointDefs.

(** An empty chunk directory, nothing else. *)
Definition fs_fresh : FS Z := mkFS false None None (Some empty_dir).

(** The files after chunk 1 was saved. *)
Definition fs_after_chunk_1 : FS Z :=
  disk (final (saves [1] (final (load_progress (boot fs_fresh None))))).

Section RespectDefs.
Context {F : Type}.
Implicit Types (fs : FS F) (P Q T : relation (FS F)) (env : Env F).

(** [m] behaves alike on files related by [P], and leaves them related by
    [Q]. *)
Definition resp {A} P Q (m : M (Event F) (FS F) A) : Prop :=
  ∀ fs fs', P fs fs' →
    events (m fs) = events (m fs') ∧ outcome (m fs) = outcome (m fs') ∧
    Q (final (m fs)) (final (m fs')).

(** The chunk directories are the same. *)
Definition same_dir : relation (FS F) := λ fs fs', chunks_dir fs = chunks_dir fs'.

(** The chunk directories and the consolidated stores are the same. *)
Definition same_dir_store : relation (FS F) := λ fs fs',
  chunks_dir fs = chunks_dir fs' ∧ final_h5 fs = final_h5 fs'.

End RespectDefs.

Section MergeLoops2Defs.
Context {F : Type}.
Implicit Types (fs : FS F) (d : ChunksDir F) (env : Env F).

(** Those of [l] that fail the probe and can be moved. *)
Definition unreadable_moved env d (l : list string) : list string :=
  filter (λ n, probe_passes (chunk_files d !! n) = false ∧ mv_fails env n = false) l.

Definition probe_passing d (l : list string) : list string :=
  filter (λ n, probe_passes (chunk_files d !! n) = true) l.

End MergeLoops2Defs.

Section MergeLoops3Defs.
Context {F : Type}.
Implicit Types (fs : FS F) (d : ChunksDir F) (env : Env F) (s : Store F).

(** Those of [l] that are not merged and can be moved. *)
Definition bad_moved env d (l : list string) : list string :=
  filter (λ n, is_good env d n = false ∧ mv_fails env n = false) l.

End MergeLoops3Defs.

Section MergeMasterDefs.
Context {F : Type}.
Implicit Types (fs : FS F) (d : ChunksDir F) (env : Env F) (s : Store F).

(** The chunk directory once [corrupted] exists. *)
Definition with_corrupted d : ChunksDir F :=
  match corrupted d with
  | None => set_corrupted (Some ∅) d
  | Some _ => d
  end.

(** The files a merge moves to quarantine: the unreadable ones, then those
    that pass the probe and fail to read or append; each only if its move
    does not raise. *)
Definition moved env d : list string :=
  unreadable_moved env d (listing d) ++ bad_moved env d (probe_passing d (listing d)).

End MergeMasterDefs.

Section MergeOutcome.
Context {F : Type}.
Implicit Types (fs : FS F) (d : ChunksDir F) (env : Env F) (s : Store F).

(** The store a merge of the directory [d] leaves when rows were appended:
    the rows of the merged files in name order, and the metadata. *)
Definition merged_store env (year : Z) d : Store F :=
  let rows := good_rows env d (listing d) in
  mkStore (Some rows)
    (Some (mkMetadata (Z.of_nat (length rows)) year (now env)
             (Z.of_nat (length (probe_passing d (listing d)))))).

(** The verification of a merge of [d] succeeds: rows were appended, and
    the reopened store reports as many rows as the running total. *)
Definition verified env (year : Z) d : bool :=
  bool_decide (good_rows env d (listing d) ≠ []) &&
  bool_decide (reopened_nrows env (merged_store env year d) =
               Some (Z.of_nat (length (good_rows env d (listing d))))).

(** The chunk directory [d'] still holds the checkpoint and every chunk
    file of [d], in place or in the subdirectory [corrupted]. *)
Definition preserved d d' : Prop :=
  progress_json d' = progress_json d ∧
  ∀ n c, chunk_files d !! n = Some c →
    chunk_files d' !! n = Some c ∨
    ∃ q, corrupted d' = Some q ∧ q !! n = Some c.

End MergeOutcome.

Section ScanNotions.
Context {F : Type} `{FloatLe F}.
Implicit Types (self : Processor F) (src : Raster F) (st : Scan F) (fs : FS F)
  (d : ChunksDir F) (w : Window).

(** Files of a year with nothing in them. *)
Definition no_files : FS F := mkFS false None None None.

(** The table [process_chunk] returns for a window and the events of the
    call; the method neither reads nor changes the state. *)
Definition chunk_table self src w : option (list (Row F)) :=
  match outcome (process_chunk self src w (boot no_files None)) with
  | Ok df => df
  | _ => None
  end.

Definition chunk_events self src w : list (Event F) :=
  events (process_chunk self src w (boot no_files None)).

(** The rows [save_chunk] writes for a table: none for [None] and for an
    empty table. *)
Definition rows_to_write (df : option (list (Row F))) : option (list (Row F)) :=
  match df with
  | Some rows => if (length rows =? 0)%nat then None else Some rows
  | None => None
  end.

(** The windows of the scan of a raster, in the order of the loop. *)
Definition windows_of self src : list Window :=
  grid_windows (src_height src) (src_width src) (chunk_size self).

(** The body of the loop of [process] for a window of the grid. *)
Definition window_step self src (start_chunk : JVal) (total_chunks : Z) w
    : M (Event F) (Scan F) unit :=
  process_window self src start_chunk total_chunks (row_off w) (height w) (col_off w).

(** The window [process] builds for the offsets and the height of [w]; it
    is [w] for every window of the grid. *)
Definition window_at self src w : Window :=
  mkWindow (col_off w) (row_off w)
           (Z.min (chunk_size self) (src_width src - col_off w)) (height w).

(** The chunk directory after chunk [n] with table [df] was saved. *)
Definition with_chunk (n : Z) (df : option (list (Row F))) d : ChunksDir F :=
  match rows_to_write df with
  | Some rows => set_chunk_files (<[chunk_name n := CsvGz rows]> (chunk_files d)) d
  | None => d
  end.

(** The events of [save_chunk]. *)
Definition save_chunk_events (n : Z) (df : option (list (Row F))) : list (Event F) :=
  match rows_to_write df with
  | Some rows =>
      [EvCreate (chunk_name n); EvToCsv (chunk_name n) rows;
       EvLog (MsgSavedChunk n (length rows))]
  | None => []
  end.

(** The loop of [process] over the windows [ws]. *)
Definition scan_loop self src (start_chunk : JVal) (total_chunks : Z)
    (ws : list Window) : M (Event F) (Scan F) unit :=
  for_each ws (window_step self src start_chunk total_chunks).

(** The state of a scan between two turns of its loop, when it started from
    the checkpoint [s0] and is not killed: the chunk directory exists, the
    checkpoint file holds the dictionary [self.progress] (or is absent, and
    the dictionary is the default one), and [last_chunk] is the later of
    [s0] and the counter. *)
Definition ready (s0 : Z) st : Prop :=
  kill st = None ∧
  (∃ d, chunks_dir (disk st) = Some d ∧
        (progress_json d = Some (Json (progress st)) ∨
         (progress_json d = None ∧ progress st = default_progress))) ∧
  progress st !! "last_chunk" = Some (JInt (Z.max s0 (chunk_num st))).

(** The files once the scan started on [fs0] has completed the first [k]
    windows of its loop: what a process killed right after chunk [k] leaves
    behind. *)
Definition files_after_chunk self src fs0 (k : nat) : FS F :=
  let st0 := final (init (boot fs0 None)) in
  match progress st0 !! "last_chunk" with
  | Some start =>
      disk (final (scan_loop self src start
                     (total_chunks (src_height src) (src_width src) (chunk_size self))
                     (take k (windows_of self src)) (set_chunk_num 0 st0)))
  | None => disk st0
  end.

(** The windows read, in order. *)
Definition reads (evs : list (Event F)) : list Window :=
  omap (λ ev, match ev with EvRead w => Some w | _ => None end) evs.

End ScanNotions.

Section Triples.
Context {Ev S : Type}.

(** From a state in [P], the call [m] ends in a state in [Q] when it
    returns, and in a state in [X] when it raises or the process is
    killed. *)
Definition triple {A} (P : S → Prop) (m : M Ev S A) (Q : A → S → Prop)
    (X : S → Prop) : Prop :=
  ∀ st, P st →
    match outcome (m st) with
    | Ok a => Q a (final (m st))
    | _ => X (final (m st))
    end.

End Triples.

Section LagNotions.
Context {F : Type} `{FloatLe F}.
Implicit Types (self : Processor F) (src : Raster F) (st : Scan F) (fs : FS F)
  (d : ChunksDir F) (w : Window).





(** The events of one turn of the loop of [process] for chunk [n] and
    window [w], from the dictionary [p], when the chunk is not skipped: a
    progress line every hundredth chunk, the extraction, the chunk write if
    there are rows, and the checkpoint save. *)
Definition turn_events self src (total n : Z) (p : gmap string JVal) w
    : list (Event F) :=
  (if n mod 100 =? 0 then [EvLog (MsgProgress n total)] else []) ++
  chunk_events self src w ++
  save_chunk_events n (chunk_table self src w) ++
  [EvOpenW; EvDump (<["last_chunk" := JInt n]> p)].

End LagNotions.

Section LagMainDefs.
Context {F : Type} `{FloatLe F}.
Implicit Types (self : Processor F) (src : Raster F) (st : Scan F) (fs : FS F)
  (d : ChunksDir F) (w : Window).


End LagMainDefs.

Section FrameNotions.
Context {F : Type}.

(** The files [fs'] keep what [fs] has outside the scan's reach: the final
    files and the raster are the same, and if [fs] has a chunk directory,
    [fs'] has one with the same subdirectory [corrupted] and with every
    chunk file name of [fs] still present. *)
Definition kept (fs fs' : FS F) : Prop :=
  final_csv fs' = final_csv fs ∧ final_h5 fs' = final_h5 fs ∧
  source_tif fs' = source_tif fs ∧
  ∀ d, chunks_dir fs = Some d →
    ∃ d', chunks_dir fs' = Some d' ∧ corrupted d' = corrupted d ∧
      ∀ name, is_Some (chunk_files d !! name) → is_Some (chunk_files d' !! name).

(** The call [m] keeps the files in that sense, however it ends. *)
Definition keeps {A} (m : M (Event F) (Scan F) A) : Prop :=
  ∀ st, kept (disk st) (disk (final (m st))).

End FrameNotions.

Section PipelineNotions.
Context {F : Type} `{FloatLe F}.
Implicit Types (self : Processor F) (src : Raster F) (w : Window).

(** The chunk files the turns for the windows [ws] write, the first of them
    being chunk [n + 1]: a name and a complete file for every window whose
    table has rows. *)
Fixpoint chunks_written self src (n : Z) (ws : list Window)
    : list (string * ChunkFile F) :=
  match ws with
  | [] => []
  | w :: ws' =>
      match rows_to_write (chunk_table self src w) with
      | Some rows => [(chunk_name (n + 1), CsvGz rows)]
      | None => []
      end ++ chunks_written self src (n + 1) ws'
  end.

(** All the records of a raster, window after window. *)
Definition all_rows self src : list (Row F) :=
  w ← windows_of self src; default [] (chunk_table self src w).

(** Files put into a directory one after the other. *)
Definition put_files (l : list (string * ChunkFile F))
    (cf : gmap string (ChunkFile F)) : gmap string (ChunkFile F) :=
  foldl (λ cf p, <[p.1 := p.2]> cf) cf l.

End PipelineNotions.

Section RecordsDefs.
Context {F : Type} `{FloatLe F}.
Implicit Types (self : Processor F) (src : Raster F) (w : Window).

(** A record as [process_chunk] builds them: it carries the year of the
    processor and a crop code above zero, and its crop name is the entry of
    the code in [CDL_CROP_MAPPING], missing when the code has none. *)
Definition well_formed_row self (r : Row F) : Prop :=
  row_year r = year self ∧ 0 < crop_code r ∧
  crop_name r = CDL_CROP_MAPPING !! crop_code r.

End RecordsDefs.

(** ** The multi-year processor of [data_processor_2.py]

    [CaliforniaCDLProcessor] keeps no checkpoint and applies no region
    filter; chunks and merged files of all years share the one directory
    [processed_data]. *)

Module Multi.

Section Model.
Context {F : Type}.

(** A file of [processed_data]: a CSV file with its rows, or a file that
    [pd.read_csv] cannot parse, with the exception it raises for it
    ([ParserError] for malformed text, [EmptyDataError] for a file without
    any column, such as the empty file a killed [to_csv] leaves). *)
Inductive OutFile :=
  | Csv (rows : list (Row F))
  | BadCsv (e : Exn).

(** The files the processor works on: the directory [processed_data] by
    file name, and the raster of each year that has one. *)
Record Out := mkOut {
  out_files : gmap string OutFile;
  rasters : gmap Z (Raster F)
}.

Definition set_out_files (m : gmap string OutFile) (o : Out) : Out :=
  mkOut m (rasters o).

(** The log lines of the class, without the clock. *)
Inductive OMsg :=
  | MsgSavedChunk (chunk_num : Z) (records : nat)
  | MsgErrorChunk (e : Exn)
  | MsgMerging (year : Z)
  | MsgSavedMerged (year : Z) (records : nat)
  | MsgAlreadyProcessed (year : Z)
  | MsgNotFound (year : Z)
  | MsgProcessing (year : Z)
  | MsgProgress (chunk_num total_chunks : Z)
  | MsgComplete (year : Z)
  | MsgErrorYear (year : Z) (e : Exn)
  | MsgTraceback
  | MsgStarting (start_year end_year : Z)
  | MsgSkipping (year : Z).

Inductive OEvent :=
  | EvLog (m : OMsg)
  | EvRead (year : Z) (w : Window)
  | EvToCsv (name : string) (rows : list (Row F))
  | EvUnlink (name : string).

Definition log (m : OMsg) : M OEvent Out unit := emit (EvLog m).

(** The attributes of a [CaliforniaCDLProcessor]. *)
Record Processor := mkProcessor {
  chunk_size : Z;
  transformer : F → F → F * F
}.

(** [f"ca_cdl_data_{year}_chunk_{chunk_num:05d}.csv"] *)
Definition chunk_name (year chunk_num : Z) : string :=
  "ca_cdl_data_" +:+ pretty year +:+ "_chunk_" +:+ Py.fmt_05d chunk_num +:+ ".csv".

(** [f"ca_cdl_data_{year}.csv"] *)
Definition merged_name (year : Z) : string :=
  "ca_cdl_data_" +:+ pretty year +:+ ".csv".

(** The pattern [f"ca_cdl_data_{year}_chunk_*.csv"]. *)
Definition matches_glob (year : Z) (name : string) : bool :=
  let pre := "ca_cdl_data_" +:+ pretty year +:+ "_chunk_" in
  String.prefix pre name && Py.endswith name ".csv" &&
  (String.length pre + 4 <=? String.length name)%nat.

(** [df.to_csv(output_file, index=False)] *)
Definition to_csv (name : string) (rows : list (Row F)) : M OEvent Out unit :=
  emit (EvToCsv name rows) >>
  modify (λ o, set_out_files (<[name := Csv rows]> (out_files o)) o).

(** [save_chunk] *)
Definition save_chunk (df : option (list (Row F))) (year chunk_num : Z)
    : M OEvent Out unit :=
  match df with
  | None => ret tt
  | Some rows =>
      if (length rows =? 0)%nat then ret tt
      else
        to_csv (chunk_name year chunk_num) rows >>
        log (MsgSavedChunk chunk_num (length rows))
  end.

(** [process_chunk]: the mask is [chunk_data > 0] alone. *)
Definition process_chunk (self : Processor) (src : Raster F) (window : Window)
    (year : Z) : M OEvent Out (option (list (Row F))) :=
  try_except
    (let* chunk_data :=
       (emit (EvRead year window) >>
        match src_read src window with
        | Some a => ret a
        | None => raise OSError
        end) in
     let valid_mask := (λ v, 0 <? v) <$> flat chunk_data in
     if negb (existsb id valid_mask) then ret None
     else
       let rows_cols := nonzero (shape chunk_data) valid_mask in
       let xy_coords :=
         (λ rc, src_xy src (rc.1 + row_off window) (rc.2 + col_off window))
           <$> rows_cols in
       let lons_lats := (λ xy, transformer self xy.1 xy.2) <$> xy_coords in
       let df :=
         zip_with (λ code ll, mkRow year code ll.1 ll.2 (CDL_CROP_MAPPING !! code))
                  (bool_index (flat chunk_data) valid_mask) lons_lats in
       ret (Some df))
    (λ e, log (MsgErrorChunk e) >> ret None).

(** [sorted(self.output_dir.glob(...))] *)
Definition glob_chunks (year : Z) : M OEvent Out (list string) :=
  gets (λ o,
    Py.sorted (filter (λ n, Is_true (matches_glob year n))
                      (map_to_list (out_files o)).*1)).

(** [pd.read_csv(chunk_file)] *)
Definition read_csv (name : string) : M OEvent Out (list (Row F)) :=
  let* file := gets (λ o, out_files o !! name) in
  match file with
  | Some (Csv rows) => ret rows
  | Some (BadCsv e) => raise e
  | None => raise FileNotFoundError
  end.

(** [chunk_file.unlink()] *)
Definition unlink (name : string) : M OEvent Out unit :=
  let* file := gets (λ o, out_files o !! name) in
  match file with
  | Some _ =>
      emit (EvUnlink name) >>
      modify (λ o, set_out_files (delete name (out_files o)) o)
  | None => raise FileNotFoundError
  end.

(** [merge_year_chunks]: every chunk is removed as soon as it is read. *)
Definition merge_year_chunks (year : Z) : M OEvent Out unit :=
  log (MsgMerging year) >>
  let* chunks := glob_chunks year in
  if (length chunks =? 0)%nat then ret tt
  else
    let* dfs :=
      for_acc chunks
        (λ chunk_file dfs,
           let* df := read_csv chunk_file in
           unlink chunk_file >>
           ret (dfs ++ [df]))
        [] in
    let final_df := concat dfs in
    to_csv (merged_name year) final_df >>
    log (MsgSavedMerged year (length final_df)).

(** [process_single_year]; the result is [true] for [True] and [false] for
    [None]. *)
Definition process_single_year (self : Processor) (year : Z) : M OEvent Out bool :=
  try_except
    (let* done := gets (λ o, bool_decide (is_Some (out_files o !! merged_name year))) in
     if done then log (MsgAlreadyProcessed year) >> ret false
     else
       let* file := gets (λ o, rasters o !! year) in
       match file with
       | None => log (MsgNotFound year) >> ret false
       | Some src =>
           log (MsgProcessing year) >>
           let height := src_height src in
           let width := src_width src in
           let* total_chunks :=
             (if chunk_size self =? 0 then raise ZeroDivisionError
              else ret (total_chunks height width (chunk_size self))) in
           for_acc (Py.range 0 height (chunk_size self))
             (λ y chunk_num,
                let chunk_height := Z.min (chunk_size self) (height - y) in
                for_acc (Py.range 0 width (chunk_size self))
                  (λ x chunk_num,
                     let chunk_width := Z.min (chunk_size self) (width - x) in
                     let chunk_num := chunk_num + 1 in
                     (if chunk_num mod 100 =? 0
                      then log (MsgProgress chunk_num total_chunks)
                      else ret tt) >>
                     let window := mkWindow x y chunk_width chunk_height in
                     let* chunk_df := process_chunk self src window year in
                     (match chunk_df with
                      | Some _ => save_chunk chunk_df year chunk_num
                      | None => ret tt
                      end) >>
                     ret chunk_num)
                  chunk_num)
             0 >>
           merge_year_chunks year >>
           log (MsgComplete year) >>
           ret true
       end)
    (λ e, log (MsgErrorYear year e) >> log MsgTraceback >> ret false).

(** [process_all_years] *)
Definition process_all_years (self : Processor) (start_year end_year : Z)
    : M OEvent Out unit :=
  log (MsgStarting start_year end_year) >>
  for_each (Py.range start_year (end_year + 1) 1)
    (λ year,
       let* done := gets (λ o, bool_decide (is_Some (out_files o !! merged_name year))) in
       if done then log (MsgSkipping year)
       else process_single_year self year >> ret tt).

End Model.

Arguments OutFile F : clear implicits.
Arguments Out F : clear implicits.
Arguments OEvent F : clear implicits.
Arguments Processor F : clear implicits.

End Multi.

Section MultiNotions.
Context {F : Type}.

(** The chunk files of a year, as [merge_year_chunks] lists them. *)
Definition listing2 (year : Z) (m : gmap string (Multi.OutFile F)) : list string :=
  Py.sorted (filter (λ n, Is_true (Multi.matches_glob year n)) (map_to_list m).*1).

(** The names at the front of [l] whose files can be read. *)
Fixpoint readable_prefix (m : gmap string (Multi.OutFile F)) (l : list string)
    : list string :=
  match l with
  | [] => []
  | n :: l' =>
      match m !! n with
      | Some (Multi.Csv _) => n :: readable_prefix m l'
      | _ => []
      end
  end.

(** The exception of the first file of [l] that cannot be read, if there is
    one. *)
Fixpoint first_error (m : gmap string (Multi.OutFile F)) (l : list string)
    : option Exn :=
  match l with
  | [] => None
  | n :: l' =>
      match m !! n with
      | Some (Multi.Csv _) => first_error m l'
      | Some (Multi.BadCsv e) => Some e
      | None => Some FileNotFoundError
      end
  end.

(** The tables of the files [l], in order. *)
Definition tables_of (m : gmap string (Multi.OutFile F)) (l : list string)
    : list (list (Row F)) :=
  omap (λ n, match m !! n with Some (Multi.Csv rows) => Some rows | _ => None end) l.

(** The directory without the files [l]. *)
Definition delete_all (l : list string) (m : gmap string (Multi.OutFile F))
    : gmap string (Multi.OutFile F) :=
  foldl (λ m n, delete n m) m l.

End MultiNotions.

Section Alive.
Context {Ev S : Type}.

(** The call [m] is not killed: it returns or raises. *)
Definition alive {A} (m : M Ev S A) : Prop := ∀ st, outcome (m st) ≠ Killed.

End Alive.

(** No character of [s] is an underscore or a dot: [s] cannot run into the
    separator that follows it in a file name. *)
Fixpoint no_sep (s : string) : Prop :=
  match s with
  | EmptyString => True
  | String c s' => c ≠ "_"%char ∧ c ≠ "."%char ∧ no_sep s'
  end.

Section Preserves.
Context {Ev S : Type}.

(** The call [m] keeps the property [I] of the state, however it ends. *)
Definition preserves {A} (I : S → Prop) (m : M Ev S A) : Prop :=
  ∀ st, I st → I (final (m st)).

End Preserves.

Section MultiRecords.
Context {F : Type}.

(** The merged file of the year [y] holds [file]. *)
Definition finished (y : Z) (file : Multi.OutFile F) (o : Multi.Out F) : Prop :=
  Multi.out_files o !! Multi.merged_name y = Some file.

(** The record the multi-year processor builds for a cell. *)
Definition multi_record_of (self : Multi.Processor F) (src : Raster F)
    (a : Array2) (win : Window) (year : Z) (rc : Z * Z) : Row F :=
  let xy := src_xy src rc.1 rc.2 in
  let ll := Multi.transformer self xy.1 xy.2 in
  mkRow year (cell_value a win rc) ll.1 ll.2
        (CDL_CROP_MAPPING !! cell_value a win rc).

End MultiRecords.

Section MultiPipeline.
Context {F : Type}.
Implicit Types (self : Multi.Processor F) (src : Raster F) (w : Window).

(** The table [process_chunk] returns for a window; it does not depend on
    the files. *)
Definition multi_chunk_table self src w (year : Z) : option (list (Row F)) :=
  match outcome (Multi.process_chunk self src w year (Multi.mkOut ∅ ∅)) with
  | Ok df => df
  | _ => None
  end.

(** The windows of the scan of a raster, in the order of the loops of
    [process_single_year]. *)
Definition multi_windows self src : list Window :=
  grid_windows (src_height src) (src_width src) (Multi.chunk_size self).

(** All the records of a raster for a year, window after window. *)
Definition multi_all_rows self src (year : Z) : list (Row F) :=
  w ← multi_windows self src; default [] (multi_chunk_table self src w year).

(** The body of the loops of [process_single_year] for a window, with the
    chunk counter before it. *)
Definition multi_window_step self src (year total_chunks : Z) w (chunk_num : Z)
    : M (Multi.OEvent F) (Multi.Out F) Z :=
  let chunk_num := chunk_num + 1 in
  (if chunk_num mod 100 =? 0
   then Multi.log (Multi.MsgProgress chunk_num total_chunks)
   else ret tt) >>
  let* chunk_df := Multi.process_chunk self src w year in
  (match chunk_df with
   | Some _ => Multi.save_chunk chunk_df year chunk_num
   | None => ret tt
   end) >>
  ret chunk_num.

(** The chunk files the turns for the windows [ws] write, the counter being
    [n] before them: a name and a table for every window whose table has
    rows. *)
Fixpoint multi_chunks_written self src (year n : Z) (ws : list Window)
    : list (string * list (Row F)) :=
  match ws with
  | [] => []
  | w :: ws' =>
      match rows_to_write (multi_chunk_table self src w year) with
      | Some rows => [(Multi.chunk_name year (n + 1), rows)]
      | None => []
      end ++ multi_chunks_written self src year (n + 1) ws'
  end.

(** Tables written to a directory one after the other. *)
Definition multi_put (l : list (string * list (Row F)))
    (m : gmap string (Multi.OutFile F)) : gmap string (Multi.OutFile F) :=
  foldl (λ m p, <[p.1 := Multi.Csv p.2]> m) m l.

End MultiPipeline.

Section KillNotions.
Context {F : Type}.
Implicit Types (st : Scan F) (fs : FS F) (d : ChunksDir F).

(** The same state of a scan with another kill budget. *)
Definition with_kill (k : option nat) st : Scan F :=
  mkScan (progress st) (chunk_num st) (disk st) k.

(** What a kill during the turn for chunk [n], whose table is [df], leaves
    of the files [fs] the turn started on, as long as the checkpoint file
    was not opened: the files themselves or, when the table has rows, the
    files with something under the name of chunk [n] (the file just
    created, or the complete chunk). *)
Definition mid_turn (n : Z) (df : option (list (Row F))) fs fs' : Prop :=
  fs' = fs ∨
  (is_Some (rows_to_write df) ∧
   ∃ d c, chunks_dir fs = Some d ∧
     fs' = set_chunks_dir
             (Some (set_chunk_files (<[chunk_name n := c]> (chunk_files d)) d)) fs).

(** The checkpoint file is torn. *)
Definition torn fs : Prop :=
  ∃ d, chunks_dir fs = Some d ∧ progress_json d = Some Torn.

(** However the call [m] ends on files whose checkpoint is not torn, the
    checkpoint is torn afterwards only when the process was killed, and
    then right after the checkpoint file was opened for writing:
    [EvOpenW] is the last thing the process did. *)
Definition tears_at_open_only {A} (m : M (Event F) (Scan F) A) : Prop :=
  ∀ st, ¬ torn (disk st) →
    match outcome (m st) with
    | Killed => torn (disk (final (m st))) → last (events (m st)) = Some EvOpenW
    | _ => ¬ torn (disk (final (m st)))
    end.

End KillNotions.

(** Example files for the merge. *)
Definition env_ok : Env Z :=
  mkEnv (λ _, false) (λ _, false) (λ s, (Z.of_nat ∘ length) <$> data s) false
        (λ _, false) "2024-01-01T00:00:00".

(** The same environment, but every [shutil.move] raises. *)
Definition env_no_move : Env Z :=
  mkEnv (λ _, true) (λ _, false) (λ s, (Z.of_nat ∘ length) <$> data s) false
        (λ _, false) "2024-01-01T00:00:00".

Definition row_1 : Row Z := mkRow 2020 1 10 20 (Some "Corn").
Definition row_2 : Row Z := mkRow 2020 5 11 20 (Some "Soybeans").

Definition dir_one_unreadable : ChunksDir Z :=
  mkChunksDir {[ "chunk_00001.csv.gz" := Unreadable EmptyDataError ]} None None.

Definition fs_one_unreadable : FS Z := mkFS false None None (Some dir_one_unreadable).

Definition dir_mixed : ChunksDir Z :=
  mkChunksDir (<[ "chunk_00001.csv.gz" := CsvGz [row_1; row_2] ]>
               (<[ "chunk_00002.csv.gz" := Unreadable BadGzipFile ]>
               (<[ "chunk_00003.csv.gz" := Truncated EOFError ]>
               {[ "chunk_00004.csv.gz" := CsvGz [row_2] ]})))
              (Some (Json {[ "last_chunk" := JInt 4 ]})) None.

Definition fs_mixed : FS Z := mkFS false None None (Some dir_mixed).

Definition fs_done : FS Z :=
  mkFS true (Some (mkStore (Some [row_1]) None)) None
       (Some (mkChunksDir {[ "chunk_00001.csv.gz" := CsvGz [row_2] ]} None None)).

(** A raster of two rows and three columns whose cell [(r, c)] holds
    [r + c - 1], read window by window; the native coordinate of a cell is
    [(c, r)]. *)
Definition demo_raster : Raster Z :=
  mkRaster 2 3
    (λ w, Some (mkArray2 (Z.to_nat (height w), Z.to_nat (width w))
                  (r ← Py.range (row_off w) (row_off w + height w) 1;
                   c ← Py.range (col_off w) (col_off w + width w) 1;
                   [r + c - 1])))
    (λ r c, (c, r)).

(** A processor with chunks of two by two cells, the identity as
    transformer and a region that leaves out column 0. *)
Definition demo_processor : Processor Z :=
  mkProcessor 2020 2 (λ x y, (x, y)) (mkBounds 1 10 10 0).

(** The files of a year before its scan, and once the scan's final file
    exists. *)
Definition fs_year : FS Z := mkFS false None (Some demo_raster) None.

(** Files whose checkpoint parses but has no entry [last_chunk]. *)
Definition dir_no_last_chunk : ChunksDir Z :=
  mkChunksDir ∅ (Some (Json {[ "status" := JStr "processing" ]})) None.

Definition fs_no_last_chunk : FS Z :=
  mkFS false None (Some demo_raster) (Some dir_no_last_chunk).

(** The processor of the examples with chunk size 0. *)
Definition zero_processor : Processor Z :=
  mkProcessor 2020 0 (λ x y, (x, y)) (mkBounds 1 10 10 0).

(** Example files of the multi-year processor: a processor with chunks of
    two by two cells and the identity as transformer; a directory with the
    raster of 2020 and nothing else; a directory with two chunk files of
    2020 and the merged file of 2019; a directory whose second chunk file
    of 2020 is empty. *)
Definition multi_demo_processor : Multi.Processor Z :=
  Multi.mkProcessor 2 (λ x y, (x, y)).

Definition out_fresh : Multi.Out Z := Multi.mkOut ∅ {[ 2020 := demo_raster ]}.

Definition out_chunks : Multi.Out Z :=
  Multi.mkOut (<[ "ca_cdl_data_2020_chunk_00001.csv" := Multi.Csv [row_1] ]>
              (<[ "ca_cdl_data_2020_chunk_00002.csv" := Multi.Csv [row_2] ]>
               {[ "ca_cdl_data_2019.csv" := Multi.Csv [row_1; row_2] ]})) ∅.

Definition out_bad_chunk : Multi.Out Z :=
  Multi.mkOut (<[ "ca_cdl_data_2020_chunk_00001.csv" := Multi.Csv [row_1] ]>
              (<[ "ca_cdl_data_2020_chunk_00002.csv" := Multi.BadCsv EmptyDataError ]>
               {[ "ca_cdl_data_2020_chunk_00003.csv" := Multi.Csv [row_2] ]})) ∅.

(** The processor of the examples with a negative chunk size. *)
Definition multi_negative_processor : Multi.Processor Z :=
  Multi.mkProcessor (-1) (λ x y, (x, y)).




(** * Properties *)


(** ** Laws of the monad *)

Section MonadLaws.
Context {Ev S : Type}.

Lemma bind_ret_l {A B} (a : A) (k : A → M Ev S B) st :
  bind (ret a) k st = k a st.
Proof. unfold bind, ret. simpl. by destruct (k a st). Qed.

Lemma bind_ret_r {A} (m : M Ev S A) st : bind m ret st = m st.
Proof.
  unfold bind, ret. destruct (m st) as [ev st' [a|e|]]; simpl; [|done..].
  by rewrite app_nil_r.
Qed.

Lemma bind_assoc {A B C} (m : M Ev S A) (k : A → M Ev S B) (h : B → M Ev S C) st :
  bind (bind m k) h st = bind m (λ a, bind (k a) h) st.
Proof.
  unfold bind. destruct (m st) as [ev st' [a|e|]]; simpl; [|done..].
  destruct (k a st') as [ev2 st2 [b|e|]]; simpl; [|done..].
  by rewrite app_assoc.
Qed.

Lemma bind_ext {A B} (m : M Ev S A) (k1 k2 : A → M Ev S B) st :
  (∀ a st', k1 a st' = k2 a st') → bind m k1 st = bind m k2 st.
Proof.
  intros E. unfold bind. destruct (m st) as [ev st' [a|e|]]; simpl; [|done..].
  by rewrite E.
Qed.

Lemma for_each_app {A} (l1 l2 : list A) (body : A → M Ev S unit) st :
  for_each (l1 ++ l2) body st
  = bind (for_each l1 body) (λ _, for_each l2 body) st.
Proof.
  revert st. induction l1 as [|a l1 IH]; intros st; simpl.
  - by rewrite bind_ret_l.
  - rewrite bind_assoc. apply bind_ext. intros _ st'. apply IH.
Qed.

Lemma for_each_ext {A} (l : list A) (b1 b2 : A → M Ev S unit) st :
  (∀ a st', a ∈ l → b1 a st' = b2 a st') → for_each l b1 st = for_each l b2 st.
Proof.
  revert st. induction l as [|a l IH]; intros st E; simpl; [done|].
  unfold bind. rewrite E by (by left).
  destruct (b2 a st) as [ev st' [[]|e|]]; simpl; [|done..].
  rewrite IH; [done|]. intros a' st'' Ha'. apply E. by right.
Qed.

(** Nested loops are one loop over the concatenation. *)
Lemma for_each_bind_list {A B} (l : list A) (f : A → list B)
    (body : B → M Ev S unit) st :
  for_each (l ≫= f) body st = for_each l (λ a, for_each (f a) body) st.
Proof.
  revert st. induction l as [|a l IH]; intros st; csimpl; [done|].
  rewrite for_each_app. apply bind_ext. intros _ st'. apply IH.
Qed.

Lemma for_each_fmap {A B} (f : A → B) (l : list A) (body : B → M Ev S unit) st :
  for_each (f <$> l) body st = for_each l (λ a, body (f a)) st.
Proof.
  revert st. induction l as [|a l IH]; intros st; csimpl; [done|].
  apply bind_ext. intros _ st'. apply IH.
Qed.

End MonadLaws.

Section MonadRuns.
Context {Ev S : Type}.

Lemma bind_ok {A B} (m : M Ev S A) (k : A → M Ev S B) st ev st' a :
  m st = mkRun ev st' (Ok a) →
  bind m k st = mkRun (ev ++ events (k a st')) (final (k a st')) (outcome (k a st')).
Proof. intros E. unfold bind. by rewrite E. Qed.

Lemma bind_ok_run {A B} (m : M Ev S A) (k : A → M Ev S B) st ev st' a ev' st'' o :
  m st = mkRun ev st' (Ok a) → k a st' = mkRun ev' st'' o →
  bind m k st = mkRun (ev ++ ev') st'' o.
Proof. intros E E'. unfold bind. rewrite E. simpl. by rewrite E'. Qed.

Lemma bind_raised {A B} (m : M Ev S A) (k : A → M Ev S B) st ev st' e :
  m st = mkRun ev st' (Raised e) → bind m k st = mkRun ev st' (Raised e).
Proof. intros E. unfold bind. by rewrite E. Qed.

Lemma bind_killed {A B} (m : M Ev S A) (k : A → M Ev S B) st ev st' :
  m st = mkRun ev st' Killed → bind m k st = mkRun ev st' Killed.
Proof. intros E. unfold bind. by rewrite E. Qed.

Lemma try_ok {A} (m : M Ev S A) h st ev st' a :
  m st = mkRun ev st' (Ok a) → try_except m h st = mkRun ev st' (Ok a).
Proof. intros E. unfold try_except. by rewrite E. Qed.

Lemma try_killed {A} (m : M Ev S A) h st ev st' :
  m st = mkRun ev st' Killed → try_except m h st = mkRun ev st' Killed.
Proof. intros E. unfold try_except. by rewrite E. Qed.

Lemma try_raised {A} (m : M Ev S A) h st ev st' e ev' st'' o :
  m st = mkRun ev st' (Raised e) → h e st' = mkRun ev' st'' o →
  try_except m h st = mkRun (ev ++ ev') st'' o.
Proof. intros E E'. unfold try_except. rewrite E. simpl. by rewrite E'. Qed.

Lemma run_eta {A} (r : Run Ev S A) : r = mkRun (events r) (final r) (outcome r).
Proof. by destruct r. Qed.

End MonadRuns.


(** ** More laws, and methods that do not touch the state *)

Section MoreLaws.
Context {Ev S : Type}.

Lemma bind_gets {A B} (f : S → A) (k : A → M Ev S B) st :
  bind (gets f) k st = k (f st) st.
Proof. unfold bind, gets. cbn. by destruct (k (f st) st). Qed.

Lemma try_ext {A} (m m' : M Ev S A) h st :
  m st = m' st → try_except m h st = try_except m' h st.
Proof. intros E. unfold try_except. by rewrite E. Qed.

Lemma for_each_singleton {A} (a : A) (body : A → M Ev S unit) st :
  for_each [a] body st = body a st.
Proof.
  cbn. unfold bind, ret. destruct (body a st) as [ev st' [[]|e|]]; cbn; [|done..].
  by rewrite app_nil_r.
Qed.

Lemma silent_ret {A} (a : A) : silent (Ev := Ev) (S := S) (ret a).
Proof. by exists (Ok a). Qed.

Lemma silent_raise {A} e : silent (Ev := Ev) (S := S) (raise (A := A) e).
Proof. by exists (Raised e). Qed.

Lemma silent_bind {A B} (m : M Ev S A) (k : A → M Ev S B) :
  silent m → (∀ a, silent (k a)) → silent (bind m k).
Proof.
  intros ([a|e|] & Ho & Hm) Hk; [| |done].
  - destruct (Hk a) as (o' & Ho' & Hka). exists o'.
    split; [done|]. intros st. by eapply (bind_ok_run _ _ _ []).
  - exists (Raised e). split; [done|]. intros st. by eapply bind_raised.
Qed.

Lemma silent_if {A} (b : bool) (m1 m2 : M Ev S A) :
  silent m1 → silent m2 → silent (if b then m1 else m2).
Proof. by destruct b. Qed.
End MoreLaws.


(** ** Chunk file names *)

Lemma string_app_nil_l (s : string) : "" +:+ s = s.
Proof. done. Qed.

Lemma string_app_cons (c : Ascii.ascii) (s t : string) :
  String c s +:+ t = String c (s +:+ t).
Proof. done. Qed.

Lemma string_length_app (s t : string) :
  String.length (s +:+ t) = (String.length s + String.length t)%nat.
Proof.
  induction s as [|c s IH]; [done|].
  rewrite string_app_cons. simpl. by rewrite IH.
Qed.

Lemma string_app_inj_r (u s t : string) : s +:+ u = t +:+ u → s = t.
Proof.
  revert t. induction s as [|c s IH]; intros [|c' t] E.
  - done.
  - apply (f_equal String.length) in E.
    rewrite !string_length_app in E. simpl in E. lia.
  - apply (f_equal String.length) in E.
    rewrite !string_length_app in E. simpl in E. lia.
  - rewrite !string_app_cons in E. injection E as -> E. f_equal. by apply IH.
Qed.

Lemma pretty_N_go_head (x : N) : ∀ s,
  (0 < x)%N → ∃ c t, pretty_N_go x s = String c t ∧ c ≠ "0"%char.
Proof.
  induction (N.lt_wf_0 x) as [x _ IH]; intros s Hx.
  rewrite pretty_N_go_step by done.
  destruct (decide (x < 10)%N) as [Hlt|Hge].
  - rewrite N.div_small, pretty_N_go_0, N.mod_small by done.
    eexists _, _. split; [done|].
    assert (x = 1 ∨ x = 2 ∨ x = 3 ∨ x = 4 ∨ x = 5 ∨ x = 6
          ∨ x = 7 ∨ x = 8 ∨ x = 9)%N as Hc by lia.
    destruct Hc as [->|[->|[->|[->|[->|[->|[->|[->| ->]]]]]]]]; done.
  - apply IH.
    + apply N.div_lt; lia.
    + apply N.div_str_pos; lia.
Qed.

Lemma pretty_canonical (n : Z) : 0 ≤ n → canonical (pretty n).
Proof.
  intros Hn. destruct n as [|p|p]; [|clear Hn|lia].
  - split; [done|]. by intros t [= <-].
  - unfold pretty, pretty_Z, pretty, pretty_positive, pretty, pretty_N.
    rewrite decide_False by done.
    destruct (pretty_N_go_head (N.pos p) "") as (c & t & -> & Hc); [lia|].
    split; [done|]. intros t' [= -> _]. done.
Qed.

(** The padding of [zfill]. *)
Lemma zfill_unfold (w : nat) (s : string) :
  Py.zfill w s = String.concat "" (replicate (w - String.length s) "0"%string) +:+ s.
Proof. done. Qed.

Lemma zeros_S (k : nat) :
  String.concat "" (replicate (S k) "0"%string)
  = String "0" (String.concat "" (replicate k "0"%string)).
Proof. destruct k; done. Qed.

Lemma zeros_app_inj (k k' : nat) (s t : string) :
  canonical s → canonical t →
  String.concat "" (replicate k "0"%string) +:+ s =
  String.concat "" (replicate k' "0"%string) +:+ t →
  s = t.
Proof.
  intros [Hs Hs0] [Ht Ht0]. revert k'.
  induction k as [|k IH]; intros [|k'] E.
  - done.
  - rewrite zeros_S, string_app_cons in E. simpl in E.
    rewrite string_app_nil_l in E.
    pose proof (Hs0 _ E) as Hnil.
    destruct (String.concat "" (replicate k' "0"%string)); [|done].
    by rewrite string_app_nil_l in Hnil.
  - rewrite zeros_S, string_app_cons in E. simpl in E.
    rewrite string_app_nil_l in E. symmetry in E.
    pose proof (Ht0 _ E) as Hnil.
    destruct (String.concat "" (replicate k "0"%string)); [|done].
    by rewrite string_app_nil_l in Hnil.
  - rewrite !zeros_S, !string_app_cons in E. injection E as E. by apply (IH k').
Qed.

(** Chunk numbers from zero on have different file names. *)
Lemma chunk_name_inj (n m : Z) :
  0 ≤ n → 0 ≤ m → chunk_name n = chunk_name m → n = m.
Proof.
  intros Hn Hm E. unfold chunk_name, Py.fmt_05d in E.
  rewrite !(proj2 (Z.ltb_ge _ _)) in E by done.
  apply (inj (String.app "chunk_")) in E.
  apply string_app_inj_r in E. rewrite !zfill_unfold in E.
  apply zeros_app_inj in E; [|by apply pretty_canonical..].
  by apply (inj pretty).
Qed.

(** * Theorems *)

(** ** [range] *)

Lemma ceil_div_step cur stop step :
  0 < step → cur < stop →
  (stop - (cur + step) + step - 1) / step = (stop - cur + step - 1) / step - 1.
Proof.
  intros Hs Hc.
  replace (stop - (cur + step) + step - 1) with ((stop - cur + step - 1) + (-1) * step) by lia.
  rewrite Z.div_add by lia. lia.
Qed.

Lemma ceil_div_pos_iff a b : 0 < b → 0 < (a + b - 1) / b ↔ 0 < a.
Proof.
  intros Hb. split; intros Ha.
  - destruct (decide (0 < a)) as [|Hn]; [done|].
    assert ((a + b - 1) / b < 1) by (apply Z.div_lt_upper_bound; lia). lia.
  - apply Z.div_str_pos. lia.
Qed.

Lemma range_up_spec stop step fuel : ∀ cur,
  0 < step →
  (Z.to_nat ((stop - cur + step - 1) / step) ≤ fuel)%nat →
  Py.range_up fuel cur stop step =
  (λ i : nat, cur + Z.of_nat i * step) <$> seq 0 (Z.to_nat ((stop - cur + step - 1) / step)).
Proof.
  induction fuel as [|fuel IH]; intros cur Hs Hf.
  - assert (Z.to_nat ((stop - cur + step - 1) / step) = 0%nat) as -> by lia. done.
  - simpl. destruct (Z.ltb_spec cur stop) as [Hlt|Hge].
    + pose proof (proj2 (ceil_div_pos_iff (stop - cur) step Hs)) as Hpos.
      specialize (Hpos ltac:(lia)).
      pose proof (ceil_div_step cur stop step Hs Hlt) as Hstep.
      rewrite IH by lia. rewrite Hstep.
      set (n := (stop - cur + step - 1) / step) in *.
      replace (Z.to_nat n) with (S (Z.to_nat (n - 1))) by lia.
      rewrite <-cons_seq. simpl. f_equal; [lia|].
      rewrite <-fmap_S_seq, <-list_fmap_compose.
      apply list_fmap_ext. intros _ i _. simpl. lia.
    + assert ((stop - cur + step - 1) / step < 1) by (apply Z.div_lt_upper_bound; lia).
      replace (Z.to_nat ((stop - cur + step - 1) / step)) with 0%nat by lia. done.
Qed.

Lemma ceil_div_le a b : 0 < b → (Z.to_nat ((a + b - 1) / b) ≤ Z.to_nat a)%nat.
Proof.
  intros Hb. destruct (decide (0 < a)) as [Ha|Ha].
  - assert ((a + b - 1) / b < a + 1) by (apply Z.div_lt_upper_bound; nia). lia.
  - assert ((a + b - 1) / b < 1) by (apply Z.div_lt_upper_bound; lia). lia.
Qed.

(** For a positive step, [range(start, stop, step)] is [start + i * step]
    for [i] below [ceil((stop - start) / step)]: the fuel never runs out. *)
Lemma range_pos start stop step :
  0 < step →
  Py.range start stop step =
  (λ i : nat, start + Z.of_nat i * step) <$>
    seq 0 (Z.to_nat ((stop - start + step - 1) / step)).
Proof.
  intros Hs. unfold Py.range.
  destruct (Z.ltb_spec 0 step); [|lia].
  apply range_up_spec; [done|]. by apply ceil_div_le.
Qed.


Lemma range_unit a b :
  Py.range a b 1 = (λ i : nat, a + Z.of_nat i) <$> seq 0 (Z.to_nat (b - a)).
Proof.
  rewrite range_pos by lia.
  replace ((b - a + 1 - 1) / 1) with (b - a) by (rewrite Z.div_1_r; lia).
  apply list_fmap_ext. intros; lia.
Qed.



(** ** The windows tile the grid (C4) *)

Lemma bind_singleton_list {A B} (f : A → B) (l : list A) :
  l ≫= (λ x, [f x]) = f <$> l.
Proof. induction l as [|a l IH]; csimpl; [done|]. by rewrite IH. Qed.

Lemma bind_ext_list {A B} (f g : A → list B) (l : list A) :
  (∀ x, f x = g x) → l ≫= f = l ≫= g.
Proof. intros E. induction l as [|a l IH]; csimpl; [done|]. by rewrite E, IH. Qed.

Lemma length_bind_const {A B} (f : A → list B) (l : list A) m :
  (∀ x, length (f x) = m) → length (l ≫= f) = (length l * m)%nat.
Proof.
  intros E. induction l as [|a l IH]; csimpl; [done|].
  rewrite length_app, E, IH. lia.
Qed.

Lemma lookup_bind_seq {A} (g : nat → nat → A) (m n : nat) : ∀ s i j,
  (i < n)%nat → (j < m)%nat →
  (seq s n ≫= (λ a, g a <$> seq 0 m)) !! (i * m + j)%nat = Some (g (s + i)%nat j).
Proof.
  induction n as [|n IH]; intros s i j Hi Hj; [lia|].
  csimpl. destruct i as [|i].
  - rewrite lookup_app_l by (rewrite length_fmap, length_seq; lia).
    rewrite list_lookup_fmap, lookup_seq_lt by lia. simpl.
    by rewrite Nat.add_0_r.
  - rewrite lookup_app_r by (rewrite length_fmap, length_seq; lia).
    rewrite length_fmap, length_seq.
    replace (S i * m + j - m)%nat with (i * m + j)%nat by lia.
    rewrite IH by lia. do 2 f_equal. lia.
Qed.













(** ** The extractor (C5) *)

Section Extractor.
Context {F : Type} `{FloatLe F}.

Lemma bind_seq_flat {A} (g : nat → nat → A) (n m : nat) :
  seq 0 n ≫= (λ a, g a <$> seq 0 m)
  = (λ i, g (i / m)%nat (i mod m)%nat) <$> seq 0 (n * m).
Proof.
  apply list_eq. intros i.
  destruct (decide (i < n * m)%nat) as [Hi|Hi].
  - assert (m ≠ 0)%nat by (intros ->; lia).
    pose proof (Nat.div_mod_eq i m).
    assert (i mod m < m)%nat by (by apply Nat.mod_upper_bound).
    assert (i / m < n)%nat by (apply Nat.Div0.div_lt_upper_bound; lia).
    rewrite list_lookup_fmap, lookup_seq_lt by done. simpl.
    replace i with (i / m * m + i mod m)%nat at 1 by lia.
    by rewrite lookup_bind_seq.
  - rewrite !lookup_ge_None_2; [done| |].
    + rewrite length_fmap, length_seq. lia.
    + rewrite (length_bind_const _ _ m), length_seq; [lia|].
      intros a. by rewrite length_fmap, length_seq.
Qed.

Lemma window_cells_flat (win : Window) :
  window_cells win =
  (λ i : nat, (row_off win + Z.of_nat (i / Z.to_nat (width win)),
               col_off win + Z.of_nat (i mod Z.to_nat (width win)))) <$>
  seq 0 (Z.to_nat (height win) * Z.to_nat (width win)).
Proof.
  unfold window_cells. rewrite !range_unit.
  rewrite list_fmap_bind.
  replace (row_off win + height win - row_off win) with (height win) by lia.
  replace (col_off win + width win - col_off win) with (width win) by lia.
  rewrite <-(bind_seq_flat (λ a b, (row_off win + Z.of_nat a, col_off win + Z.of_nat b))).
  apply bind_ext_list. intros a. simpl.
  rewrite list_fmap_bind. by rewrite <-bind_singleton_list.
Qed.

Lemma NoDup_window_cells (win : Window) : NoDup (window_cells win).
Proof.
  rewrite window_cells_flat.
  apply NoDup_fmap_2_strong; [|apply NoDup_seq].
  intros i j Hi Hj [= E1 E2].
  apply elem_of_seq in Hi, Hj.
  assert (Z.to_nat (width win) ≠ 0)%nat by lia.
  pose proof (Nat.div_mod_eq i (Z.to_nat (width win))).
  pose proof (Nat.div_mod_eq j (Z.to_nat (width win))).
  assert (i / Z.to_nat (width win) = j / Z.to_nat (width win))%nat by lia.
  assert (i mod Z.to_nat (width win) = j mod Z.to_nat (width win))%nat by lia.
  congruence.
Qed.

Lemma filter_ext_in {A} (P Q : A → Prop)
    `{!∀ x, Decision (P x)} `{!∀ x, Decision (Q x)} (l : list A) :
  (∀ x, x ∈ l → P x ↔ Q x) → filter P l = filter Q l.
Proof.
  induction l as [|a l IH]; intros E; [done|].
  rewrite !filter_cons.
  rewrite IH by (intros x Hx; apply E; by right).
  destruct (decide (P a)) as [Hp|Hp], (decide (Q a)) as [Hq|Hq]; try done.
  - apply E in Hp; [done|by left].
  - apply E in Hq; [done|by left].
Qed.

Lemma filter_none {A} (P : A → Prop) `{!∀ x, Decision (P x)} (l : list A) :
  (∀ x, x ∈ l → ¬ P x) → filter P l = [].
Proof.
  induction l as [|a l IH]; intros E; [done|].
  rewrite filter_cons_False by (apply E; by left).
  apply IH. intros x Hx. apply E. by right.
Qed.

Lemma bool_index_indices {A} (d : A) (mask : list bool) : ∀ values : list A,
  length values = length mask →
  bool_index values mask =
  (λ i, default d (values !! i)) <$>
    filter (λ i, mask !! i = Some true) (seq 0 (length mask)).
Proof.
  induction mask as [|b mask IH] using rev_ind; intros values Hlen.
  - by destruct values.
  - destruct values as [|v values _] using rev_ind.
    { rewrite length_app in Hlen. simpl in Hlen. lia. }
    rewrite !length_app in Hlen. simpl in Hlen.
    assert (Hl : length values = length mask) by lia.
    unfold bool_index. rewrite zip_with_app by done.
    rewrite filter_app, fmap_app. fold (bool_index values mask).
    rewrite IH by done.
    rewrite length_app. simpl. rewrite Nat.add_1_r, seq_S, filter_app, fmap_app.
    simpl. f_equal.
    + rewrite (filter_ext_in (λ i, (mask ++ [b]) !! i = Some true)
                             (λ i, mask !! i = Some true) (seq 0 (length mask))).
      * apply list_fmap_ext. intros _ i Hi%list_elem_of_lookup_2.
        apply list_elem_of_filter in Hi as [_ Hi%elem_of_seq].
        by rewrite lookup_app_l by lia.
      * intros i Hi%elem_of_seq. by rewrite lookup_app_l by lia.
    + rewrite !filter_cons, filter_nil. simpl.
      rewrite list_lookup_middle by done.
      destruct b.
      * rewrite !decide_True by done. rewrite filter_nil. simpl.
        rewrite <-Hl. by rewrite list_lookup_middle.
      * rewrite decide_False by done. by rewrite decide_False by (intros [=]).
Qed.

Lemma filter_fmap_list {A B} (f : A → B) (P : B → Prop)
    `{!∀ x, Decision (P x)} (l : list A) :
  filter P (f <$> l) = f <$> filter (λ x, P (f x)) l.
Proof.
  induction l as [|a l IH]; [done|]. csimpl.
  rewrite !filter_cons, IH. by destruct (decide (P (f a))).
Qed.

Lemma existsb_id_indices (mask : list bool) :
  existsb id mask = false ↔
  filter (λ i, mask !! i = Some true) (seq 0 (length mask)) = [].
Proof.
  split.
  - intros E. destruct (filter _ _) as [|i l] eqn:Hf; [done|].
    assert (i ∈ filter (λ i, mask !! i = Some true) (seq 0 (length mask))) as Hi
      by (rewrite Hf; by left).
    apply list_elem_of_filter in Hi as [Hi _].
    assert (existsb id mask = true); [|congruence].
    apply existsb_exists. exists true. split; [|done].
    apply list_elem_of_In. by eapply list_elem_of_lookup_2.
  - intros E. destruct (existsb id mask) eqn:Hex; [|done].
    apply existsb_exists in Hex as (b & Hb & Hid). simpl in Hid. subst b.
    apply list_elem_of_In, list_elem_of_lookup in Hb as [i Hi].
    assert (i ∈ filter (λ i, mask !! i = Some true) (seq 0 (length mask))) as Hin.
    { apply list_elem_of_filter. split; [done|].
      apply elem_of_seq. apply lookup_lt_Some in Hi. lia. }
    rewrite E in Hin. by apply elem_of_nil in Hin.
Qed.

(** C5. Whenever the read of a window returns its array (of the window's
    shape), [process_chunk] returns exactly one record per cell of the
    window whose value is above zero and whose native coordinate passes the
    region filter, in row-major order, and nothing else; it returns [None]
    (the empty chunk) when no cell qualifies, in particular when every value
    of the window is zero or negative.  It leaves the state as it was. *)
Theorem process_chunk_emits_qualifying_cells
    (self : Processor F) (src : Raster F) (window : Window) (a : Array2)
    (st : Scan F) :
  src_read src window = Some a →
  shape a = (Z.to_nat (height window), Z.to_nat (width window)) →
  length (flat a) = size_of (shape a) →
  let r := process_chunk self src window st in
  let recs :=
    record_of self src a window <$>
      filter (λ rc, qualifies self src a window rc = true) (window_cells window) in
  NoDup (window_cells window) ∧
  final r = st ∧
  outcome r = Ok (match recs with [] => None | _ => Some recs end) ∧
  ((∀ v, v ∈ flat a → v ≤ 0) → outcome r = Ok None).
Proof.
  intros Hread Hshape Hlen r recs.
  set (nr := Z.to_nat (height window)) in *.
  set (nc := Z.to_nat (width window)) in *.
  set (cell_of := λ i : nat, (row_off window + Z.of_nat (i / nc),
                              col_off window + Z.of_nat (i mod nc))).
  assert (Hcells : window_cells window = cell_of <$> seq 0 (nr * nc))
    by apply window_cells_flat.
  rewrite Hshape in Hlen. unfold size_of in Hlen. simpl in Hlen.
  (* the value of the i-th cell is the i-th element *)
  assert (Hval : ∀ i, (i < nr * nc)%nat →
            cell_value a window (cell_of i) = default 0 (flat a !! i)).
  { intros i Hi. unfold cell_value, array_get, cell_of. simpl.
    rewrite Hshape. simpl. fold nc.
    assert (nc ≠ 0)%nat by (intros E; rewrite E in Hi; lia).
    pose proof (Nat.div_mod_eq i nc).
    do 2 f_equal. lia. }
  set (mesh := r ← Py.range (row_off window) (row_off window + height window) 1;
               c ← Py.range (col_off window) (col_off window + width window) 1;
               [(r, c)]) in *.
  destruct (decide (nr * nc = 0)%nat) as [Hz|Hnz].
  { (* a window without cells: the mask cannot be built *)
    assert (Hrun : r = mkRun [EvRead window; EvLog (MsgErrorChunk TypeError)] st (Ok None)).
    { unfold r, process_chunk, try_except, bind, read_band, emit, reshape, mask_and. simpl.
      rewrite Hread. simpl. fold mesh.
      rewrite !length_fmap.
      change mesh with (window_cells window). rewrite Hcells.
      rewrite length_fmap, length_seq, Hshape. unfold size_of. simpl.
      fold nr nc. rewrite Nat.eqb_refl. simpl.
      rewrite Hz. reflexivity. }
    assert (Hrecs : recs = []).
    { unfold recs. change mesh with (window_cells window) in *.
      rewrite Hcells, Hz. reflexivity. }
    rewrite Hrun, Hrecs. split_and!; [apply NoDup_window_cells|done..]. }
  set (mask := zip_with andb ((λ v, 0 <? v) <$> flat a)
         ((λ xy : F * F, is_in_california self xy.1 xy.2) <$>
            ((λ rc : Z * Z, src_xy src rc.1 rc.2) <$> mesh))).
  assert (Hmask : mask = (λ i, qualifies self src a window (cell_of i)) <$> seq 0 (nr * nc)).
  { unfold mask. change mesh with (window_cells window). rewrite Hcells.
    apply list_eq. intros i.
    rewrite lookup_zip_with, !list_lookup_fmap.
    destruct (decide (i < nr * nc)%nat) as [Hi|Hi].
    - rewrite lookup_seq_lt by done. simpl.
      destruct (lookup_lt_is_Some_2 (flat a) i ltac:(lia)) as [v Hv].
      rewrite Hv. simpl. unfold qualifies.
      rewrite Hval by done. by rewrite Hv.
    - rewrite (lookup_ge_None_2 (seq _ _)) by (rewrite length_seq; lia). simpl.
      by destruct (flat a !! i). }
  assert (Hmlen : length mask = (nr * nc)%nat)
    by (by rewrite Hmask, length_fmap, length_seq).
  set (I := filter (λ i, mask !! i = Some true) (seq 0 (length mask))).
  assert (HI : filter (λ rc, qualifies self src a window rc = true) (window_cells window)
               = cell_of <$> I).
  { rewrite Hcells, filter_fmap_list. f_equal. unfold I. rewrite Hmlen.
    apply filter_ext_in. intros i Hi%elem_of_seq.
    rewrite Hmask, list_lookup_fmap, lookup_seq_lt by lia. simpl.
    split; congruence. }
  assert (HinI : ∀ i, i ∈ I → (i < nr * nc)%nat).
  { intros i Hi. apply list_elem_of_filter in Hi as [_ Hi%elem_of_seq]. lia. }
  assert (Hrun :
    r = mkRun [EvRead window] st
          (Ok (if negb (existsb id mask) then None
               else Some (zip_with
                 (λ code (ll : F * F), mkRow (year self) code ll.1 ll.2 (CDL_CROP_MAPPING !! code))
                 (bool_index (flat a) mask)
                 ((λ xy : F * F, transformer self xy.1 xy.2) <$>
                  ((λ rc : Z * Z, src_xy src (rc.1 + row_off window) (rc.2 + col_off window)) <$>
                   nonzero (shape a) mask)))))).
  { unfold r, process_chunk, try_except, bind, read_band, emit, reshape, mask_and. simpl.
    rewrite Hread. simpl. fold mesh.
    rewrite !length_fmap.
    change mesh with (window_cells window). rewrite Hcells.
    rewrite length_fmap, length_seq, Hshape. unfold size_of. simpl.
    fold nr nc. rewrite Nat.eqb_refl. simpl.
    rewrite !length_fmap, length_seq, (proj2 (Nat.eqb_neq _ _) Hnz). simpl.
    rewrite <-Hcells. change (window_cells window) with mesh. fold mask.
    by destruct (existsb id mask). }
  assert (Hdf : zip_with
                 (λ code (ll : F * F), mkRow (year self) code ll.1 ll.2 (CDL_CROP_MAPPING !! code))
                 (bool_index (flat a) mask)
                 ((λ xy : F * F, transformer self xy.1 xy.2) <$>
                  ((λ rc : Z * Z, src_xy src (rc.1 + row_off window) (rc.2 + col_off window)) <$>
                   nonzero (shape a) mask)) = recs).
  { unfold recs. rewrite HI.
    rewrite (bool_index_indices 0) by lia. fold I.
    unfold nonzero. fold I. rewrite Hshape. simpl.
    rewrite <-!list_fmap_compose.
    rewrite zip_with_fmap_l, zip_with_fmap_r, zip_with_diag.
    apply list_fmap_ext. intros _ i Hi%list_elem_of_lookup_2. apply HinI in Hi.
    simpl. unfold record_of. rewrite Hval by done.
    unfold cell_of. simpl.
    replace (Z.of_nat (i / nc) + row_off window) with (row_off window + Z.of_nat (i / nc)) by lia.
    replace (Z.of_nat (i mod nc) + col_off window) with (col_off window + Z.of_nat (i mod nc)) by lia.
    done. }
  assert (Hex : existsb id mask = false ↔ recs = []).
  { rewrite existsb_id_indices. fold I. unfold recs. rewrite HI. split.
    - by intros ->.
    - by intros ?%fmap_nil_inv%fmap_nil_inv. }
  assert (Hout : outcome r = Ok (match recs with [] => None | _ => Some recs end)).
  { rewrite Hrun. simpl. rewrite Hdf.
    destruct (existsb id mask) eqn:E; simpl.
    - destruct recs; [|done]. by assert (true = false) by (by apply Hex).
    - by rewrite (proj1 Hex). }
  split_and!.
  - apply NoDup_window_cells.
  - by rewrite Hrun.
  - done.
  - intros Hneg. rewrite Hout.
    assert (recs = []) as ->; [|done].
    unfold recs.
    rewrite filter_none; [done|].
    intros rc Hrc Hq.
    unfold qualifies in Hq. apply andb_true_iff in Hq as [Hq _].
    apply Z.ltb_lt in Hq.
    unfold cell_value, array_get in Hq.
    destruct (flat a !! _) as [v|] eqn:Hv; simpl in Hq; [|lia].
    apply list_elem_of_lookup_2, Hneg in Hv. lia.
Qed.
End Extractor.



(** ** The checkpoint tracker (C8, C9, C10) *)

Section Checkpoint.
Context {F : Type}.
Implicit Types (st : Scan F) (fs : FS F) (d : ChunksDir F).

Lemma save_progress_run st d chunk :
  chunks_dir (disk st) = Some d → kill st = None →
  let p := <["last_chunk" := JInt chunk]> (progress st) in
  save_progress chunk st =
  mkRun [EvOpenW; EvDump p]
        (mkScan p (chunk_num st) (with_progress_json (Some (Json p)) (disk st) d) None)
        (Ok tt).
Proof.
  intros Hd Hk p. unfold save_progress, bind, modify, gets, io, in_chunks_dir. simpl.
  rewrite Hk, Hd. simpl. done.
Qed.

Lemma load_progress_run fs k :
  load_progress (boot fs k) =
  match chunks_dir fs ≫= progress_json with
  | Some (Json p) => mkRun [] (mkScan p 0 fs k) (Ok tt)
  | Some Torn => mkRun [] (boot fs k) (Raised JSONDecodeError)
  | None => mkRun [] (mkScan default_progress 0 fs k) (Ok tt)
  end.
Proof.
  unfold load_progress, bind, gets. simpl.
  by destruct (chunks_dir fs ≫= progress_json) as [[]|].
Qed.

Lemma saves_snoc (l : list Z) c st :
  saves (l ++ [c]) st = bind (saves l) (λ _, save_progress c) st.
Proof.
  unfold saves. rewrite for_each_app. apply bind_ext. intros [] st'. simpl.
  transitivity (bind (save_progress c) ret st');
    [apply bind_ext; by intros [] ?|apply bind_ret_r].
Qed.

(** What a run of saves leaves: the dictionary in memory and on disk is the
    initial one with [last_chunk] set to the last argument. *)
Lemma saves_run (l : list Z) : ∀ st d,
  chunks_dir (disk st) = Some d → kill st = None → l ≠ [] →
  ∃ evs c, last l = Some c ∧
    saves l st =
    mkRun evs
      (mkScan (<["last_chunk" := JInt c]> (progress st)) (chunk_num st)
         (with_progress_json (Some (Json (<["last_chunk" := JInt c]> (progress st)))) (disk st) d)
         None)
      (Ok tt).
Proof.
  induction l as [|c l IH] using rev_ind; intros st d Hd Hk Hne; [done|].
  rewrite saves_snoc, last_snoc.
  destruct (decide (l = [])) as [->|Hl].
  - eexists _, c. split; [done|]. unfold saves. simpl for_each.
    rewrite bind_ret_l. by rewrite (save_progress_run st d).
  - destruct (IH st d Hd Hk Hl) as (evs & c' & _ & Hrun).
    eexists _, c. split; [done|]. unfold bind. rewrite Hrun.
    cbn [outcome final events].
    rewrite (save_progress_run _ (set_progress_json (Some (Json (<["last_chunk" := JInt c']> (progress st)))) d)) by done.
    cbn [outcome final events progress chunk_num disk].
    rewrite insert_insert_eq. done.
Qed.

Lemma with_progress_json_id fs d :
  chunks_dir fs = Some d → with_progress_json (progress_json d) fs d = fs.
Proof.
  intros Hd. unfold with_progress_json. destruct fs, d; simpl in *. by simplify_eq.
Qed.

Lemma loaded_after_saves fs d (l : list Z) :
  chunks_dir fs = Some d → progress_json d ≠ Some Torn →
  let st0 := final (load_progress (boot fs None)) in
  outcome (saves l st0) = Ok tt ∧
  disk (final (saves l st0)) =
    with_progress_json
      (match last l with
       | Some c => Some (Json (<["last_chunk" := JInt c]> (progress st0)))
       | None => progress_json d
       end) fs d ∧
  loaded_last_chunk (disk (final (saves l st0))) =
    match last l with
    | Some c => Some c
    | None => loaded_last_chunk fs
    end.
Proof.
  intros Hd Hnt st0.
  assert (Hst0 : disk st0 = fs ∧ kill st0 = None).
  { unfold st0. rewrite load_progress_run, Hd. simpl.
    by destruct (progress_json d) as [[]|]. }
  destruct Hst0 as [Hdisk Hkill].
  destruct (decide (l = [])) as [->|Hl].
  - simpl. rewrite Hdisk. split_and!; [done| |done].
    by rewrite with_progress_json_id.
  - destruct (saves_run l st0 d) as (evs & c & Hlast & Hrun); [by rewrite Hdisk|done..|].
    rewrite Hrun, Hlast. cbn [outcome final disk]. rewrite Hdisk.
    split_and!; [done..|].
    unfold loaded_last_chunk. rewrite load_progress_run. simpl.
    by rewrite lookup_insert_eq.
Qed.

(** C10. Whatever the checkpoint calls, [save_progress] changes the entry
    [last_chunk] alone: after any number of saves a new load finds under
    every other key, [status] among them, what the load before the saves
    found (or defaulted to), and on disk nothing but [progress.json] has
    changed. *)
Theorem save_progress_changes_only_last_chunk fs d (chunks : list Z) :
  chunks_dir fs = Some d → progress_json d ≠ Some Torn →
  let r0 := load_progress (boot fs None) in
  let r1 := saves chunks (final r0) in
  let r2 := load_progress (boot (disk (final r1)) None) in
  outcome r0 = Ok tt ∧ outcome r1 = Ok tt ∧ outcome r2 = Ok tt ∧
  (∀ key, key ≠ "last_chunk" →
     progress (final r2) !! key = progress (final r0) !! key) ∧
  progress (final r2) !! "status" = progress (final r0) !! "status" ∧
  (∃ p, disk (final r1) = with_progress_json p fs d).
Proof.
  intros Hd Hnt r0 r1 r2.
  destruct (loaded_after_saves fs d chunks Hd Hnt) as (Hok & Hdisk & _).
  fold r0 r1 in Hok, Hdisk.
  assert (Hr0 : outcome r0 = Ok tt).
  { unfold r0. rewrite load_progress_run, Hd. simpl.
    by destruct (progress_json d) as [[]|]. }
  assert (Hkeys : outcome r2 = Ok tt ∧ ∀ key, key ≠ "last_chunk" →
            progress (final r2) !! key = progress (final r0) !! key).
  { unfold r2. rewrite Hdisk. destruct (last chunks) as [c|].
    - rewrite load_progress_run. simpl. split; [done|].
      intros key Hkey. by rewrite lookup_insert_ne.
    - rewrite with_progress_json_id by done. by fold r0. }
  destruct Hkeys as [Hr2 Hkeys].
  split_and!; [done..| |by eexists]. by apply Hkeys.
Qed.

(** C8, as amended. [save_progress] stores its argument whatever the value
    on disk: after a save the loaded checkpoint is that argument, so it does
    not decrease when the argument is at least the value loaded before, as
    it is for the strictly increasing chunk numbers the scan driver saves. *)
Theorem checkpoint_does_not_decrease_for_ascending_saves
    fs d (l : list Z) (a c : Z) :
  chunks_dir fs = Some d → progress_json d ≠ Some Torn →
  let st0 := final (load_progress (boot fs None)) in
  loaded_last_chunk (disk (final (saves l st0))) = Some a →
  a ≤ c →
  ∃ b, loaded_last_chunk (disk (final (saves (l ++ [c]) st0))) = Some b ∧
       b = c ∧ a ≤ b.
Proof.
  intros Hd Hnt st0 Ha Hac.
  destruct (loaded_after_saves fs d (l ++ [c]) Hd Hnt) as (_ & _ & Hl).
  rewrite last_snoc in Hl. by exists c.
Qed.

(** What [save_progress] does when the process is killed after [n] more
    mutations of the files. *)
Lemma save_progress_killed st d chunk (n : nat) :
  chunks_dir (disk st) = Some d → kill st = Some n →
  let p := <["last_chunk" := JInt chunk]> (progress st) in
  save_progress chunk st =
  match n with
  | O => mkRun [] (set_progress p st) Killed
  | S O =>
      mkRun [EvOpenW]
        (mkScan p (chunk_num st) (with_progress_json (Some Torn) (disk st) d) (Some O))
        Killed
  | S (S n') =>
      mkRun [EvOpenW; EvDump p]
        (mkScan p (chunk_num st) (with_progress_json (Some (Json p)) (disk st) d) (Some n'))
        (Ok tt)
  end.
Proof.
  intros Hd Hk p. unfold save_progress, bind, modify, gets, io, in_chunks_dir. simpl.
  rewrite Hk, Hd. destruct n as [|[|n']]; simpl; done.
Qed.

(** C9, as amended. [save_progress] rewrites [progress.json] in place: the
    file is opened for writing, which empties it, and then dumped.  A save
    that completes leaves the complete new record; a kill before the file is
    opened leaves the record as it was; a kill between the two steps leaves
    a torn record, which the next load rejects with a decode error. *)
Theorem save_progress_in_place st d chunk (k : option nat) :
  chunks_dir (disk st) = Some d → kill st = k →
  let p := <["last_chunk" := JInt chunk]> (progress st) in
  let r := save_progress chunk st in
  let reload := load_progress (boot (disk (final r)) None) in
  match k with
  | Some O =>
      outcome r = Killed ∧ disk (final r) = disk st
  | Some (S O) =>
      outcome r = Killed ∧
      disk (final r) = with_progress_json (Some Torn) (disk st) d ∧
      outcome reload = Raised JSONDecodeError
  | _ =>
      outcome r = Ok tt ∧
      disk (final r) = with_progress_json (Some (Json p)) (disk st) d ∧
      outcome reload = Ok tt ∧ progress (final reload) = p
  end.
Proof.
  intros Hd Hk p r reload. unfold reload, r. destruct k as [[|[|n]]|].
  - by rewrite (save_progress_killed st d chunk 0).
  - rewrite (save_progress_killed st d chunk 1) by done.
    by rewrite load_progress_run.
  - rewrite (save_progress_killed st d chunk (S (S n))) by done.
    by rewrite load_progress_run.
  - rewrite (save_progress_run st d chunk) by done.
    by rewrite load_progress_run.
Qed.
End Checkpoint.

(** *** Examples for the checkpoint tracker *)

(** C8, counterexample: saving chunk 5 and then chunk 3 brings the loaded
    checkpoint from 5 down to 3. *)
Lemma later_save_lowers_checkpoint :
  let st0 := final (load_progress (boot fs_fresh None)) in
  ∃ a b,
    loaded_last_chunk (disk (final (saves [5] st0))) = Some a ∧
    loaded_last_chunk (disk (final (saves [5; 3] st0))) = Some b ∧
    b < a.
Proof. exists 5, 3. vm_compute. done. Qed.

Lemma checkpoint_does_not_decrease_for_ascending_saves_witness :
  ∃ b, loaded_last_chunk
         (disk (final (saves ([1; 2] ++ [3])
                  (final (load_progress (boot fs_fresh None)))))) = Some b ∧
       b = 3 ∧ 2 ≤ b.
Proof.
  apply (checkpoint_does_not_decrease_for_ascending_saves fs_fresh empty_dir [1; 2] 2 3).
  - reflexivity.
  - discriminate.
  - vm_compute. reflexivity.
  - lia.
Defined.

(** C9, counterexample: the process is killed during the save of chunk 2,
    after the file was opened; the next load sees neither the old record
    ([last_chunk] 1) nor the new one: it raises. *)
Lemma killed_save_leaves_torn_checkpoint :
  let st := mkScan (<["last_chunk" := JInt 1]> default_progress) 1 fs_after_chunk_1 (Some 1%nat) in
  loaded_last_chunk (disk st) = Some 1 ∧
  outcome (save_progress 2 st) = Killed ∧
  outcome (load_progress (boot (disk (final (save_progress 2 st))) None))
    = Raised JSONDecodeError.
Proof. vm_compute. done. Qed.

Lemma save_progress_in_place_witness :
  let st := mkScan default_progress 0 fs_fresh None in
  outcome (save_progress 7 st) = Ok tt ∧
  loaded_last_chunk (disk (final (save_progress 7 st))) = Some 7.
Proof.
  intros st.
  destruct (save_progress_in_place st empty_dir 7 None) as (Hok & Hdisk & _ & _);
    [reflexivity..|].
  split; [exact Hok|]. rewrite Hdisk. vm_compute. reflexivity.
Defined.

Lemma save_progress_changes_only_last_chunk_witness :
  let r0 := load_progress (boot fs_fresh None) in
  let r2 := load_progress (boot (disk (final (saves [4; 9] (final r0)))) None) in
  progress (final r2) !! "status" = Some (JStr "processing").
Proof.
  intros r0 r2.
  destruct (save_progress_changes_only_last_chunk fs_fresh empty_dir [4; 9])
    as (_ & _ & _ & _ & Hstatus & _); [reflexivity|discriminate|].
  unfold r2, r0. rewrite Hstatus. vm_compute. reflexivity.
Defined.



(** ** The final artifact and the two phases (C1) *)

Section Respect.
Context {F : Type}.
Implicit Types (fs : FS F) (P Q T : relation (FS F)) (env : Env F).

Lemma resp_weaken {A} P Q T (m : M _ _ A) :
  (∀ fs fs', Q fs fs' → T fs fs') → resp P Q m → resp P T m.
Proof. intros HQT Hm fs fs' HP. destruct (Hm fs fs' HP) as (? & ? & ?). auto. Qed.

Lemma resp_ret {A} P (a : A) : resp P P (ret a).
Proof. by intros fs fs' HP. Qed.

Lemma resp_raise {A} P e : resp P P (raise (A := A) e).
Proof. by intros fs fs' HP. Qed.

Lemma resp_log P m : resp P P (log m).
Proof. by intros fs fs' HP. Qed.

Lemma resp_gets {A} P (f : FS F → A) :
  (∀ fs fs', P fs fs' → f fs = f fs') → resp P P (gets f).
Proof. intros Hf fs fs' HP. unfold gets. simpl. by rewrite (Hf fs fs'). Qed.

Lemma resp_bind {A B} P Q T (m : M _ _ A) (k : A → M _ _ B) :
  (∀ fs fs', Q fs fs' → T fs fs') →
  resp P Q m → (∀ a, resp Q T (k a)) → resp P T (bind m k).
Proof.
  intros HQT Hm Hk fs fs' HP. unfold bind.
  destruct (Hm fs fs' HP) as (Hev & Hout & HQ).
  rewrite <-Hout, <-Hev. destruct (outcome (m fs)) as [a|e|]; simpl; auto.
  destruct (Hk a _ _ HQ) as (Hev' & Hout' & HT). by rewrite Hev', Hout'.
Qed.

Lemma resp_try {A} P Q T (m : M _ _ A) (h : Exn → M _ _ A) :
  (∀ fs fs', Q fs fs' → T fs fs') →
  resp P Q m → (∀ e, resp Q T (h e)) → resp P T (try_except m h).
Proof.
  intros HQT Hm Hh fs fs' HP. unfold try_except.
  destruct (Hm fs fs' HP) as (Hev & Hout & HQ).
  rewrite <-Hout. destruct (outcome (m fs)) as [a|e|] eqn:E; simpl.
  - rewrite <-Hout, E. auto.
  - destruct (Hh e _ _ HQ) as (Hev' & Hout' & HT). by rewrite Hev, Hev', Hout'.
  - rewrite <-Hout, E. auto.
Qed.

Lemma resp_for_acc {A B} P (l : list A) (body : A → B → M _ _ B) :
  (∀ a b, resp P P (body a b)) → ∀ b, resp P P (for_acc l body b).
Proof.
  intros Hb. induction l as [|a l IH]; intros b; simpl.
  - apply resp_ret.
  - eapply resp_bind; [|apply Hb|apply IH]. auto.
Qed.

Lemma resp_mio P Q ev (op : FS F → option (FS F)) e :
  (∀ fs fs', P fs fs' →
     match op fs, op fs' with
     | Some fs1, Some fs1' => Q fs1 fs1'
     | None, None => Q fs fs'
     | _, _ => False
     end) →
  resp P Q (mio ev op e).
Proof.
  intros Hop fs fs' HP. specialize (Hop fs fs' HP). unfold mio.
  by destruct (op fs), (op fs').
Qed.

Lemma same_dir_store_dir fs fs' : same_dir_store fs fs' → same_dir fs fs'.
Proof. by intros []. Qed.

Lemma resp_lookup_chunk P name :
  (∀ fs fs', P fs fs' → same_dir fs fs') → resp P P (gets (lookup_chunk name)).
Proof.
  intros HP. apply resp_gets. intros fs fs' H%HP. unfold lookup_chunk.
  by rewrite H.
Qed.

Lemma resp_probe_csv P name :
  (∀ fs fs', P fs fs' → same_dir fs fs') → resp P P (probe_csv name).
Proof.
  intros HP. eapply resp_bind; [done|by apply resp_lookup_chunk|].
  intros [[]|]; apply resp_ret || apply resp_raise.
Qed.

Lemma resp_read_csv P name :
  (∀ fs fs', P fs fs' → same_dir fs fs') → resp P P (read_csv name).
Proof.
  intros HP. eapply resp_bind; [done|by apply resp_lookup_chunk|].
  intros [[]|]; apply resp_ret || apply resp_raise.
Qed.

Lemma resp_validate_chunk_file P name :
  (∀ fs fs', P fs fs' → same_dir fs fs') → resp P P (validate_chunk_file name).
Proof.
  intros HP. eapply resp_try; [done| |].
  - eapply resp_bind; [done|by apply resp_probe_csv|]. intros. apply resp_ret.
  - intros e. eapply resp_bind; [done|apply resp_log|]. intros. apply resp_ret.
Qed.

Lemma resp_shutil_move_dir env name : resp same_dir same_dir (shutil_move env name).
Proof.
  unfold shutil_move. destruct (mv_fails env name); [apply resp_raise|].
  apply resp_mio. intros fs fs' E. unfold quarantine, same_dir in *. rewrite <-E.
  destruct (chunks_dir fs) as [d|]; simpl; [|done].
  destruct (chunk_files d !! name); simpl; [|done].
  by destruct (corrupted d).
Qed.

Lemma resp_shutil_move_store env name :
  resp same_dir_store same_dir_store (shutil_move env name).
Proof.
  unfold shutil_move. destruct (mv_fails env name); [apply resp_raise|].
  apply resp_mio. intros fs fs' [E1 E2]. unfold quarantine, same_dir_store in *.
  rewrite <-E1.
  destruct (chunks_dir fs) as [d|]; simpl; [|done].
  destruct (chunk_files d !! name); simpl; [|done].
  by destruct (corrupted d).
Qed.

Lemma resp_validate_chunks env chunks :
  resp same_dir same_dir (validate_chunks env chunks).
Proof.
  unfold validate_chunks. apply resp_for_acc. intros [i chunk] valid.
  unfold validate_body. simpl.
  eapply resp_bind; [done|by apply resp_validate_chunk_file|]. intros ok.
  eapply resp_bind; [done| |].
  - destruct ok; [apply resp_ret|].
    eapply resp_bind; [done| |intros; apply resp_ret].
    eapply resp_try; [done|apply resp_shutil_move_dir|intros; apply resp_log].
  - intros v. eapply resp_bind; [done| |intros; apply resp_ret].
    destruct (_ =? _); [apply resp_log|apply resp_ret].
Qed.

Lemma resp_hdf_append env name df :
  resp same_dir_store same_dir_store (hdf_append env name df).
Proof.
  unfold hdf_append. destruct (append_fails env name); [apply resp_raise|].
  apply resp_mio. intros fs fs' [E1 E2]. rewrite <-E2.
  destruct (final_h5 fs) eqn:Eh; simpl; split; simpl; congruence.
Qed.

Lemma resp_merge_valid env valid :
  resp same_dir_store same_dir_store (merge_valid env valid).
Proof.
  unfold merge_valid. apply resp_for_acc. intros [i chunk] total.
  unfold merge_body. simpl.
  eapply resp_try; [done| |].
  - eapply resp_bind; [done|apply resp_read_csv, same_dir_store_dir|]. intros df.
    eapply resp_bind; [done|apply resp_hdf_append|]. intros _.
    eapply resp_bind; [done|apply resp_log|]. intros. apply resp_ret.
  - intros e. eapply resp_bind; [done|apply resp_log|]. intros _.
    eapply resp_bind; [done| |intros; apply resp_ret].
    eapply resp_try; [done|apply resp_shutil_move_store|intros; apply resp_log].
Qed.

Lemma resp_verify env total :
  resp same_dir_store same_dir_store (verify env total).
Proof.
  unfold verify. eapply resp_bind; [done|apply resp_log|]. intros _.
  eapply resp_try; [done| |].
  - eapply resp_bind; [done| |].
    + unfold hdf_nrows. eapply resp_bind; [done| |].
      * apply resp_gets. by intros fs fs' [_ E].
      * intros file. destruct (file ≫= _); apply resp_ret || apply resp_raise.
    + intros n. destruct (_ =? _);
        (eapply resp_bind; [done|apply resp_log|intros; apply resp_ret]).
  - intros e. eapply resp_bind; [done|apply resp_log|intros; apply resp_ret].
Qed.

Lemma resp_cleanup env ok :
  resp same_dir_store same_dir_store (cleanup env ok).
Proof.
  unfold cleanup. destruct ok; [|apply resp_log].
  eapply resp_try; [done| |].
  - eapply resp_bind; [done| |].
    + apply resp_gets. intros fs fs' [E _]. by rewrite E.
    + intros []; [|apply resp_ret].
      eapply resp_bind; [done| |intros; apply resp_log].
      unfold rmtree. destruct (rmtree_fails env).
      { eapply resp_bind; [done| |intros; apply resp_raise].
        intros fs1 fs1' [E1 E2]. unfold modify. cbn.
        split_and!; [done..|]. split; cbn; [by rewrite E1|done]. }
      apply resp_mio. intros fs fs' [E1 E2]. by split.
  - intros e. eapply resp_bind; [done|apply resp_log|intros; apply resp_log].
Qed.

(** [merge_chunks] looks at the chunk directory alone: what it does is the
    same whatever final artifacts are there before. *)
Lemma resp_merge_chunks env year : resp same_dir same_dir (merge_chunks env year).
Proof.
  unfold merge_chunks.
  eapply resp_try; [done| |].
  2: { intros e. eapply resp_bind; [done|apply resp_log|intros _].
       eapply resp_bind; [done|apply resp_log|intros; apply resp_raise]. }
  eapply resp_bind; [done|apply resp_log|]. intros _.
  eapply resp_bind; [done| |].
  { apply resp_mio. intros fs fs' E. unfold in_chunks_dir, same_dir in *.
    rewrite <-E. by destruct (chunks_dir fs). }
  intros _. eapply resp_bind; [done| |].
  { apply resp_gets. intros fs fs' E. unfold same_dir in E. by rewrite E. }
  intros chunks. destruct (_ =? _)%nat; [apply resp_log|].
  eapply resp_bind; [done|apply resp_log|]. intros _.
  eapply resp_bind; [done|apply resp_log|]. intros _.
  eapply resp_bind; [done|apply resp_validate_chunks|]. intros valid.
  eapply resp_bind; [done|apply resp_log|]. intros _.
  eapply (resp_bind _ same_dir_store); [apply same_dir_store_dir| |].
  { apply resp_mio. intros fs fs' E. by split. }
  intros _. apply (resp_weaken _ same_dir_store); [apply same_dir_store_dir|].
  eapply resp_bind; [done|apply resp_merge_valid|]. intros total.
  eapply resp_bind; [done| |].
  { apply resp_mio. intros fs fs' [E1 E2]. rewrite <-E2.
    destruct (final_h5 fs) as [s|] eqn:Eh; simpl; [|split; congruence].
    destruct (data s); simpl; split; simpl; congruence. }
  intros _. eapply resp_bind; [done|apply resp_verify|]. intros ok.
  eapply resp_bind; [done|apply resp_cleanup|]. intros _.
  eapply resp_bind; [done|apply resp_log|]. intros _. apply resp_log.
Qed.

End Respect.

Section FinalArtifact.
Context {F : Type} `{FloatLe F}.

(** C1, as amended. If the final artifact [cdl_california_<year>.csv.gz]
    exists, [process] returns at once: one log line, no window read, no
    chunk or checkpoint written, all state unchanged.  [merge_chunks] makes
    no such check: its events, its outcome and what it leaves of the chunk
    directory are the same whatever final artifacts exist beforehand. *)
Theorem final_artifact_skips_the_scan_only
    (self : Processor F) (st : Scan F) (env : Env F) (fs : FS F)
    (csv : bool) (h5 : option (Store F)) :
  final_csv (disk st) = true →
  process self st = mkRun [EvLog MsgAlreadyProcessed] st (Ok tt) ∧
  let r := merge_chunks env (year self) fs in
  let r' := merge_chunks env (year self) (with_finals csv h5 fs) in
  events r' = events r ∧ outcome r' = outcome r ∧
  chunks_dir (final r') = chunks_dir (final r).
Proof.
  intros Hcsv. split.
  - unfold process, bind, gets, log, emit. simpl. by rewrite Hcsv.
  - intros r r'.
    destruct (resp_merge_chunks env (year self) (with_finals csv h5 fs) fs)
      as (? & ? & ?); done.
Qed.
End FinalArtifact.



(** ** The merge (C6, C7) *)

Section MergeLoops.
Context {F : Type}.
Implicit Types (fs : FS F) (d : ChunksDir F) (env : Env F).

Lemma quarantine_run fs d name c q :
  chunks_dir fs = Some d → chunk_files d !! name = Some c → corrupted d = Some q →
  quarantine name fs = Some (set_chunks_dir (Some (quarantine_of d name)) fs).
Proof.
  intros Hd Hc Hq. unfold quarantine, quarantine_of. rewrite Hd. simpl.
  rewrite Hc. simpl. by rewrite Hq.
Qed.

Lemma validate_chunk_file_run fs d name c :
  chunks_dir fs = Some d → chunk_files d !! name = Some c →
  validate_chunk_file name fs =
  mkRun (if probe_passes (Some c) then []
         else [EvLog (MsgCorruptFound name (raised_on c))])
        fs (Ok (probe_passes (Some c))).
Proof.
  intros Hd Hc.
  unfold validate_chunk_file, probe_csv, try_except, bind, gets, lookup_chunk,
    log, emit, ret, raise.
  cbn [outcome final events]. rewrite Hd. cbn [mbind option_bind]. rewrite Hc.
  by destruct c.
Qed.

Lemma shutil_move_run env fs d name c q :
  chunks_dir fs = Some d → chunk_files d !! name = Some c → corrupted d = Some q →
  shutil_move env name fs =
  if mv_fails env name then mkRun [] fs (Raised OSError)
  else mkRun [EvMove name] (set_chunks_dir (Some (quarantine_of d name)) fs) (Ok tt).
Proof.
  intros Hd Hc Hq. unfold shutil_move, mio, raise.
  destruct (mv_fails env name); [done|].
  by rewrite (quarantine_run fs d name c q).
Qed.

Lemma try_move_run env fs d name c q (h : Exn → Msg) :
  chunks_dir fs = Some d → chunk_files d !! name = Some c → corrupted d = Some q →
  try_except (shutil_move env name) (λ e, log (h e)) fs =
  mkRun (if mv_fails env name then [EvLog (h OSError)] else [EvMove name])
        (if mv_fails env name then fs
         else set_chunks_dir (Some (quarantine_of d name)) fs)
        (Ok tt).
Proof.
  intros Hd Hc Hq. unfold try_except.
  rewrite (shutil_move_run env fs d name c q Hd Hc Hq).
  by destruct (mv_fails env name).
Qed.

Lemma when_log_run (b : bool) (m : Msg) fs :
  (if b then log m else ret tt : M (Event F) (FS F) unit) fs
  = mkRun (if b then [EvLog m] else []) fs (Ok tt).
Proof. by destruct b. Qed.

(** One turn of the validation loop. *)
Lemma validate_step env fs d q (total : nat) (i : Z) (name : string)
    (valid : list string) c :
  chunks_dir fs = Some d → corrupted d = Some q → chunk_files d !! name = Some c →
  validate_body env total (i, name) valid fs =
  mkRun (validate_events env total i name c)
    (if probe_passes (Some c) || mv_fails env name then fs
     else set_chunks_dir (Some (quarantine_of d name)) fs)
    (Ok (if probe_passes (Some c) then valid ++ [name] else valid)).
Proof.
  intros Hd Hq Hc. unfold validate_body, validate_events. cbn [fst snd].
  pose proof (validate_chunk_file_run fs d name c Hd Hc) as H1.
  destruct (probe_passes (Some c)); cbn [orb].
  - etransitivity.
    { eapply bind_ok_run; [exact H1|].
      eapply (bind_ok_run _ _ _ []); [reflexivity|].
      eapply bind_ok_run; [apply when_log_run|reflexivity]. }
    destruct (i mod 100 =? 0); reflexivity.
  - etransitivity.
    { eapply bind_ok_run; [exact H1|].
      eapply bind_ok_run.
      { eapply bind_ok_run; [|reflexivity].
        exact (try_move_run env fs d name c q (MsgMoveError name) Hd Hc Hq). }
      eapply bind_ok_run; [apply when_log_run|reflexivity]. }
    destruct (mv_fails env name), (i mod 100 =? 0); reflexivity.
Qed.

Lemma validate_events_spec env total i name c :
  Forall merging_event (validate_events env total i name c) ∧
  (EvMove name ∈ validate_events env total i name c ↔
     probe_passes (Some c) = false ∧ mv_fails env name = false) ∧
  (∀ n, n ≠ name → EvMove n ∉ validate_events env total i name c).
Proof.
  unfold validate_events.
  destruct (probe_passes (Some c)), (mv_fails env name), (i mod 100 =? 0);
    cbn [app]; split_and!;
    try (by repeat constructor);
    try (intros n Hn); rewrite ?elem_of_cons, ?elem_of_nil;
    try (split; [intros Hx; repeat destruct Hx as [Hx|Hx]; done|intros [? ?]; done]);
    try (split; [done|]; intros _; right; by left);
    try (intros Hx; repeat destruct Hx as [Hx|Hx]; congruence).
Qed.
End MergeLoops.



Section MergeLoops2.
Context {F : Type}.
Implicit Types (fs : FS F) (d : ChunksDir F) (env : Env F).

Lemma quarantine_of_lookup_ne d name n :
  n ≠ name → chunk_files (quarantine_of d name) !! n = chunk_files d !! n.
Proof.
  intros Hn. unfold quarantine_of.
  destruct (chunk_files d !! name), (corrupted d); simpl; try done.
  by rewrite lookup_delete_ne.
Qed.

Lemma quarantine_of_corrupted d name :
  is_Some (corrupted d) → is_Some (corrupted (quarantine_of d name)).
Proof.
  intros [q Hq]. unfold quarantine_of. rewrite Hq.
  destruct (chunk_files d !! name); simpl; eauto.
Qed.

Lemma quarantine_of_progress d name :
  progress_json (quarantine_of d name) = progress_json d.
Proof.
  unfold quarantine_of. by destruct (chunk_files d !! name), (corrupted d).
Qed.

Lemma validate_loop env (total : nat) (l : list string) :
  ∀ (idx : list Z) fs d (valid : list string),
  length idx = length l →
  chunks_dir fs = Some d → is_Some (corrupted d) → NoDup l →
  (∀ n, n ∈ l → is_Some (chunk_files d !! n)) →
  ∃ evs,
    Forall merging_event evs ∧
    (∀ n, EvMove n ∈ evs ↔ n ∈ unreadable_moved env d l) ∧
    for_acc (zip idx l) (validate_body env total) valid fs =
    mkRun evs
      (set_chunks_dir (Some (quarantine_all (unreadable_moved env d l) d)) fs)
      (Ok (valid ++ probe_passing d l)).
Proof.
  induction l as [|name l IH]; intros idx fs d valid Hlen Hd Hq Hnd Hpres.
  - destruct idx; [|done]. simpl. exists []. split_and!; [done|set_solver|].
    unfold ret, probe_passing, unreadable_moved, quarantine_all. simpl.
    rewrite app_nil_r. f_equal. destruct fs; simpl in *. by subst.
  - destruct idx as [|i idx]; [done|]. simpl in Hlen.
    apply NoDup_cons in Hnd as [Hnotin Hnd].
    destruct (Hpres name ltac:(by left)) as [c Hc]. destruct Hq as [q Hq].
    pose proof (validate_step env fs d q total i name valid c Hd Hq Hc) as Hrun1.
    destruct (validate_events_spec env total i name c) as (Hev1 & Hmv1 & Hoth1).
    set (evs1 := validate_events env total i name c) in *.
    change (zip (i :: idx) (name :: l)) with ((i, name) :: zip idx l).
    cbn [for_acc]. erewrite bind_ok; [|exact Hrun1].
    set (d1 := if probe_passes (Some c) || mv_fails env name then d
               else quarantine_of d name).
    set (fs1 := if probe_passes (Some c) || mv_fails env name then fs
                else set_chunks_dir (Some (quarantine_of d name)) fs).
    assert (Hd1 : chunks_dir fs1 = Some d1)
      by (unfold fs1, d1; by destruct (_ || _)).
    assert (Hlook : ∀ n, n ∈ l → chunk_files d1 !! n = chunk_files d !! n).
    { intros n Hn. unfold d1. destruct (_ || _); [done|].
      apply quarantine_of_lookup_ne. by intros ->. }
    destruct (IH idx fs1 d1 (if probe_passes (Some c) then valid ++ [name] else valid))
      as (evs2 & Hev2 & Hmv2 & Hrun2).
    { lia. } { done. }
    { unfold d1. destruct (_ || _); eauto using quarantine_of_corrupted. }
    { done. }
    { intros n Hn. rewrite Hlook by done. apply Hpres. by right. }
    fold fs1. rewrite Hrun2. cbn [events final outcome].
    assert (Hum : unreadable_moved env d1 l = unreadable_moved env d l).
    { apply filter_ext_in. intros n Hn. by rewrite Hlook. }
    assert (Hpp : probe_passing d1 l = probe_passing d l).
    { apply filter_ext_in. intros n Hn. by rewrite Hlook. }
    rewrite Hum, Hpp in *.
    exists (evs1 ++ evs2). split_and!.
    + by apply Forall_app.
    + intros n. rewrite elem_of_app, Hmv2. unfold unreadable_moved.
      rewrite filter_cons, Hc.
      destruct (decide (probe_passes (Some c) = false ∧ mv_fails env name = false))
        as [Hm|Hm]; [rewrite elem_of_cons|];
        (destruct (decide (n = name)) as [->|Hne]; [rewrite Hmv1|]).
      * split; intros _; by left.
      * split; [intros [H1|H2]; [by apply Hoth1 in H1|by right]|].
        intros [?|?]; [done|by right].
      * split; [intros [?|Hin]; [done|]|intros Hin; by right].
        by apply list_elem_of_filter in Hin as [_ ?].
      * split; [intros [H1|?]; [by apply Hoth1 in H1|done]|intros ?; by right].
    + f_equal.
      * unfold fs1, d1, unreadable_moved. rewrite filter_cons, Hc.
        destruct (decide (probe_passes (Some c) = false ∧ mv_fails env name = false))
          as [[Hp Hm]|Hn].
        -- rewrite Hp, Hm. simpl. by destruct fs.
        -- destruct (probe_passes (Some c)), (mv_fails env name); try done.
           by destruct Hn.
      * f_equal. unfold probe_passing. rewrite filter_cons, Hc.
        destruct (decide (probe_passes (Some c) = true)) as [Hp|Hp].
        -- rewrite Hp. by rewrite <-app_assoc.
        -- by destruct (probe_passes (Some c)).
Qed.
End MergeLoops2.



Section MergeLoops3.
Context {F : Type}.
Implicit Types (fs : FS F) (d : ChunksDir F) (env : Env F) (s : Store F).

Lemma store_append_nil s : store_append [] s = s.
Proof. done. Qed.

Lemma store_append_app (a b : list (Row F)) s :
  store_append (a ++ b) s = store_append b (store_append a s).
Proof.
  destruct a as [|x a]; [done|]. destruct b as [|y b].
  - by rewrite app_nil_r.
  - simpl. by rewrite <-app_assoc.
Qed.

Lemma read_csv_run fs d name c :
  chunks_dir fs = Some d → chunk_files d !! name = Some c →
  read_csv name fs =
  mkRun [] fs (match c with CsvGz rows => Ok rows | _ => Raised (raised_on c) end).
Proof.
  intros Hd Hc. unfold read_csv, bind, gets, lookup_chunk, ret, raise.
  cbn [outcome final events]. rewrite Hd. cbn [mbind option_bind]. rewrite Hc.
  by destruct c.
Qed.

Lemma hdf_append_run env fs s name (df : list (Row F)) :
  final_h5 fs = Some s →
  hdf_append env name df fs =
  if append_fails env name then mkRun [] fs (Raised ValueError)
  else mkRun [EvHdfAppend name (length df)]
             (set_final_h5 (Some (store_append df s)) fs) (Ok tt).
Proof.
  intros Hs. unfold hdf_append, mio, raise.
  destruct (append_fails env name); [done|]. by rewrite Hs.
Qed.

(** One turn of the merging loop. *)
Lemma merge_step env fs d q s (tv : nat) (i : Z) (name : string) (total : Z) c :
  chunks_dir fs = Some d → corrupted d = Some q → final_h5 fs = Some s →
  chunk_files d !! name = Some c →
  merge_body env tv (i, name) total fs =
  mkRun (merge_events env tv i name total c)
    (mkFS (final_csv fs) (Some (store_append (rows_of env name c) s)) (source_tif fs)
       (Some (if good_file env name c || mv_fails env name then d
              else quarantine_of d name)))
    (Ok (total + Z.of_nat (length (rows_of env name c)))).
Proof.
  intros Hd Hq Hs Hc. unfold merge_body, merge_events. cbn [fst snd].
  pose proof (read_csv_run fs d name c Hd Hc) as Hread.
  pose proof (try_move_run env fs d name c q (λ e, MsgMoveErrorMerging e) Hd Hc Hq) as Hmove.
  assert (Hfs : fs = mkFS (final_csv fs) (Some s) (source_tif fs) (Some d))
    by (destruct fs; simpl in *; by subst).
  destruct c as [rows| |]; cbn [good_file rows_of length].
  - pose proof (hdf_append_run env fs s name rows Hs) as Happ.
    destruct (append_fails env name); cbn [negb orb length].
    + etransitivity.
      { eapply try_raised.
        - eapply bind_ok_run; [exact Hread|]. eapply bind_raised. exact Happ.
        - eapply (bind_ok_run _ _ _ [_]); [reflexivity|].
          eapply bind_ok_run; [exact Hmove|reflexivity]. }
      rewrite Z.add_0_r. destruct (mv_fails env name); [by rewrite Hfs at 1|].
      cbn [app]. f_equal. rewrite Hfs at 1. reflexivity.
    + etransitivity.
      { eapply try_ok. eapply bind_ok_run; [exact Hread|].
        eapply bind_ok_run; [exact Happ|].
        eapply (bind_ok_run _ _ _ [_]); [reflexivity|reflexivity]. }
      cbn [app]. f_equal. rewrite Hfs at 1. reflexivity.
  - etransitivity.
    { eapply try_raised; [eapply bind_raised; exact Hread|].
      eapply (bind_ok_run _ _ _ [_]); [reflexivity|].
      eapply bind_ok_run; [exact Hmove|reflexivity]. }
    rewrite Z.add_0_r. destruct (mv_fails env name); [by rewrite Hfs at 1|].
    cbn [app]. f_equal. rewrite Hfs at 1. reflexivity.
  - etransitivity.
    { eapply try_raised; [eapply bind_raised; exact Hread|].
      eapply (bind_ok_run _ _ _ [_]); [reflexivity|].
      eapply bind_ok_run; [exact Hmove|reflexivity]. }
    rewrite Z.add_0_r. destruct (mv_fails env name); [by rewrite Hfs at 1|].
    cbn [app]. f_equal. rewrite Hfs at 1. reflexivity.
Qed.

Lemma merge_events_spec env tv i name total c :
  Forall merging_event (merge_events env tv i name total c) ∧
  (EvMove name ∈ merge_events env tv i name total c ↔
     good_file env name c = false ∧ mv_fails env name = false) ∧
  (∀ n, n ≠ name → EvMove n ∉ merge_events env tv i name total c).
Proof.
  unfold merge_events.
  destruct (good_file env name c), (mv_fails env name);
    split_and!;
    try (by repeat constructor);
    try (intros n Hn); rewrite ?elem_of_cons, ?elem_of_nil;
    try (split; [intros Hx; repeat destruct Hx as [Hx|Hx]; done|intros [? ?]; done]);
    try (split; [done|]; intros _; right; by left);
    try (intros Hx; repeat destruct Hx as [Hx|Hx]; congruence).
Qed.

Lemma good_rows_cons env d name l :
  good_rows env d (name :: l) =
  match chunk_files d !! name with
  | Some c => rows_of env name c
  | None => []
  end ++ good_rows env d l.
Proof.
  unfold good_rows. csimpl. f_equal; by destruct (chunk_files d !! name) as [[]|].
Qed.

Lemma good_rows_ext env d d' l :
  (∀ n, n ∈ l → chunk_files d' !! n = chunk_files d !! n) →
  good_rows env d' l = good_rows env d l.
Proof.
  induction l as [|a l IH]; intros E; [done|].
  rewrite !good_rows_cons, E by (by left). f_equal.
  apply IH. intros n Hn. apply E. by right.
Qed.

Lemma is_good_file env d name c :
  chunk_files d !! name = Some c → is_good env d name = good_file env name c.
Proof. intros Hc. unfold is_good. by rewrite Hc. Qed.

Lemma merge_loop env (tv : nat) (l : list string) :
  ∀ (idx : list Z) fs d s (total : Z),
  length idx = length l →
  chunks_dir fs = Some d → is_Some (corrupted d) → final_h5 fs = Some s →
  NoDup l → (∀ n, n ∈ l → is_Some (chunk_files d !! n)) →
  ∃ evs,
    Forall merging_event evs ∧
    (∀ n, EvMove n ∈ evs ↔ n ∈ bad_moved env d l) ∧
    for_acc (zip idx l) (merge_body env tv) total fs =
    mkRun evs
      (mkFS (final_csv fs) (Some (store_append (good_rows env d l) s)) (source_tif fs)
         (Some (quarantine_all (bad_moved env d l) d)))
      (Ok (total + Z.of_nat (length (good_rows env d l)))).
Proof.
  induction l as [|name l IH]; intros idx fs d s total Hlen Hd Hq Hs Hnd Hpres.
  - destruct idx; [|done]. simpl. exists []. split_and!; [done|set_solver|].
    unfold ret, bad_moved, quarantine_all. simpl.
    rewrite Z.add_0_r. f_equal. destruct fs; simpl in *. by subst.
  - destruct idx as [|i idx]; [done|]. simpl in Hlen.
    apply NoDup_cons in Hnd as [Hnotin Hnd].
    destruct (Hpres name ltac:(by left)) as [c Hc]. destruct Hq as [q Hq].
    pose proof (merge_step env fs d q s tv i name total c Hd Hq Hs Hc) as Hrun1.
    destruct (merge_events_spec env tv i name total c) as (Hev1 & Hmv1 & Hoth1).
    set (evs1 := merge_events env tv i name total c) in *.
    change (zip (i :: idx) (name :: l)) with ((i, name) :: zip idx l).
    cbn [for_acc]. erewrite bind_ok; [|exact Hrun1].
    set (d1 := if good_file env name c || mv_fails env name then d
               else quarantine_of d name) in *.
    set (fs1 := mkFS (final_csv fs) (Some (store_append (rows_of env name c) s))
                     (source_tif fs) (Some d1)) in *.
    assert (Hlook : ∀ n, n ∈ l → chunk_files d1 !! n = chunk_files d !! n).
    { intros n Hn. unfold d1. destruct (_ || _); [done|].
      apply quarantine_of_lookup_ne. by intros ->. }
    destruct (IH idx fs1 d1 (store_append (rows_of env name c) s)
                (total + Z.of_nat (length (rows_of env name c))))
      as (evs2 & Hev2 & Hmv2 & Hrun2).
    { lia. } { done. }
    { unfold d1. destruct (_ || _); eauto using quarantine_of_corrupted. }
    { done. } { done. }
    { intros n Hn. rewrite Hlook by done. apply Hpres. by right. }
    rewrite Hrun2. cbn [events final outcome final_csv source_tif].
    assert (Hbm : bad_moved env d1 l = bad_moved env d l).
    { apply filter_ext_in. intros n Hn. unfold is_good. by rewrite Hlook. }
    rewrite Hbm, (good_rows_ext env d d1 l Hlook) in *.
    rewrite good_rows_cons, Hc.
    exists (evs1 ++ evs2). split_and!.
    + by apply Forall_app.
    + intros n. rewrite elem_of_app, Hmv2. unfold bad_moved.
      rewrite filter_cons, (is_good_file env d name c Hc).
      destruct (decide (good_file env name c = false ∧ mv_fails env name = false))
        as [Hm|Hm]; [rewrite elem_of_cons|];
        (destruct (decide (n = name)) as [->|Hne]; [rewrite Hmv1|]).
      * split; intros _; by left.
      * split; [intros [H1|H2]; [by apply Hoth1 in H1|by right]|].
        intros [?|?]; [done|by right].
      * split; [intros [?|Hin]; [done|]|intros Hin; by right].
        by apply list_elem_of_filter in Hin as [_ ?].
      * split; [intros [H1|?]; [by apply Hoth1 in H1|done]|intros ?; by right].
    + f_equal.
      * f_equal; [by rewrite store_append_app|]. f_equal.
        unfold d1, bad_moved. rewrite filter_cons, (is_good_file env d name c Hc).
        destruct (decide (good_file env name c = false ∧ mv_fails env name = false))
          as [[Hp Hm]|Hn].
        -- by rewrite Hp, Hm.
        -- destruct (good_file env name c), (mv_fails env name); try done.
           by destruct Hn.
      * f_equal. rewrite length_app. lia.
Qed.
End MergeLoops3.



Section MergeRun.
Context {F : Type}.
Implicit Types (fs : FS F) (d : ChunksDir F) (env : Env F) (s : Store F).

Lemma listing_NoDup d : NoDup (listing d).
Proof.
  unfold listing, Py.sorted. rewrite merge_sort_Permutation.
  apply NoDup_filter, NoDup_fst_map_to_list.
Qed.

Lemma listing_present d n : n ∈ listing d → is_Some (chunk_files d !! n).
Proof.
  unfold listing, Py.sorted. rewrite merge_sort_Permutation.
  intros [_ Hn]%list_elem_of_filter.
  apply list_elem_of_fmap in Hn as ([k c] & -> & Hkc).
  apply elem_of_map_to_list in Hkc. simpl. eauto.
Qed.

(** A present file that matches the pattern is listed. *)
Lemma listing_complete d n :
  is_Some (chunk_files d !! n) → matches_glob n = true → n ∈ listing d.
Proof.
  intros [c Hc] Hm. unfold listing, Py.sorted. rewrite merge_sort_Permutation.
  apply list_elem_of_filter. split; [by rewrite Hm|].
  apply list_elem_of_fmap. exists (n, c). split; [done|].
  by apply elem_of_map_to_list.
Qed.

Lemma enumerate1_zip {A} (l : list A) :
  ∃ idx : list Z, length idx = length l ∧ Py.enumerate1 l = zip idx l.
Proof.
  eexists. split; [|reflexivity]. by rewrite length_fmap, length_seq.
Qed.

Lemma quarantine_all_spec (ns : list string) : ∀ d q,
  corrupted d = Some q → NoDup ns →
  (∀ n, n ∈ ns → is_Some (chunk_files d !! n)) →
  ∃ q', corrupted (quarantine_all ns d) = Some q' ∧
    progress_json (quarantine_all ns d) = progress_json d ∧
    ∀ n,
      (n ∈ ns → chunk_files (quarantine_all ns d) !! n = None ∧
                q' !! n = chunk_files d !! n) ∧
      (n ∉ ns → chunk_files (quarantine_all ns d) !! n = chunk_files d !! n ∧
                q' !! n = q !! n).
Proof.
  induction ns as [|a ns IH]; intros d q Hq Hnd Hpres.
  - exists q. split_and!; [done..|]. intros n. split; [by intros ?%elem_of_nil|done].
  - apply NoDup_cons in Hnd as [Ha Hnd].
    destruct (Hpres a ltac:(by left)) as [c Hc].
    unfold quarantine_all. simpl. fold (quarantine_all ns (quarantine_of d a)).
    assert (Hqa : quarantine_of d a =
      mkChunksDir (delete a (chunk_files d)) (progress_json d) (Some (<[a := c]> q)))
      by (unfold quarantine_of; by rewrite Hc, Hq).
    destruct (IH (quarantine_of d a) (<[a := c]> q)) as (q' & Hq' & Hp' & Hlook).
    { by rewrite Hqa. } { done. }
    { intros n Hn. rewrite Hqa. simpl. rewrite lookup_delete_ne by (by intros ->).
      apply Hpres. by right. }
    rewrite Hqa in *. simpl in Hp'.
    exists q'. split_and!; [done|done|].
    intros n. destruct (Hlook n) as [Hin Hout]. simpl in *.
    split.
    + intros [->|Hn]%elem_of_cons.
      * destruct (Hout Ha) as [H1 H2].
        by rewrite H1, H2, lookup_delete_eq, lookup_insert_eq.
      * destruct (Hin Hn) as [H1 H2]. split; [done|].
        rewrite H2. apply lookup_delete_ne. by intros ->.
    + intros Hn. apply not_elem_of_cons in Hn as [Hne Hn].
      destruct (Hout Hn) as [H1 H2].
      by rewrite H1, H2, lookup_delete_ne, lookup_insert_ne.
Qed.

Lemma quarantine_all_lookup_notin (ns : list string) d n :
  n ∉ ns → chunk_files (quarantine_all ns d) !! n = chunk_files d !! n.
Proof.
  revert d. induction ns as [|a ns IH]; intros d Hn; [done|].
  apply not_elem_of_cons in Hn as [Hne Hn].
  unfold quarantine_all. simpl. fold (quarantine_all ns (quarantine_of d a)).
  rewrite IH by done. by apply quarantine_of_lookup_ne.
Qed.

Lemma quarantine_all_corrupted (ns : list string) d :
  is_Some (corrupted d) → is_Some (corrupted (quarantine_all ns d)).
Proof.
  revert d. induction ns as [|a ns IH]; intros d Hq; [done|].
  unfold quarantine_all. simpl. apply IH. by apply quarantine_of_corrupted.
Qed.

Lemma good_rows_probe_passing env d l :
  good_rows env d (probe_passing d l) = good_rows env d l.
Proof.
  induction l as [|a l IH]; [done|].
  unfold probe_passing. rewrite filter_cons. fold (probe_passing d l).
  destruct (decide _) as [Hp|Hp].
  - by rewrite !good_rows_cons, IH.
  - rewrite good_rows_cons, IH.
    by destruct (chunk_files d !! a) as [[]|].
Qed.

Lemma hdf_nrows_run env fs :
  hdf_nrows env fs =
  mkRun [] fs (match final_h5 fs ≫= reopened_nrows env with
               | Some n => Ok n
               | None => Raised OSError
               end).
Proof.
  unfold hdf_nrows, bind, gets. cbn [outcome final events].
  by destruct (final_h5 fs ≫= reopened_nrows env).
Qed.

Lemma verify_run env (total : Z) fs :
  verify env total fs =
  mkRun (verify_events env total fs) fs (Ok (verifies env total fs)).
Proof.
  unfold verify, verify_events, verifies.
  pose proof (hdf_nrows_run env fs) as Hn.
  destruct (final_h5 fs ≫= reopened_nrows env) as [n|].
  - destruct (Z.eqb_spec n total) as [->|Hne].
    + rewrite bool_decide_eq_true_2 by done.
      eapply (bind_ok_run _ _ _ [_]); [reflexivity|].
      eapply try_ok. eapply (bind_ok_run _ _ _ []); [exact Hn|].
      rewrite Z.eqb_refl. reflexivity.
    + rewrite bool_decide_eq_false_2 by congruence.
      eapply (bind_ok_run _ _ _ [_]); [reflexivity|].
      eapply try_ok. eapply (bind_ok_run _ _ _ []); [exact Hn|].
      rewrite (proj2 (Z.eqb_neq n total)) by done. reflexivity.
  - rewrite bool_decide_eq_false_2 by done.
    eapply (bind_ok_run _ _ _ [_]); [reflexivity|].
    eapply (try_raised _ _ _ []); [|reflexivity].
    eapply bind_raised. exact Hn.
Qed.

Lemma cleanup_run env (ok : bool) fs d :
  chunks_dir fs = Some d →
  cleanup env ok fs =
  mkRun (cleanup_events env ok)
        (after_cleanup env ok fs)
        (Ok tt).
Proof.
  intros Hd. unfold cleanup, cleanup_events, after_cleanup. destruct ok; [|done].
  assert (Hex : bool_decide (is_Some (chunks_dir fs)) = true)
    by (rewrite Hd; apply bool_decide_eq_true_2; eauto).
  destruct (rmtree_fails env) eqn:Hrm; cbn [andb negb].
  - eapply (try_raised _ _ _ []); [|reflexivity].
    eapply (bind_ok_run _ _ _ []); [reflexivity|].
    cbn beta. rewrite Hex. eapply bind_raised.
    unfold rmtree. rewrite Hrm.
    eapply (bind_ok_run _ _ _ [] _ _ []); reflexivity.
  - eapply try_ok. eapply (bind_ok_run _ _ _ []); [reflexivity|].
    cbn beta. rewrite Hex. eapply (bind_ok_run _ _ _ [_]); [|reflexivity].
    unfold rmtree. rewrite Hrm. reflexivity.
Qed.

(** The verification and the cleanup, from any files with a chunk
    directory. *)
Lemma verify_cleanup_run env (total : Z) fs d :
  chunks_dir fs = Some d →
  let ok := verifies env total fs in
  bind (verify env total) (cleanup env) fs =
  mkRun (verify_events env total fs ++ cleanup_events env ok)
        (after_cleanup env ok fs)
        (Ok tt).
Proof.
  intros Hd ok. eapply bind_ok_run; [apply verify_run|by eapply cleanup_run].
Qed.

Lemma verify_cleanup_events env (total : Z) fs :
  let ok := verifies env total fs in
  let evs := verify_events env total fs ++ cleanup_events env ok in
  (EvRmtree ∈ evs ↔ ok = true ∧ rmtree_fails env = false) ∧
  (∀ n, EvLog (MsgVerified n) ∈ evs ↔ ok = true ∧ n = total) ∧
  EvLog MsgVerifying ∈ evs ∧
  (∀ n, EvMove n ∉ evs).
Proof.
  intros ok evs. unfold evs, ok, verify_events, cleanup_events, verifies.
  destruct (final_h5 fs ≫= reopened_nrows env) as [n|].
  - destruct (Z.eqb_spec n total) as [->|Hne].
    + rewrite bool_decide_eq_true_2 by done.
      destruct (rmtree_fails env); cbn [app]; split_and!;
        try (intros m); rewrite ?elem_of_cons, ?elem_of_nil;
        try (split; [intros Hx; repeat destruct Hx as [Hx|Hx]; try done; by simplify_eq
                    |intros [? ?]; subst; auto]);
        try (by left);
        try (intros Hx; repeat destruct Hx as [Hx|Hx]; done).
    + rewrite bool_decide_eq_false_2 by congruence.
      cbn [app]; split_and!;
        try (intros m); rewrite ?elem_of_cons, ?elem_of_nil;
        try (split; [intros Hx; repeat destruct Hx as [Hx|Hx]; done|intros [? ?]; done]);
        try (by left);
        try (intros Hx; repeat destruct Hx as [Hx|Hx]; done).
  - rewrite bool_decide_eq_false_2 by done.
    cbn [app]; split_and!;
      try (intros m); rewrite ?elem_of_cons, ?elem_of_nil;
      try (split; [intros Hx; repeat destruct Hx as [Hx|Hx]; done|intros [? ?]; done]);
      try (by left);
      try (intros Hx; repeat destruct Hx as [Hx|Hx]; done).
Qed.
End MergeRun.



Section MergeMaster.
Context {F : Type}.
Implicit Types (fs : FS F) (d : ChunksDir F) (env : Env F) (s : Store F).

Lemma with_corrupted_files d : chunk_files (with_corrupted d) = chunk_files d.
Proof. unfold with_corrupted. by destruct (corrupted d). Qed.

Lemma with_corrupted_progress d : progress_json (with_corrupted d) = progress_json d.
Proof. unfold with_corrupted. by destruct (corrupted d). Qed.

Lemma with_corrupted_is_Some d : is_Some (corrupted (with_corrupted d)).
Proof. unfold with_corrupted. destruct (corrupted d) eqn:E; simpl; eauto. Qed.

Lemma listing_with_corrupted d : listing (with_corrupted d) = listing d.
Proof. unfold listing. by rewrite with_corrupted_files. Qed.

Lemma moved_NoDup env d : NoDup (moved env d).
Proof.
  unfold moved. apply NoDup_app. split_and!.
  - apply NoDup_filter, listing_NoDup.
  - intros n [[Hp _] _]%list_elem_of_filter [_ [Hp' _]%list_elem_of_filter]%list_elem_of_filter.
    congruence.
  - do 2 apply NoDup_filter. apply listing_NoDup.
Qed.

Lemma moved_spec env d n :
  n ∈ moved env d ↔
  n ∈ listing d ∧ is_good env d n = false ∧ mv_fails env n = false.
Proof.
  unfold moved, unreadable_moved, bad_moved, probe_passing.
  rewrite elem_of_app, !list_elem_of_filter. split.
  - intros [[[Hp Hm] Hn]|[[Hg Hm] [Hp Hn]]]; [|done].
    split_and!; [done| |done]. unfold is_good.
    by destruct (chunk_files d !! n) as [[]|].
  - intros (Hn & Hg & Hm).
    destruct (probe_passes (chunk_files d !! n)) eqn:Hp; [by right|by left].
Qed.

(** What [merge_chunks] does on files with a chunk directory, up to the
    verification. *)
Lemma merge_chunks_run env (year : Z) fs d :
  chunks_dir fs = Some d →
  let rows := good_rows env d (listing d) in
  let d3 := quarantine_all (moved env d) (with_corrupted d) in
  let total := Z.of_nat (length rows) in
  let md := mkMetadata total year (now env)
                       (Z.of_nat (length (probe_passing d (listing d)))) in
  ∃ evs0,
    Forall merging_event evs0 ∧
    (∀ n, EvMove n ∈ evs0 ↔ n ∈ moved env d) ∧
    merge_chunks env year fs =
    if decide (listing d = []) then
      mkRun evs0 (set_chunks_dir (Some (with_corrupted d)) fs) (Ok tt)
    else if decide (rows = []) then
      mkRun evs0 (mkFS (final_csv fs) (Some (mkStore None None)) (source_tif fs) (Some d3))
            (Raised KeyError)
    else
      let fs3 := mkFS (final_csv fs) (Some (mkStore (Some rows) (Some md)))
                      (source_tif fs) (Some d3) in
      let ok := verifies env total fs3 in
      mkRun (evs0 ++ (verify_events env total fs3 ++ cleanup_events env ok) ++
             [EvLog (MsgSummary total); EvLog MsgCompleted])
            (after_cleanup env ok fs3)
            (Ok tt).
Proof.
  intros Hd rows d3 total md.
  set (d0 := with_corrupted d). set (fs0 := set_chunks_dir (Some d0) fs).
  set (chunks := listing d).
  assert (Hmk : mkdir_corrupted fs = mkRun [EvMkdirCorrupted] fs0 (Ok tt)).
  { unfold mkdir_corrupted, mio, in_chunks_dir. by rewrite Hd. }
  assert (Hglob : glob_chunks fs0 = mkRun [] fs0 (Ok chunks)).
  { unfold glob_chunks, gets. simpl. fold (listing d0).
    unfold d0. by rewrite listing_with_corrupted. }
  destruct (decide (chunks = [])) as [Hnil|Hnil].
  { exists [EvLog MsgMergeStart; EvMkdirCorrupted; EvLog MsgNoChunks].
    assert (Hmv : moved env d = []).
    { unfold moved. fold chunks. by rewrite Hnil. }
    split_and!.
    - by repeat constructor.
    - intros n. rewrite Hmv, !elem_of_cons, !elem_of_nil.
      split; [intros Hx; repeat destruct Hx as [Hx|Hx]; done|done].
    - unfold merge_chunks. eapply try_ok.
      eapply (bind_ok_run _ _ _ [_]); [reflexivity|].
      eapply (bind_ok_run _ _ _ [_]); [exact Hmk|].
      eapply (bind_ok_run _ _ _ []); [exact Hglob|].
      rewrite Hnil. reflexivity. }
  (* validation *)
  destruct (enumerate1_zip chunks) as (idx & Hidx & Henum).
  destruct (validate_loop env (length chunks) chunks idx fs0 d0 [])
    as (evs1 & Hev1 & Hmv1 & Hrun1);
    [done|done|apply with_corrupted_is_Some|apply listing_NoDup| |].
  { intros n Hn. unfold d0. rewrite with_corrupted_files. by apply listing_present. }
  simpl in Hrun1.
  assert (Hfiles0 : ∀ n, chunk_files d0 !! n = chunk_files d !! n)
    by (intros n; unfold d0; by rewrite with_corrupted_files).
  assert (HQ1 : unreadable_moved env d0 chunks = unreadable_moved env d chunks)
    by (apply filter_ext_in; intros n _; by rewrite Hfiles0).
  assert (Hvalid : probe_passing d0 chunks = probe_passing d chunks)
    by (apply filter_ext_in; intros n _; by rewrite Hfiles0).
  rewrite HQ1, Hvalid in *.
  set (Q1 := unreadable_moved env d chunks) in *.
  set (valid := probe_passing d chunks) in *.
  set (d1 := quarantine_all Q1 d0) in *.
  set (fs1 := set_chunks_dir (Some d1) fs0) in *.
  set (fs2 := set_final_h5 (Some (mkStore None None)) fs1).
  assert (Hvalid_notQ1 : ∀ n, n ∈ valid → n ∉ Q1).
  { intros n [Hp _]%list_elem_of_filter [[Hp' _] _]%list_elem_of_filter. congruence. }
  assert (Hfiles1 : ∀ n, n ∈ valid → chunk_files d1 !! n = chunk_files d !! n).
  { intros n Hn. unfold d1. rewrite quarantine_all_lookup_notin by auto. apply Hfiles0. }
  (* merging *)
  destruct (enumerate1_zip valid) as (idx2 & Hidx2 & Henum2).
  destruct (merge_loop env (length valid) valid idx2 fs2 d1 (mkStore None None) 0)
    as (evs2 & Hev2 & Hmv2 & Hrun2);
    [done|done|apply quarantine_all_corrupted, with_corrupted_is_Some|done
    |apply NoDup_filter, listing_NoDup| |].
  { intros n Hn. rewrite Hfiles1 by done.
    apply listing_present. by apply list_elem_of_filter in Hn as [_ ?]. }
  assert (HQ2 : bad_moved env d1 valid = bad_moved env d valid).
  { apply filter_ext_in. intros n Hn. unfold is_good. by rewrite Hfiles1. }
  assert (Hrows : good_rows env d1 valid = rows).
  { rewrite (good_rows_ext env d d1 valid Hfiles1). apply good_rows_probe_passing. }
  rewrite HQ2, Hrows in *. simpl in Hrun2.
  assert (Hd3 : quarantine_all (bad_moved env d valid) d1 = d3).
  { unfold d3, d1, moved, quarantine_all. by rewrite foldl_app. }
  rewrite Hd3 in Hrun2. fold total in Hrun2. rewrite Z.add_0_l in Hrun2.
  set (fs3' := mkFS (final_csv fs) (Some (store_append rows (mkStore None None)))
                    (source_tif fs) (Some d3)) in *.
  set (pre := [EvLog MsgMergeStart; EvMkdirCorrupted;
               EvLog (MsgFoundChunks (length chunks)); EvLog MsgValidating] ++ evs1 ++
              [EvLog (MsgFoundValid (length valid)); EvHdfCreate] ++ evs2).
  assert (Hpre_ev : Forall merging_event pre).
  { unfold pre. rewrite !Forall_app. split_and!; try done; by repeat constructor. }
  assert (Hpre_mv : ∀ n, EvMove n ∈ pre ↔ n ∈ moved env d).
  { intros n. unfold pre, moved. fold chunks Q1 valid.
    rewrite !elem_of_app, !elem_of_cons, !elem_of_nil, Hmv1, Hmv2. naive_solver. }
  (* the body up to the metadata *)
  pose (K := λ (valid_chunks : list string) (total_records : Z),
    hdf_set_metadata
      (mkMetadata total_records year (now env) (Z.of_nat (length valid_chunks))) >>
    let* verification_successful := verify env total_records in
    cleanup env verification_successful >>
    log (MsgSummary total_records) >>
    log MsgCompleted).
  assert (Hbody :
    (log MsgMergeStart >> mkdir_corrupted >>
     let* chunks := glob_chunks in
     let total_chunks := length chunks in
     if (total_chunks =? 0)%nat then log MsgNoChunks
     else
       log (MsgFoundChunks total_chunks) >> log MsgValidating >>
       let* valid_chunks := validate_chunks env chunks in
       let total_valid := length valid_chunks in
       log (MsgFoundValid total_valid) >> hdf_create >>
       let* total_records := merge_valid env valid_chunks in
       K valid_chunks total_records) fs =
    mkRun (pre ++ events (K valid total fs3')) (final (K valid total fs3'))
          (outcome (K valid total fs3'))).
  { etransitivity; [|unfold pre; rewrite <-!app_assoc; reflexivity].
    eapply (bind_ok_run _ _ _ [_]); [reflexivity|].
    eapply (bind_ok_run _ _ _ [_]); [exact Hmk|].
    eapply (bind_ok_run _ _ _ []); [exact Hglob|].
    cbn beta zeta.
    destruct (length chunks =? 0)%nat eqn:Hlen.
    { apply Nat.eqb_eq in Hlen. destruct chunks; done. }
    eapply (bind_ok_run _ _ _ [_]); [reflexivity|].
    eapply (bind_ok_run _ _ _ [_]); [reflexivity|].
    eapply bind_ok_run.
    { unfold validate_chunks. rewrite Henum. exact Hrun1. }
    eapply (bind_ok_run _ _ _ [_]); [reflexivity|].
    eapply (bind_ok_run _ _ _ [_]); [reflexivity|].
    eapply bind_ok_run.
    { unfold merge_valid. rewrite Henum2. exact Hrun2. }
    apply run_eta. }
  destruct (decide (rows = [])) as [Hrows0|Hrows0].
  - exists (pre ++ [EvLog (MsgCritical KeyError); EvLog (MsgTraceback KeyError)]).
    split_and!.
    + apply Forall_app. split; [done|by repeat constructor].
    + intros n. rewrite elem_of_app, Hpre_mv, !elem_of_cons, elem_of_nil.
      split; [intros [?|[?|[?|?]]]; done|by left].
    + assert (HK : K valid total fs3' = mkRun [] fs3' (Raised KeyError)).
      { unfold K. eapply bind_raised. unfold hdf_set_metadata, mio, fs3'. simpl.
        rewrite Hrows0. reflexivity. }
      rewrite HK in Hbody. cbn [events final outcome] in Hbody.
      rewrite app_nil_r in Hbody.
      unfold merge_chunks. eapply try_raised; [exact Hbody|].
      unfold fs3'. rewrite Hrows0. reflexivity.
  - set (fs3 := mkFS (final_csv fs) (Some (mkStore (Some rows) (Some md)))
                     (source_tif fs) (Some d3)).
    pose proof (verify_cleanup_run env total fs3 d3 eq_refl) as Hrunt.
    cbn zeta in Hrunt.
    exists (pre ++ [EvHdfMetadata]). split_and!.
    + apply Forall_app. split; [done|by repeat constructor].
    + intros n. rewrite elem_of_app, Hpre_mv, elem_of_cons, elem_of_nil.
      split; [intros [?|[?|?]]; [done|done|done]|by left].
    + cbn zeta. fold fs3.
      assert (Hmeta : hdf_set_metadata md fs3' = mkRun [EvHdfMetadata] fs3 (Ok tt)).
      { unfold hdf_set_metadata, mio, fs3', fs3. simpl.
        destruct rows; [done|]. reflexivity. }
      assert (Htail :
        (let* verification_successful := verify env total in
         cleanup env verification_successful >>
         log (MsgSummary total) >> log MsgCompleted) fs3 =
        mkRun ((verify_events env total fs3 ++
                cleanup_events env (verifies env total fs3)) ++
               [EvLog (MsgSummary total); EvLog MsgCompleted])
              (after_cleanup env (verifies env total fs3) fs3) (Ok tt)).
      { transitivity (bind (bind (verify env total) (cleanup env))
                       (λ _, log (MsgSummary total) >> log MsgCompleted) fs3).
        - symmetry. apply bind_assoc.
        - eapply bind_ok_run; [exact Hrunt|]. reflexivity. }
      assert (HK : K valid total fs3' =
        mkRun ([EvHdfMetadata] ++
               (verify_events env total fs3 ++
                cleanup_events env (verifies env total fs3)) ++
               [EvLog (MsgSummary total); EvLog MsgCompleted])
              (after_cleanup env (verifies env total fs3) fs3) (Ok tt)).
      { unfold K. eapply bind_ok_run; [exact Hmeta|exact Htail]. }
      rewrite HK in Hbody. cbn [events final outcome] in Hbody.
      unfold merge_chunks.
      etransitivity; [eapply try_ok; exact Hbody|].
      by rewrite <-!app_assoc.
Qed.
End MergeMaster.


Section MergeTheorems.
Context {F : Type}.
Implicit Types (fs : FS F) (d : ChunksDir F) (env : Env F) (s : Store F).




Lemma moved_quarantined env d :
  ∃ q, corrupted (quarantine_all (moved env d) (with_corrupted d)) = Some q ∧
    progress_json (quarantine_all (moved env d) (with_corrupted d)) = progress_json d ∧
    ∀ n,
      (n ∈ moved env d →
         chunk_files (quarantine_all (moved env d) (with_corrupted d)) !! n = None ∧
         q !! n = chunk_files d !! n) ∧
      (n ∉ moved env d →
         chunk_files (quarantine_all (moved env d) (with_corrupted d)) !! n =
         chunk_files d !! n).
Proof.
  destruct (with_corrupted_is_Some d) as [q0 Hq0].
  destruct (quarantine_all_spec (moved env d) (with_corrupted d) q0 Hq0)
    as (q & Hq & Hp & Hlook).
  { apply moved_NoDup. }
  { intros n [Hn _]%moved_spec. rewrite with_corrupted_files.
    by apply listing_present. }
  exists q. split_and!; [done|by rewrite Hp, with_corrupted_progress|].
  intros n. destruct (Hlook n) as [Hin Hout].
  rewrite with_corrupted_files in Hin, Hout. split; [done|].
  intros Hn. by destruct (Hout Hn).
Qed.


Lemma preserved_quarantine env d :
  preserved d (quarantine_all (moved env d) (with_corrupted d)).
Proof.
  destruct (moved_quarantined env d) as (q & Hq & Hp & Hlook).
  split; [done|]. intros n c Hc.
  destruct (decide (n ∈ moved env d)) as [Hn|Hn].
  - right. exists q. split; [done|].
    destruct (proj1 (Hlook n) Hn) as [_ ->]. done.
  - left. by rewrite (proj2 (Hlook n) Hn).
Qed.


(** C7, amended.  In a merge of the directory [d], the files moved to
    [corrupted] are those listed files that fail the probe, the full read
    or the append and whose move does not raise.  Unless the cleanup after
    a successful verification removes the chunk directory, each of them is
    then in [corrupted] and no longer among the chunk files; when
    [shutil.rmtree] raises in that cleanup, this holds of the directory as
    it was before the entries that [shutil.rmtree] removed were taken out.
    When at least one row was appended, the call returns, the store holds
    exactly the rows of the other files, each in full and in name order,
    and the total of records is their number. *)
Theorem unmerged_chunks_are_set_aside env (year : Z) fs d :
  chunks_dir fs = Some d →
  let r := merge_chunks env year fs in
  let rows := good_rows env d (listing d) in
  (∀ n, EvMove n ∈ events r ↔
     n ∈ listing d ∧ is_good env d n = false ∧ mv_fails env n = false) ∧
  (chunks_dir (final r) = None ∨
   ∃ d' q,
     (chunks_dir (final r) = Some d' ∨
      (verified env year d = true ∧ rmtree_fails env = true ∧
       chunks_dir (final r) = Some (rmtree_partial env d'))) ∧
     corrupted d' = Some q ∧
     ∀ n, n ∈ listing d → is_good env d n = false → mv_fails env n = false →
       chunk_files d' !! n = None ∧ q !! n = chunk_files d !! n) ∧
  (rows ≠ [] →
     outcome r = Ok tt ∧
     final_h5 (final r) = Some (merged_store env year d) ∧
     EvLog (MsgSummary (Z.of_nat (length rows))) ∈ events r).
Proof.
  intros Hd r rows.
  destruct (merge_chunks_run env year fs d Hd) as (evs0 & Hev0 & Hmv0 & Hrun).
  cbn zeta in Hrun. fold r rows in Hrun.
  destruct (moved_quarantined env d) as (q & Hq & _ & Hlook).
  assert (Hset : ∀ n, n ∈ listing d → is_good env d n = false → mv_fails env n = false →
    chunk_files (quarantine_all (moved env d) (with_corrupted d)) !! n = None ∧
    q !! n = chunk_files d !! n).
  { intros n H1 H2 H3. apply Hlook. by apply moved_spec. }
  destruct (decide (listing d = [])) as [Hl|Hl].
  { assert (Hm : moved env d = []) by (unfold moved; by rewrite Hl).
    rewrite Hrun. cbn [events final outcome]. split_and!.
    - intros n. by rewrite Hmv0, moved_spec.
    - right. rewrite Hm in *. exists (with_corrupted d), q.
      split_and!; [by left|done|done].
    - intros Hne. exfalso. apply Hne. unfold rows. by rewrite Hl. }
  destruct (decide (rows = [])) as [Hr|Hr].
  { rewrite Hrun. cbn [events final outcome]. split_and!.
    - intros n. by rewrite Hmv0, moved_spec.
    - right. eexists _, q. split_and!; [by left|done|done].
    - done. }
  set (total := Z.of_nat (length rows)) in *.
  set (fs3 := mkFS (final_csv fs) (Some (merged_store env year d)) (source_tif fs)
                (Some (quarantine_all (moved env d) (with_corrupted d)))).
  change (r = mkRun
    (evs0 ++ (verify_events env total fs3 ++
              cleanup_events env (verifies env total fs3)) ++
     [EvLog (MsgSummary total); EvLog MsgCompleted])
    (after_cleanup env (verifies env total fs3) fs3) (Ok tt)) in Hrun.
  destruct (verify_cleanup_events env total fs3) as (_ & _ & _ & Hnomv).
  cbn zeta in Hnomv.
  rewrite Hrun. cbn [events final outcome]. split_and!.
  - intros n. do 2 rewrite elem_of_app. rewrite Hmv0, moved_spec, !elem_of_cons, elem_of_nil.
    split; [|by left].
    intros [?|[?%Hnomv|[?|[?|?]]]]; done.
  - assert (Hv : verified env year d = verifies env total fs3).
    { unfold verified. by rewrite bool_decide_eq_true_2 by done. }
    rewrite Hv. unfold after_cleanup.
    destruct (verifies env total fs3), (rmtree_fails env); cbn.
    + right. eexists _, q. split_and!; [by right|done|done].
    + by left.
    + right. eexists _, q. split_and!; [by left|done|done].
    + right. eexists _, q. split_and!; [by left|done|done].
  - intros _. split_and!; [done| |].
    + unfold after_cleanup.
      by destruct (verifies env total fs3), (rmtree_fails env).
    + do 2 rewrite elem_of_app. rewrite !elem_of_cons. right. right. by left.
Qed.

(** Whatever [merge_chunks] raises it has logged just before: the call
    ends with the line of the critical error and the line of the
    traceback. *)
Lemma merge_chunks_logs_what_it_raises env (year : Z) fs e :
  outcome (merge_chunks env year fs) = Raised e →
  EvLog (MsgCritical e) ∈ events (merge_chunks env year fs) ∧
  ∃ pre, events (merge_chunks env year fs)
         = pre ++ [EvLog (MsgCritical e); EvLog (MsgTraceback e)].
Proof.
  unfold merge_chunks, try_except. cbv zeta.
  match goal with
  | |- context [match outcome ?r with _ => _ end] =>
      destruct r as [ev st [a|e'|]]
  end; cbn [outcome events final]; [done| |done].
  unfold bind, log, emit, raise. cbn [outcome events final].
  intros [= ->]. split.
  - apply elem_of_app. right. by left.
  - by exists ev.
Qed.

(** A merge that lists files and appends no row raises [KeyError] when it
    stores the metadata: the store has no table [data].  The exception is
    logged and raised again; the new store stays empty and the chunk
    directory stays. *)
Theorem merge_without_rows_raises env (year : Z) fs d :
  chunks_dir fs = Some d →
  listing d ≠ [] → good_rows env d (listing d) = [] →
  let r := merge_chunks env year fs in
  outcome r = Raised KeyError ∧
  final_h5 (final r) = Some (mkStore None None) ∧
  EvLog (MsgCritical KeyError) ∈ events r ∧
  ∃ d', chunks_dir (final r) = Some d' ∧ preserved d d'.
Proof.
  intros Hd Hl Hr. cbn zeta.
  destruct (merge_chunks_run env year fs d Hd) as (evs0 & Hev0 & Hmv0 & Hrun).
  cbn zeta in Hrun.
  rewrite decide_False, decide_True in Hrun by done.
  assert (Hcrit : EvLog (MsgCritical KeyError) ∈ events (merge_chunks env year fs)).
  { apply merge_chunks_logs_what_it_raises. by rewrite Hrun. }
  rewrite Hrun in Hcrit |- *. cbn [events final outcome] in *.
  split_and!; [done|done|done|].
  eexists. split; [reflexivity|apply preserved_quarantine].
Qed.

(** A merge of a directory without chunk files logs that and returns; it
    creates [corrupted] if need be and touches nothing else: no store is
    created. *)
Theorem merge_of_no_chunks_returns env (year : Z) fs d :
  chunks_dir fs = Some d → listing d = [] →
  merge_chunks env year fs =
  mkRun [EvLog MsgMergeStart; EvMkdirCorrupted; EvLog MsgNoChunks]
        (set_chunks_dir (Some (with_corrupted d)) fs) (Ok tt).
Proof.
  intros Hd Hl.
  set (d0 := with_corrupted d). set (fs0 := set_chunks_dir (Some d0) fs).
  assert (Hmk : mkdir_corrupted fs = mkRun [EvMkdirCorrupted] fs0 (Ok tt)).
  { unfold mkdir_corrupted, mio, in_chunks_dir. by rewrite Hd. }
  assert (Hglob : glob_chunks fs0 = mkRun [] fs0 (Ok [])).
  { unfold glob_chunks, gets. simpl. fold (listing d0).
    unfold d0. by rewrite listing_with_corrupted, Hl. }
  unfold merge_chunks. eapply try_ok.
  eapply (bind_ok_run _ _ _ [_]); [reflexivity|].
  eapply (bind_ok_run _ _ _ [_]); [exact Hmk|].
  eapply (bind_ok_run _ _ _ []); [exact Hglob|].
  reflexivity.
Qed.
End MergeTheorems.


(** ** The scan driver (C2, C3) *)

Section ScanRuns.
Context {F : Type} `{FloatLe F}.
Implicit Types (self : Processor F) (src : Raster F) (st : Scan F) (fs : FS F)
  (d : ChunksDir F) (w : Window).

(** [process_chunk] reads its window first and logs at most an error
    after that; it returns in every state and leaves it as it is. *)
Lemma process_chunk_events self src w :
  ∃ logs df,
    (∀ st, process_chunk self src w st = mkRun (EvRead w :: logs) st (Ok df)) ∧
    reads logs = [].
Proof.
  unfold process_chunk, read_band.
  match goal with
  | |- context [bind (bind _ _) ?k] => assert (Hs : ∀ a, silent (k a))
  end.
  { intros a. apply silent_bind.
    - unfold reshape. apply silent_if; [apply silent_ret|apply silent_raise].
    - intros ca_mask. apply silent_bind.
      + unfold mask_and. apply silent_if; [apply silent_raise|apply silent_ret].
      + intros valid_mask. apply silent_if; apply silent_ret. }
  destruct (src_read src w) as [a|].
  - destruct (Hs a) as ([df|e|] & Ho & Hk); [| |done].
    + exists [], df. split; [|done]. intros st. eapply try_ok.
      eapply (bind_ok_run _ _ _ [_] _ _ []); [|apply Hk].
      eapply (bind_ok_run _ _ _ [_] _ _ []); reflexivity.
    + exists [EvLog (MsgErrorChunk e)], None. split; [|done]. intros st.
      eapply (try_raised _ _ _ [_] _ _ [_]); [|reflexivity].
      eapply (bind_ok_run _ _ _ [_] _ _ []); [|apply Hk].
      eapply (bind_ok_run _ _ _ [_] _ _ []); reflexivity.
  - exists [EvLog (MsgErrorChunk OSError)], None. split; [|done]. intros st.
    eapply (try_raised _ _ _ [_] _ _ [_]); [|reflexivity].
    eapply bind_raised. eapply (bind_ok_run _ _ _ [_] _ _ []); reflexivity.
Qed.

(** [process_chunk] returns in every state, leaves it as it is, and its
    events and its table do not depend on it. *)
Lemma process_chunk_run self src w st :
  process_chunk self src w st =
  mkRun (chunk_events self src w) st (Ok (chunk_table self src w)).
Proof.
  destruct (process_chunk_events self src w) as (evs & df & Hrun & _).
  unfold chunk_events, chunk_table. by rewrite !Hrun.
Qed.

Lemma chunk_events_reads self src w : reads (chunk_events self src w) = [w].
Proof.
  destruct (process_chunk_events self src w) as (evs & df & Hrun & Hlogs).
  unfold chunk_events. rewrite Hrun. cbn [events]. unfold reads in *. cbn.
  by rewrite Hlogs.
Qed.

Lemma when_log_scan (b : bool) (m : Msg) st :
  (if b then log m else ret tt : M (Event F) (Scan F) unit) st
  = mkRun (if b then [EvLog m] else []) st (Ok tt).
Proof. by destruct b. Qed.

Lemma save_chunk_run st d (n : Z) (df : option (list (Row F))) :
  chunks_dir (disk st) = Some d → kill st = None →
  save_chunk df n st =
  mkRun (save_chunk_events n df)
        (mkScan (progress st) (chunk_num st)
                (set_chunks_dir (Some (with_chunk n df d)) (disk st)) None)
        (Ok tt).
Proof.
  intros Hd Hk.
  assert (Hst : st = mkScan (progress st) (chunk_num st)
                       (set_chunks_dir (Some d) (disk st)) None).
  { destruct st as [p c [a b t dd] k]. simpl in *. by subst. }
  unfold save_chunk, save_chunk_events, with_chunk, rows_to_write.
  destruct df as [rows|]; [|by rewrite Hst at 1].
  destruct (length rows =? 0)%nat; [by rewrite Hst at 1|].
  eapply (bind_ok_run _ _ _ [_]).
  { unfold io, write_file, in_chunks_dir. rewrite Hk, Hd. reflexivity. }
  eapply (bind_ok_run _ _ _ [_]).
  { unfold io, write_file, in_chunks_dir. cbn [kill disk chunks_dir set_chunks_dir].
    reflexivity. }
  unfold log, emit. cbn. unfold set_chunk_files, set_chunks_dir.
  cbn. by rewrite insert_insert_eq.
Qed.

Lemma save_if_table_run st d (n : Z) (df : option (list (Row F))) :
  chunks_dir (disk st) = Some d → kill st = None →
  (match df with
   | Some _ => save_chunk df n
   | None => ret tt
   end) st =
  mkRun (save_chunk_events n df)
        (mkScan (progress st) (chunk_num st)
                (set_chunks_dir (Some (with_chunk n df d)) (disk st)) None)
        (Ok tt).
Proof.
  intros Hd Hk. destruct df as [rows|]; [by apply save_chunk_run|].
  unfold save_chunk_events, with_chunk, rows_to_write, ret.
  f_equal. destruct st as [pp c [a b t dd] k]. simpl in *. by subst.
Qed.

(** One turn of the loop of [process], when the process is not killed: a
    chunk number up to the start chunk is skipped; otherwise the window is
    read, the chunk is written if it has rows, and the checkpoint is saved
    with the chunk number, in that order. *)
Lemma window_step_run self src (s total : Z) w st d :
  chunks_dir (disk st) = Some d → kill st = None →
  let n := chunk_num st + 1 in
  let df := chunk_table self src (window_at self src w) in
  let p := <["last_chunk" := JInt n]> (progress st) in
  window_step self src (JInt s) total w st =
  if n <=? s then mkRun [] (set_chunk_num n st) (Ok tt)
  else
    mkRun ((if n mod 100 =? 0 then [EvLog (MsgProgress n total)] else []) ++
           chunk_events self src (window_at self src w) ++
           save_chunk_events n df ++ [EvOpenW; EvDump p])
          (mkScan p n
             (set_chunks_dir
                (Some (set_progress_json (Some (Json p)) (with_chunk n df d)))
                (disk st))
             None)
          (Ok tt).
Proof.
  intros Hd Hk n df p. unfold window_step, process_window.
  destruct (n <=? s) eqn:Hskip.
  - eapply (bind_ok_run _ _ _ []); [reflexivity|].
    eapply (bind_ok_run _ _ _ []); [reflexivity|].
    eapply (bind_ok_run _ _ _ []); [reflexivity|].
    cbn [chunk_num set_chunk_num]. fold n. rewrite Hskip. reflexivity.
  - eapply (bind_ok_run _ _ _ []); [reflexivity|].
    eapply (bind_ok_run _ _ _ []); [reflexivity|].
    eapply (bind_ok_run _ _ _ []); [reflexivity|].
    cbn [chunk_num set_chunk_num]. fold n. rewrite Hskip.
    eapply bind_ok_run; [apply when_log_scan|].
    eapply bind_ok_run; [apply process_chunk_run|].
    fold (window_at self src w). fold df.
    eapply bind_ok_run; [by apply (save_if_table_run _ d)|].
    rewrite (save_progress_run _ (with_chunk n df d)) by done.
    reflexivity.
Qed.

Lemma window_step_ready self src (s0 total : Z) w st :
  ready s0 st →
  let r := window_step self src (JInt s0) total w st in
  outcome r = Ok tt ∧ ready s0 (final r) ∧
  chunk_num (final r) = chunk_num st + 1 ∧
  final_csv (disk (final r)) = final_csv (disk st) ∧
  final_h5 (disk (final r)) = final_h5 (disk st) ∧
  source_tif (disk (final r)) = source_tif (disk st).
Proof.
  intros (Hk & (d & Hd & Hsync) & Hlast) r. unfold r.
  rewrite (window_step_run self src s0 total w st d Hd Hk). cbn zeta.
  destruct (Z.leb_spec (chunk_num st + 1) s0) as [Hle|Hgt];
    cbn [outcome final].
  - assert (ready s0 (set_chunk_num (chunk_num st + 1) st)).
    { split_and!; [done|by exists d|]. cbn. rewrite Hlast. do 2 f_equal. lia. }
    by split_and!.
  - match goal with |- _ ∧ ready s0 ?st' ∧ _ => assert (ready s0 st') end.
    { split_and!; [done| |].
      - eexists. split; [reflexivity|]. by left.
      - cbn. rewrite lookup_insert_eq. do 2 f_equal. lia. }
    by split_and!.
Qed.

Lemma scan_loop_ready self src (s0 total : Z) (ws : list Window) : ∀ st,
  ready s0 st →
  let r := scan_loop self src (JInt s0) total ws st in
  outcome r = Ok tt ∧ ready s0 (final r) ∧
  chunk_num (final r) = chunk_num st + Z.of_nat (length ws) ∧
  final_csv (disk (final r)) = final_csv (disk st) ∧
  final_h5 (disk (final r)) = final_h5 (disk st) ∧
  source_tif (disk (final r)) = source_tif (disk st).
Proof.
  induction ws as [|w ws IH]; intros st Hst.
  - cbn. split_and!; try done. lia.
  - destruct (window_step_ready self src s0 total w st Hst)
      as (Ho & Hr & Hn & Hc & Hh & Hs).
    cbn zeta. unfold scan_loop. cbn [for_each]. unfold bind.
    destruct (window_step self src (JInt s0) total w st) as [ev st1 o].
    cbn [outcome final events] in *. subst o.
    destruct (IH st1 Hr) as (Ho' & Hr' & Hn' & Hc' & Hh' & Hs').
    unfold scan_loop in *. cbn zeta in *.
    destruct (for_each ws _ st1) as [ev2 st2 o2].
    cbn [outcome final events] in *. subst o2.
    split_and!; try done; try congruence.
    rewrite Hn', Hn. cbn [length]. lia.
Qed.
End ScanRuns.


Section ScanLoop.
Context {F : Type} `{FloatLe F}.
Implicit Types (self : Processor F) (src : Raster F) (st : Scan F) (fs : FS F)
  (d : ChunksDir F) (w : Window).

Lemma ready_alive s0 st :
  ready s0 st → kill st = None ∧ ∃ d, chunks_dir (disk st) = Some d.
Proof. intros (Hk & (d & Hd & _) & _). eauto. Qed.

Lemma scan_eta st : mkScan (progress st) (chunk_num st) (disk st) (kill st) = st.
Proof. by destruct st. Qed.

(** Windows whose chunk numbers are all up to the start chunk are skipped:
    only the counter moves. *)
Lemma scan_loop_skip self src (s total : Z) (ws : list Window) : ∀ st,
  kill st = None → is_Some (chunks_dir (disk st)) →
  chunk_num st + Z.of_nat (length ws) ≤ s →
  scan_loop self src (JInt s) total ws st =
  mkRun [] (set_chunk_num (chunk_num st + Z.of_nat (length ws)) st) (Ok tt).
Proof.
  induction ws as [|w ws IH]; intros st Hk [d Hd] Hle.
  - cbn. unfold ret, set_chunk_num. rewrite Z.add_0_r. by rewrite scan_eta.
  - cbn [length] in Hle. unfold scan_loop. cbn [for_each].
    eapply (bind_ok_run _ _ _ [] _ _ []).
    + rewrite (window_step_run self src s total w st d Hd Hk). cbn zeta.
      rewrite (proj2 (Z.leb_le _ _)) by lia. reflexivity.
    + fold (scan_loop self src (JInt s) total ws). rewrite IH.
      * cbn. unfold set_chunk_num. cbn. do 2 f_equal. lia.
      * done.
      * by exists d.
      * cbn. lia.
Qed.

(** Beyond both start chunks the loop does not depend on the start chunk. *)
Lemma scan_loop_start self src (s s' total : Z) (ws : list Window) : ∀ st,
  kill st = None → is_Some (chunks_dir (disk st)) →
  s ≤ chunk_num st → s' ≤ chunk_num st →
  scan_loop self src (JInt s) total ws st = scan_loop self src (JInt s') total ws st.
Proof.
  induction ws as [|w ws IH]; intros st Hk [d Hd] Hs Hs'; [done|].
  unfold scan_loop. cbn [for_each]. unfold bind.
  rewrite !(window_step_run self src _ total w st d Hd Hk). cbn zeta.
  rewrite !(proj2 (Z.leb_gt _ _)) by lia. cbn [outcome final events].
  fold (scan_loop self src (JInt s) total ws).
  fold (scan_loop self src (JInt s') total ws).
  rewrite IH; [done|done|by eexists|cbn; lia..].
Qed.

Lemma scan_loop_app self src (start : JVal) (total : Z) (l1 l2 : list Window)
    st ev1 st1 :
  scan_loop self src start total l1 st = mkRun ev1 st1 (Ok tt) →
  scan_loop self src start total (l1 ++ l2) st =
  mkRun (ev1 ++ events (scan_loop self src start total l2 st1))
        (final (scan_loop self src start total l2 st1))
        (outcome (scan_loop self src start total l2 st1)).
Proof.
  unfold scan_loop. intros E. rewrite for_each_app. unfold bind. by rewrite E.
Qed.

Lemma reads_app (l k : list (Event F)) : reads (l ++ k) = reads l ++ reads k.
Proof. unfold reads. apply omap_app. Qed.

(** Beyond the start chunk every window is read, once and in order. *)
Lemma scan_loop_reads self src (s total : Z) (ws : list Window) : ∀ st,
  kill st = None → is_Some (chunks_dir (disk st)) → s ≤ chunk_num st →
  reads (events (scan_loop self src (JInt s) total ws st)) =
  window_at self src <$> ws.
Proof.
  induction ws as [|w ws IH]; intros st Hk [d Hd] Hs; [done|].
  unfold scan_loop. cbn [for_each]. unfold bind.
  rewrite (window_step_run self src s total w st d Hd Hk). cbn zeta.
  rewrite (proj2 (Z.leb_gt _ _)) by lia. cbn [outcome final events].
  fold (scan_loop self src (JInt s) total ws).
  rewrite !reads_app, chunk_events_reads, IH; [|done|by eexists|cbn; lia].
  assert (Hlog : ∀ b m, reads (if b : bool then [EvLog m] else [] : list (Event F)) = [])
    by (by intros []).
  rewrite Hlog. cbn [app]. rewrite fmap_cons. f_equal.
  unfold save_chunk_events. by destruct (rows_to_write _).
Qed.

(** Skipped windows are not read. *)
Lemma scan_loop_skip_reads self src (s total : Z) (ws : list Window) st :
  kill st = None → is_Some (chunks_dir (disk st)) →
  chunk_num st + Z.of_nat (length ws) ≤ s →
  reads (events (scan_loop self src (JInt s) total ws st)) = [].
Proof. intros Hk Hd Hle. by rewrite scan_loop_skip. Qed.

(** For a window of the grid, [process] builds that window. *)
Lemma window_at_grid self src w :
  w ∈ windows_of self src → window_at self src w = w.
Proof.
  unfold windows_of, grid_windows. intros Hw.
  apply list_elem_of_bind in Hw as (y & Hw & _).
  apply list_elem_of_bind in Hw as (x & Hw & _).
  apply list_elem_of_singleton in Hw as ->. done.
Qed.

(** The two nested loops of [process] are one loop over the windows of the
    grid. *)
Lemma nested_loops self src (start : JVal) (total : Z) st :
  for_each (Py.range 0 (src_height src) (chunk_size self)) (λ y,
    let chunk_height := Z.min (chunk_size self) (src_height src - y) in
    for_each (Py.range 0 (src_width src) (chunk_size self)) (λ x,
      process_window self src start total y chunk_height x)) st
  = scan_loop self src start total (windows_of self src) st.
Proof.
  unfold scan_loop, windows_of, grid_windows.
  rewrite for_each_bind_list. apply for_each_ext. intros y st' _. cbn zeta.
  rewrite for_each_bind_list. apply for_each_ext. intros x st'' _.
  by rewrite for_each_singleton.
Qed.
End ScanLoop.


Section ScanMain.
Context {F : Type} `{FloatLe F}.
Implicit Types (self : Processor F) (src : Raster F) (st : Scan F) (fs : FS F)
  (d : ChunksDir F) (w : Window).

Lemma loaded_last_chunk_eq fs :
  loaded_last_chunk fs =
  match chunks_dir fs ≫= progress_json with
  | Some (Json p) =>
      match p !! "last_chunk" with
      | Some (JInt n) => Some n
      | _ => None
      end
  | Some Torn => None
  | None => Some 0
  end.
Proof.
  unfold loaded_last_chunk, load_progress, bind, gets, modify, raise, boot.
  cbn [outcome final events disk].
  by destruct (chunks_dir fs ≫= progress_json) as [[p|]|].
Qed.

(** The constructor, on files whose checkpoint reads as [s0]. *)
Lemma init_ready fs (s0 : Z) :
  loaded_last_chunk fs = Some s0 → 0 ≤ s0 →
  ∃ st0,
    init (boot fs None) = mkRun [EvMkdirChunks] st0 (Ok tt) ∧
    ready s0 st0 ∧ chunk_num st0 = 0 ∧
    final_csv (disk st0) = final_csv fs ∧
    final_h5 (disk st0) = final_h5 fs ∧
    source_tif (disk st0) = source_tif fs.
Proof.
  rewrite loaded_last_chunk_eq. intros Hl Hs0.
  unfold init, load_progress, io, mkdir_chunks, boot.
  destruct fs as [csv h5 tif [d|]]; cbn [chunks_dir mbind option_bind] in Hl.
  - destruct (progress_json d) as [[p|]|] eqn:Hp; [|done|].
    + destruct (p !! "last_chunk") as [[n|]|] eqn:Hn; [|done..].
      injection Hl as ->.
      eexists. split.
      { eapply (bind_ok_run _ _ _ [_] _ _ []); [reflexivity|].
        eapply (bind_ok_run _ _ _ [] _ _ []); [reflexivity|].
        cbn. rewrite Hp. reflexivity. }
      split_and!; try done. split_and!; [done| |].
      * exists d. split; [done|]. by left.
      * cbn. rewrite Hn. do 2 f_equal. lia.
    + injection Hl as <-.
      eexists. split.
      { eapply (bind_ok_run _ _ _ [_] _ _ []); [reflexivity|].
        eapply (bind_ok_run _ _ _ [] _ _ []); [reflexivity|].
        cbn. rewrite Hp. reflexivity. }
      split_and!; try done. split_and!; [done| |].
      * exists d. split; [done|]. by right.
      * done.
  - cbn in Hl. injection Hl as <-.
    eexists. split.
    { eapply (bind_ok_run _ _ _ [_] _ _ []); [reflexivity|].
      eapply (bind_ok_run _ _ _ [] _ _ []); reflexivity. }
    split_and!; try done. split_and!; [done| |].
    + exists empty_dir. split; [done|]. by right.
    + done.
Qed.

(** The constructor, on the files a scan leaves between two windows: the
    dictionary it loads is the one the scan had. *)
Lemma init_of_ready (s0 : Z) st :
  ready s0 st →
  init (boot (disk st) None) =
  mkRun [EvMkdirChunks] (mkScan (progress st) 0 (disk st) None) (Ok tt).
Proof.
  intros (Hk & (d & Hd & Hsync) & Hlast).
  unfold init, load_progress, io, mkdir_chunks, boot.
  eapply (bind_ok_run _ _ _ [_] _ _ []).
  { cbn [kill disk]. rewrite Hd. reflexivity. }
  eapply (bind_ok_run _ _ _ [] _ _ []); [reflexivity|].
  cbn [disk]. rewrite Hd. cbn [mbind option_bind].
  destruct Hsync as [->|[-> ->]]; reflexivity.
Qed.

Lemma loaded_of_ready (s0 : Z) st :
  ready s0 st → loaded_last_chunk (disk st) = Some (Z.max s0 (chunk_num st)).
Proof.
  intros (Hk & (d & Hd & Hsync) & Hlast). rewrite loaded_last_chunk_eq, Hd.
  cbn [mbind option_bind]. destruct Hsync as [->|[-> Hp]].
  - by rewrite Hlast.
  - rewrite Hp in Hlast. injection Hlast as <-. done.
Qed.

(** [process], when the final file is absent, the raster is there, the
    start chunk is in the dictionary and the chunk size is not zero. *)
Lemma process_unfold self src (start : JVal) st :
  final_csv (disk st) = false → source_tif (disk st) = Some src →
  progress st !! "last_chunk" = Some start → chunk_size self ≠ 0 →
  process self st =
  (log (MsgStartingFrom start) >>
   try_except
     (modify (set_chunk_num 0) >>
      scan_loop self src start
        (total_chunks (src_height src) (src_width src) (chunk_size self))
        (windows_of self src))
     (λ e, log (MsgErrorYear e) >> raise e)) st.
Proof.
  intros Hcsv Hsrc Hstart Hcs. unfold process.
  rewrite bind_gets, Hcsv, bind_gets, Hsrc.
  rewrite bind_assoc, bind_gets, Hstart, bind_ret_l.
  apply bind_ext. intros _ st1. apply try_ext.
  rewrite (proj2 (Z.eqb_neq _ _)) by done. rewrite bind_ret_l.
  apply bind_ext. intros _ st2. apply nested_loops.
Qed.

(** [process] from a state of the scan whose counter is 0. *)
Lemma process_ready self src (s0 : Z) st :
  ready s0 st → chunk_num st = 0 → 0 ≤ s0 →
  final_csv (disk st) = false → source_tif (disk st) = Some src →
  chunk_size self ≠ 0 →
  let loop := scan_loop self src (JInt s0)
                (total_chunks (src_height src) (src_width src) (chunk_size self))
                (windows_of self src) st in
  process self st =
  mkRun (EvLog (MsgStartingFrom (JInt s0)) :: events loop) (final loop) (Ok tt).
Proof.
  intros Hr Hn Hs0 Hcsv Hsrc Hcs loop.
  assert (Hlast : progress st !! "last_chunk" = Some (JInt s0)).
  { destruct Hr as (_ & _ & Hl). rewrite Hl, Hn. do 2 f_equal. lia. }
  rewrite (process_unfold self src (JInt s0)) by done.
  destruct (scan_loop_ready self src s0
              (total_chunks (src_height src) (src_width src) (chunk_size self))
              (windows_of self src) st Hr) as (Ho & _).
  cbn zeta in Ho. fold loop in Ho.
  eapply (bind_ok_run _ _ _ [_]); [reflexivity|].
  eapply try_ok. eapply (bind_ok_run _ _ _ []); [reflexivity|].
  assert (Hst : set_chunk_num 0 st = st).
  { unfold set_chunk_num. rewrite <-Hn. apply scan_eta. }
  rewrite Hst. fold loop. rewrite <-Ho. apply run_eta.
Qed.
End ScanMain.


Section Resume.
Context {F : Type} `{FloatLe F}.
Implicit Types (self : Processor F) (src : Raster F) (st : Scan F) (fs : FS F)
  (d : ChunksDir F) (w : Window).

Lemma main_ready self src fs (s0 : Z) :
  final_csv fs = false → source_tif fs = Some src → chunk_size self ≠ 0 →
  loaded_last_chunk fs = Some s0 → 0 ≤ s0 →
  ∃ st0,
    init (boot fs None) = mkRun [EvMkdirChunks] st0 (Ok tt) ∧
    ready s0 st0 ∧ chunk_num st0 = 0 ∧
    final_csv (disk st0) = final_csv fs ∧ source_tif (disk st0) = source_tif fs ∧
    let loop := scan_loop self src (JInt s0)
                  (total_chunks (src_height src) (src_width src) (chunk_size self))
                  (windows_of self src) st0 in
    main self (boot fs None) =
    mkRun (EvMkdirChunks :: EvLog (MsgStartingFrom (JInt s0)) :: events loop)
          (final loop) (Ok tt).
Proof.
  intros Hcsv Hsrc Hcs Hl Hs0.
  destruct (init_ready fs s0 Hl Hs0) as (st0 & Hinit & Hr & Hn & Hc & _ & Ht).
  exists st0. split_and!; [done..|]. intros loop. unfold main.
  eapply (bind_ok_run _ _ _ [_]); [exact Hinit|].
  apply (process_ready self src s0 st0); congruence.
Qed.

Lemma elem_of_drop_whole {A} (x : A) (n : nat) (l : list A) : x ∈ drop n l → x ∈ l.
Proof. intros Hx. rewrite <-(take_drop n l). apply elem_of_app. by right. Qed.

Lemma elem_of_take_whole {A} (x : A) (n : nat) (l : list A) : x ∈ take n l → x ∈ l.
Proof. intros Hx. rewrite <-(take_drop n l). apply elem_of_app. by left. Qed.

Lemma fmap_window_at self src (l : list Window) :
  (∀ w, w ∈ l → w ∈ windows_of self src) → window_at self src <$> l = l.
Proof.
  intros Hl. rewrite <-(list_fmap_id l) at 2. apply list_fmap_ext.
  intros i w Hw. apply window_at_grid, Hl. by eapply list_elem_of_lookup_2.
Qed.

(** A scan is started on files whose checkpoint reads [s0]; it stops right
    after it has completed chunk [k], and a new process resumes on the
    files it left.  The resumed scan returns, and it leaves exactly the
    files the uninterrupted scan leaves, chunk files and checkpoint.  It
    finds [k] as checkpoint, reads none of the first [k] windows and reads
    each of the others, once and in order. *)
Lemma resume_between_chunks self src fs (s0 : Z) (k : nat) :
  final_csv fs = false → source_tif fs = Some src → chunk_size self ≠ 0 →
  loaded_last_chunk fs = Some s0 →
  0 ≤ s0 ≤ Z.of_nat k → (k ≤ length (windows_of self src))%nat →
  let full := main self (boot fs None) in
  let fs_k := files_after_chunk self src fs k in
  let resumed := main self (boot fs_k None) in
  outcome full = Ok tt ∧ outcome resumed = Ok tt ∧
  loaded_last_chunk fs_k = Some (Z.of_nat k) ∧
  disk (final resumed) = disk (final full) ∧
  reads (events resumed) = drop k (windows_of self src) ∧
  reads (events full) = drop (Z.to_nat s0) (windows_of self src).
Proof.
  intros Hcsv Hsrc Hcs Hl [Hs0 Hsk] Hk. cbn zeta.
  set (ws := windows_of self src) in *.
  set (total := total_chunks (src_height src) (src_width src) (chunk_size self)).
  destruct (main_ready self src fs s0 Hcsv Hsrc Hcs Hl Hs0)
    as (st0 & Hinit & Hr0 & Hn0 & Hc0 & Ht0 & Hfull).
  cbn zeta in Hfull. fold ws total in Hfull.
  (* the first k windows *)
  destruct (scan_loop_ready self src s0 total (take k ws) st0 Hr0)
    as (Ho1 & Hr1 & Hn1 & Hc1 & _ & Ht1).
  cbn zeta in *.
  set (r1 := scan_loop self src (JInt s0) total (take k ws) st0) in *.
  set (st_k := final r1) in *.
  rewrite length_take, Hn0 in Hn1.
  assert (Hnk : chunk_num st_k = Z.of_nat k) by lia.
  destruct (ready_alive _ _ Hr1) as (Hkill & d & Hd).
  (* the files after chunk k *)
  assert (Hlast0 : progress st0 !! "last_chunk" = Some (JInt s0)).
  { destruct Hr0 as (_ & _ & Hlast). rewrite Hlast, Hn0. do 2 f_equal. lia. }
  assert (Hst0 : set_chunk_num 0 st0 = st0).
  { unfold set_chunk_num. rewrite <-Hn0. apply scan_eta. }
  assert (Hfsk : files_after_chunk self src fs k = disk st_k).
  { unfold files_after_chunk. rewrite Hinit. cbn [final].
    by rewrite Hlast0, Hst0. }
  rewrite Hfsk.
  (* the rest of the uninterrupted scan *)
  set (r2 := scan_loop self src (JInt s0) total (drop k ws) st_k).
  assert (Hloop : scan_loop self src (JInt s0) total ws st0 =
                  mkRun (events r1 ++ events r2) (final r2) (outcome r2)).
  { transitivity (scan_loop self src (JInt s0) total (take k ws ++ drop k ws) st0);
      [by rewrite take_drop|].
    apply scan_loop_app. fold r1. rewrite <-Ho1. apply run_eta. }
  destruct (scan_loop_ready self src s0 total (drop k ws) st_k Hr1)
    as (Ho2 & _). cbn zeta in Ho2. fold r2 in Ho2.
  (* the resumed scan *)
  assert (Hlk : loaded_last_chunk (disk st_k) = Some (Z.of_nat k)).
  { rewrite (loaded_of_ready s0) by done. f_equal. lia. }
  assert (Hcsvk : final_csv (disk st_k) = false) by congruence.
  assert (Hsrck : source_tif (disk st_k) = Some src) by congruence.
  destruct (main_ready self src (disk st_k) (Z.of_nat k) Hcsvk Hsrck Hcs Hlk)
    as (st0' & Hinit' & Hr0' & Hn0' & _ & _ & Hres); [lia|].
  cbn zeta in Hres. fold ws total in Hres.
  rewrite (init_of_ready s0 st_k Hr1) in Hinit'. injection Hinit' as <-.
  assert (Hskip : scan_loop self src (JInt (Z.of_nat k)) total (take k ws)
                    (mkScan (progress st_k) 0 (disk st_k) None) =
                  mkRun [] st_k (Ok tt)).
  { rewrite scan_loop_skip; [|done|by eexists|cbn; rewrite length_take; lia].
    cbn. rewrite length_take. unfold set_chunk_num. cbn.
    rewrite <-Hkill, <-(scan_eta st_k). do 2 f_equal. lia. }
  assert (Hloop' : scan_loop self src (JInt (Z.of_nat k)) total ws
                     (mkScan (progress st_k) 0 (disk st_k) None) =
                   mkRun (events r2) (final r2) (outcome r2)).
  { transitivity (scan_loop self src (JInt (Z.of_nat k)) total
                    (take k ws ++ drop k ws)
                    (mkScan (progress st_k) 0 (disk st_k) None));
      [by rewrite take_drop|].
    rewrite (scan_loop_app _ _ _ _ _ _ _ _ _ Hskip).
    rewrite (scan_loop_start self src (Z.of_nat k) s0 total (drop k ws) st_k);
      [|done|by eexists|lia..].
    fold r2. done. }
  rewrite Hloop' in Hres. rewrite Hloop in Hfull. cbn [events final] in *.
  rewrite Hres, Hfull. cbn [events final outcome].
  split_and!; [done|done|done|done| |].
  - change (reads (events r2) = drop k ws). unfold r2.
    rewrite scan_loop_reads; [|done|by eexists|lia].
    apply fmap_window_at. intros w Hw. by eapply elem_of_drop_whole.
  - change (reads (events r1 ++ events r2) = drop (Z.to_nat s0) ws).
    rewrite reads_app. unfold r2.
    rewrite (scan_loop_reads _ _ _ _ (drop k ws)); [|done|by eexists|lia].
    rewrite fmap_window_at by (intros w Hw; by eapply elem_of_drop_whole).
    (* the first k windows of the uninterrupted scan *)
    destruct (ready_alive _ _ Hr0) as (Hkill0 & d0 & Hd0).
    set (j := Z.to_nat s0).
    assert (Hj : (j ≤ k)%nat) by lia.
    assert (Hskip0 : scan_loop self src (JInt s0) total (take j (take k ws)) st0 =
              mkRun [] (set_chunk_num (chunk_num st0 +
                          Z.of_nat (length (take j (take k ws)))) st0) (Ok tt)).
    { apply scan_loop_skip; [done|by eexists|]. rewrite !length_take. lia. }
    unfold r1. rewrite <-(take_drop j (take k ws)).
    rewrite (scan_loop_app _ _ _ _ _ _ _ _ _ Hskip0). cbn [events app].
    rewrite scan_loop_reads; [|done|by eexists|].
    2:{ cbn. rewrite !length_take. lia. }
    rewrite fmap_window_at.
    2:{ intros w Hw. apply elem_of_drop_whole in Hw.
        by eapply elem_of_take_whole. }
    by apply drop_take_drop.
Qed.
End Resume.


(** ** Triples: what holds when a call returns, raises or is killed *)

Section TripleRules.
Context {Ev S : Type}.
Implicit Types (P X : S → Prop).

Lemma triple_ret {A} P (Q : A → S → Prop) X (a : A) :
  (∀ st, P st → Q a st) → triple (Ev := Ev) P (ret a) Q X.
Proof. intros HQ st HP. by apply HQ. Qed.

Lemma triple_raise {A} P (Q : A → S → Prop) X e :
  (∀ st, P st → X st) → triple (Ev := Ev) P (raise e) Q X.
Proof. intros HX st HP. by apply HX. Qed.



Lemma triple_emit P (Q : unit → S → Prop) X (ev : Ev) :
  (∀ st, P st → Q tt st) → triple P (emit ev) Q X.
Proof. intros HQ st HP. by apply HQ. Qed.

Lemma triple_bind {A B} P (R : A → S → Prop) (Q : B → S → Prop) X
    (m : M Ev S A) (k : A → M Ev S B) :
  triple P m R X → (∀ a, triple (R a) (k a) Q X) → triple P (bind m k) Q X.
Proof.
  intros Hm Hk st HP. specialize (Hm st HP). unfold bind.
  destruct (m st) as [ev st' [a|e|]]; cbn [outcome final] in *; [|done..].
  apply (Hk a st' Hm).
Qed.

Lemma triple_try {A} P (Q : A → S → Prop) X X' (m : M Ev S A) h :
  triple P m Q X' → (∀ st, X' st → X st) → (∀ e, triple X' (h e) Q X) →
  triple P (try_except m h) Q X.
Proof.
  intros Hm HX Hh st HP. specialize (Hm st HP). unfold try_except.
  destruct (m st) as [ev st' [a|e|]]; cbn [outcome final] in *; [done| |by apply HX].
  apply (Hh e st' Hm).
Qed.


Lemma triple_if {A} P (Q : A → S → Prop) X (b : bool) (m1 m2 : M Ev S A) :
  (b = true → triple P m1 Q X) → (b = false → triple P m2 Q X) →
  triple P (if b then m1 else m2) Q X.
Proof. destruct b; auto. Qed.


End TripleRules.


(** ** The checkpoint is never ahead of the chunk files (C3) *)

Section Lag.
Context {F : Type} `{FloatLe F}.
Implicit Types (self : Processor F) (src : Raster F) (st : Scan F) (fs : FS F)
  (d : ChunksDir F) (w : Window).



Lemma write_file_spec name (c : ChunkFile F) fs fs' :
  write_file name c fs = Some fs' →
  ∃ d, chunks_dir fs = Some d ∧
    fs' = set_chunks_dir
            (Some (set_chunk_files (<[name := c]> (chunk_files d)) d)) fs.
Proof.
  unfold write_file, in_chunks_dir. destruct (chunks_dir fs) as [d|]; [|done].
  intros [= <-]. by exists d.
Qed.

Lemma write_progress_spec (p : option ProgressFile) fs fs' :
  in_chunks_dir (set_progress_json p) fs = Some fs' →
  ∃ d, chunks_dir fs = Some d ∧
    fs' = set_chunks_dir (Some (set_progress_json p d)) fs.
Proof.
  unfold in_chunks_dir. destruct (chunks_dir fs) as [d|]; [|done].
  intros [= <-]. by exists d.
Qed.



Lemma loaded_write_file fs d (m : gmap string (ChunkFile F)) :
  chunks_dir fs = Some d →
  loaded_last_chunk (set_chunks_dir (Some (set_chunk_files m d)) fs)
  = loaded_last_chunk fs.
Proof. intros Hd. rewrite !loaded_last_chunk_eq, Hd. done. Qed.




End Lag.


Section LagSteps.
Context {F : Type} `{FloatLe F}.
Implicit Types (self : Processor F) (src : Raster F) (st : Scan F) (fs : FS F)
  (d : ChunksDir F) (w : Window).





End LagSteps.


Section LagLoop.
Context {F : Type} `{FloatLe F}.
Implicit Types (self : Processor F) (src : Raster F) (st : Scan F) (fs : FS F)
  (d : ChunksDir F) (w : Window).



End LagLoop.


Section LagMain.
Context {F : Type} `{FloatLe F}.
Implicit Types (self : Processor F) (src : Raster F) (st : Scan F) (fs : FS F)
  (d : ChunksDir F) (w : Window).






End LagMain.


Section Order.
Context {F : Type} `{FloatLe F}.
Implicit Types (self : Processor F) (src : Raster F) (st : Scan F) (fs : FS F)
  (d : ChunksDir F) (w : Window).


End Order.


(** ** Edge cases of the scan *)

Section ScanEdges.
Context {F : Type} `{FloatLe F}.
Implicit Types (self : Processor F) (src : Raster F) (st : Scan F) (fs : FS F)
  (d : ChunksDir F) (w : Window).

(** A checkpoint file that parses but has no entry [last_chunk]: the
    constructor accepts it, and [process] raises [KeyError] before it reads
    anything; the lookup is outside the [try], so no error line is
    logged. *)
Theorem checkpoint_without_last_chunk_raises self src fs d
    (p : gmap string JVal) :
  final_csv fs = false → source_tif fs = Some src →
  chunks_dir fs = Some d → progress_json d = Some (Json p) →
  p !! "last_chunk" = None →
  main self (boot fs None) =
  mkRun [EvMkdirChunks] (mkScan p 0 fs None) (Raised KeyError).
Proof.
  intros Hcsv Hsrc Hd Hp Hlast. unfold main.
  assert (Hinit : init (boot fs None) =
                  mkRun [EvMkdirChunks] (mkScan p 0 fs None) (Ok tt)).
  { unfold init, load_progress, io, mkdir_chunks, boot.
    eapply (bind_ok_run _ _ _ [_] _ _ []).
    { cbn [kill disk]. rewrite Hd. reflexivity. }
    eapply (bind_ok_run _ _ _ [] _ _ []); [reflexivity|].
    cbn [disk]. rewrite Hd. cbn [mbind option_bind]. rewrite Hp. reflexivity. }
  eapply (bind_ok_run _ _ _ [_] _ _ []); [exact Hinit|].
  unfold process. rewrite bind_gets. cbn [disk]. rewrite Hcsv.
  rewrite bind_gets. cbn [disk]. rewrite Hsrc.
  eapply bind_raised. rewrite bind_gets. cbn [progress]. by rewrite Hlast.
Qed.

(** A chunk size that is not positive.  With chunk size 0 the computation
    of [total_chunks] divides by zero: the error is logged and raised again,
    and nothing is read or written.  With a negative chunk size both
    [range]s are empty: [process] returns without reading a window and
    without saving a checkpoint. *)
Theorem process_with_nonpositive_chunk_size self src (start : JVal) st :
  final_csv (disk st) = false → source_tif (disk st) = Some src →
  progress st !! "last_chunk" = Some start →
  (chunk_size self = 0 →
   process self st =
   mkRun [EvLog (MsgStartingFrom start); EvLog (MsgErrorYear ZeroDivisionError)]
         st (Raised ZeroDivisionError)) ∧
  (chunk_size self < 0 → 0 ≤ src_height src →
   process self st =
   mkRun [EvLog (MsgStartingFrom start)] (set_chunk_num 0 st) (Ok tt)).
Proof.
  intros Hcsv Hsrc Hstart. split.
  - intros Hcs. unfold process.
    rewrite bind_gets, Hcsv, bind_gets, Hsrc.
    rewrite bind_assoc, bind_gets, Hstart, bind_ret_l.
    eapply (bind_ok_run _ _ _ [_] _ _ [_]); [reflexivity|].
    eapply (try_raised _ _ _ [] _ _ [_]); [|reflexivity].
    eapply bind_raised. by rewrite Hcs.
  - intros Hcs Hh.
    rewrite (process_unfold self src start) by (done || lia).
    eapply (bind_ok_run _ _ _ [_] _ _ []); [reflexivity|].
    eapply try_ok. eapply (bind_ok_run _ _ _ [] _ _ []); [reflexivity|].
    unfold windows_of, grid_windows, Py.range.
    rewrite (proj2 (Z.ltb_ge _ _)) by lia. rewrite (proj2 (Z.ltb_lt _ _)) by lia.
    replace (Z.to_nat (0 - src_height src)) with 0%nat by lia. reflexivity.
Qed.
End ScanEdges.


(** ** What the scan never touches *)

Section Frame.
Context {F : Type} `{FloatLe F}.
Implicit Types (self : Processor F) (src : Raster F) (st : Scan F) (fs : FS F)
  (d : ChunksDir F) (w : Window).

Lemma kept_refl fs : kept fs fs.
Proof. split_and!; [done..|]. intros d Hd. by exists d. Qed.

Lemma kept_trans fs1 fs2 fs3 : kept fs1 fs2 → kept fs2 fs3 → kept fs1 fs3.
Proof.
  intros (Hc & Hh & Ht & Hd) (Hc' & Hh' & Ht' & Hd').
  split_and!; [congruence..|].
  intros d Hd1. destruct (Hd d Hd1) as (d2 & Hd2 & Hq & Hf).
  destruct (Hd' d2 Hd2) as (d3 & Hd3 & Hq' & Hf').
  exists d3. split_and!; [done|congruence|]. intros name Hn. by apply Hf', Hf.
Qed.

Lemma keeps_ret {A} (a : A) : keeps (ret a : M (Event F) (Scan F) A).
Proof. intros st. apply kept_refl. Qed.

Lemma keeps_raise {A} e : keeps (raise e : M (Event F) (Scan F) A).
Proof. intros st. apply kept_refl. Qed.

Lemma keeps_gets {A} (f : Scan F → A) : keeps (gets f).
Proof. intros st. apply kept_refl. Qed.

Lemma keeps_emit (ev : Event F) : keeps (emit ev : M (Event F) (Scan F) unit).
Proof. intros st. apply kept_refl. Qed.

Lemma keeps_modify (f : Scan F → Scan F) :
  (∀ st, disk (f st) = disk st) → keeps (modify f).
Proof. intros Hf st. cbn. rewrite Hf. apply kept_refl. Qed.

Lemma keeps_bind {A B} (m : M (Event F) (Scan F) A) (k : A → M (Event F) (Scan F) B) :
  keeps m → (∀ a, keeps (k a)) → keeps (bind m k).
Proof.
  intros Hm Hk st. specialize (Hm st). unfold bind.
  destruct (m st) as [ev st' [a|e|]]; cbn [outcome final] in *; [|done..].
  eapply kept_trans; [exact Hm|]. apply Hk.
Qed.

Lemma keeps_try {A} (m : M (Event F) (Scan F) A) h :
  keeps m → (∀ e, keeps (h e)) → keeps (try_except m h).
Proof.
  intros Hm Hh st. specialize (Hm st). unfold try_except.
  destruct (m st) as [ev st' [a|e|]]; cbn [outcome final] in *; [done| |done].
  eapply kept_trans; [exact Hm|]. apply Hh.
Qed.

Lemma keeps_if {A} (b : bool) (m1 m2 : M (Event F) (Scan F) A) :
  keeps m1 → keeps m2 → keeps (if b then m1 else m2).
Proof. by destruct b. Qed.

Lemma keeps_for_each {A} (l : list A) (body : A → M (Event F) (Scan F) unit) :
  (∀ a, keeps (body a)) → keeps (for_each l body).
Proof.
  intros Hb. induction l as [|a l IH]; [apply keeps_ret|].
  cbn [for_each]. apply keeps_bind; [apply Hb|]. intros _. exact IH.
Qed.

Lemma keeps_io ev (f : FS F → option (FS F)) (e : Exn) :
  (∀ fs fs', f fs = Some fs' → kept fs fs') → keeps (io ev f e).
Proof.
  intros Hf st. unfold io.
  destruct (kill st) as [[|k]|]; cbn [final]; [apply kept_refl|..];
    (destruct (f (disk st)) as [fs'|] eqn:E; cbn [final disk];
      [by apply Hf|apply kept_refl]).
Qed.

Lemma kept_mkdir fs fs' : mkdir_chunks fs = Some fs' → kept fs fs'.
Proof.
  unfold mkdir_chunks. intros [= <-].
  destruct (chunks_dir fs) eqn:Hd; [apply kept_refl|].
  split_and!; [done..|]. intros d. by rewrite Hd.
Qed.

Lemma kept_write_file name (c : ChunkFile F) fs fs' :
  write_file name c fs = Some fs' → kept fs fs'.
Proof.
  intros (d & Hd & ->)%write_file_spec. split_and!; [done..|].
  intros d' Hd'. rewrite Hd in Hd'. injection Hd' as <-.
  eexists. split_and!; [done..|]. intros n Hn. cbn.
  destruct (decide (n = name)) as [->|Hne].
  - rewrite lookup_insert_eq. by eexists.
  - by rewrite lookup_insert_ne.
Qed.

Lemma kept_write_progress (p : option ProgressFile) fs fs' :
  in_chunks_dir (set_progress_json p) fs = Some fs' → kept fs fs'.
Proof.
  intros (d & Hd & ->)%write_progress_spec. split_and!; [done..|].
  intros d' Hd'. rewrite Hd in Hd'. injection Hd' as <-.
  eexists. by split_and!.
Qed.

Lemma keeps_save_progress (n : Z) : keeps (save_progress (F := F) n).
Proof.
  unfold save_progress. apply keeps_bind; [by apply keeps_modify|]. intros _.
  apply keeps_bind; [apply keeps_io, kept_write_progress|]. intros _.
  apply keeps_bind; [apply keeps_gets|]. intros p.
  apply keeps_io, kept_write_progress.
Qed.

Lemma keeps_save_chunk (df : option (list (Row F))) (n : Z) : keeps (save_chunk df n).
Proof.
  unfold save_chunk. destruct df as [rows|]; [|apply keeps_ret].
  apply keeps_if; [apply keeps_ret|].
  apply keeps_bind; [apply keeps_io, kept_write_file|]. intros _.
  apply keeps_bind; [apply keeps_io, kept_write_file|]. intros _.
  apply keeps_emit.
Qed.

Lemma keeps_process_chunk self src w : keeps (process_chunk self src w).
Proof. intros st. rewrite process_chunk_run. apply kept_refl. Qed.

Lemma keeps_process_window self src (start : JVal) (total y ch x : Z) :
  keeps (process_window self src start total y ch x).
Proof.
  unfold process_window.
  apply keeps_bind; [by apply keeps_modify|]. intros _.
  apply keeps_bind; [apply keeps_gets|]. intros n.
  apply keeps_bind.
  { unfold py_le. destruct start; [apply keeps_ret|apply keeps_raise]. }
  intros skip. apply keeps_if; [apply keeps_ret|].
  apply keeps_bind; [apply keeps_if; [apply keeps_emit|apply keeps_ret]|]. intros _.
  apply keeps_bind; [apply keeps_process_chunk|]. intros df.
  apply keeps_bind; [|intros _; apply keeps_save_progress].
  destruct df; [apply keeps_save_chunk|apply keeps_ret].
Qed.

Lemma keeps_process self : keeps (process self).
Proof.
  unfold process.
  apply keeps_bind; [apply keeps_gets|]. intros csv.
  apply keeps_if; [apply keeps_emit|].
  apply keeps_bind; [apply keeps_gets|]. intros [src|]; [|apply keeps_emit].
  apply keeps_bind.
  { apply keeps_bind; [apply keeps_gets|]. intros p.
    destruct (p !! "last_chunk"); [apply keeps_ret|apply keeps_raise]. }
  intros start. apply keeps_bind; [apply keeps_emit|]. intros _.
  apply keeps_try.
  - apply keeps_bind; [apply keeps_if; [apply keeps_raise|apply keeps_ret]|].
    intros total. apply keeps_bind; [by apply keeps_modify|]. intros _.
    apply keeps_for_each. intros y. apply keeps_for_each. intros x.
    apply keeps_process_window.
  - intros e. apply keeps_bind; [apply keeps_emit|]. intros _. apply keeps_raise.
Qed.

Lemma keeps_init : keeps (init (F := F)).
Proof.
  unfold init. apply keeps_bind; [apply keeps_io, kept_mkdir|]. intros _.
  unfold load_progress. apply keeps_bind; [apply keeps_gets|].
  intros [[p|]|]; [by apply keeps_modify|apply keeps_raise|by apply keeps_modify].
Qed.

(** However a run of the scan ends (return, exception, or a kill before any
    file-system step), it has left the final files and the raster as they
    were, it has not touched the subdirectory [corrupted], and every chunk
    file that was there is still there: the scan only adds or rewrites chunk
    files and the checkpoint. *)
Theorem scan_only_adds_chunks_and_checkpoint self fs (k : option nat) :
  kept fs (disk (final (main self (boot fs k)))).
Proof.
  assert (Hm : keeps (main self)).
  { unfold main. apply keeps_bind; [apply keeps_init|]. intros _.
    apply keeps_process. }
  exact (Hm (boot fs k)).
Qed.
End Frame.


(** ** From the scan to the merge *)

Lemma substring_0_length (t : string) : String.substring 0 (String.length t) t = t.
Proof. induction t as [|c t IH]; [done|]. cbn. by rewrite IH. Qed.

Lemma substring_app_length (s t : string) :
  String.substring (String.length s) (String.length t) (s +:+ t) = t.
Proof.
  induction s as [|c s IH]; [apply substring_0_length|].
  rewrite string_app_cons. cbn. apply IH.
Qed.

Lemma endswith_app (s t : string) : Py.endswith (s +:+ t) t = true.
Proof.
  unfold Py.endswith. rewrite string_length_app.
  apply andb_true_intro. split.
  - apply Nat.leb_le. lia.
  - replace (String.length s + String.length t - String.length t)%nat
      with (String.length s) by lia.
    rewrite substring_app_length. apply String.eqb_refl.
Qed.

(** Every name [save_chunk] gives a chunk file matches the pattern
    [chunk_*.csv.gz] by which [merge_chunks] lists them. *)
Lemma chunk_name_matches_glob (n : Z) : matches_glob (chunk_name n) = true.
Proof.
  unfold matches_glob, chunk_name.
  apply andb_true_intro. split; [apply andb_true_intro; split|].
  - destruct (Py.fmt_05d n +:+ ".csv.gz") eqn:E; reflexivity.
  - change ("chunk_" +:+ Py.fmt_05d n +:+ ".csv.gz")
      with (("chunk_" +:+ Py.fmt_05d n) +:+ ".csv.gz").
    apply endswith_app.
  - apply Nat.leb_le. rewrite !string_length_app. cbn. lia.
Qed.

Section Pipeline.
Context {F : Type} `{FloatLe F}.
Implicit Types (self : Processor F) (src : Raster F) (st : Scan F) (fs : FS F)
  (d : ChunksDir F) (w : Window).

Lemma put_files_app (l k : list (string * ChunkFile F)) cf :
  put_files (l ++ k) cf = put_files k (put_files l cf).
Proof. apply foldl_app. Qed.

(** The chunk directory after the turns for windows of the grid that are
    all beyond the start chunk. *)
Lemma scan_loop_files self src (s total : Z) (ws : list Window) : ∀ st d,
  (∀ w, w ∈ ws → w ∈ windows_of self src) →
  chunks_dir (disk st) = Some d → kill st = None → s ≤ chunk_num st →
  ∃ d',
    chunks_dir (disk (final (scan_loop self src (JInt s) total ws st))) = Some d' ∧
    corrupted d' = corrupted d ∧
    chunk_files d' = put_files (chunks_written self src (chunk_num st) ws) (chunk_files d).
Proof.
  induction ws as [|w ws IH]; intros st d Hws Hd Hk Hs.
  - exists d. by split_and!.
  - unfold scan_loop. cbn [for_each]. unfold bind.
    rewrite (window_step_run self src s total w st d Hd Hk). cbn zeta.
    rewrite (proj2 (Z.leb_gt _ _)) by lia. cbn [outcome final events].
    fold (scan_loop self src (JInt s) total ws).
    rewrite (window_at_grid self src w) by (apply Hws; by left).
    match goal with
    | |- context [final (scan_loop self src (JInt s) total ws ?x)] => set (st1 := x)
    end.
    assert (Hws' : ∀ w', w' ∈ ws → w' ∈ windows_of self src)
      by (intros w' Hw'; apply Hws; by right).
    assert (Hs1 : s ≤ chunk_num st1) by (cbn; lia).
    destruct (IH st1 _ Hws' eq_refl eq_refl Hs1) as (d' & Hd' & Hq & Hf).
    exists d'. split_and!; [exact Hd'| |].
    + rewrite Hq. unfold with_chunk. by destruct (rows_to_write _).
    + rewrite Hf. cbn [chunk_num chunks_written]. rewrite put_files_app.
      f_equal. unfold with_chunk. by destruct (rows_to_write _).
Qed.

Lemma chunks_written_names self src (n : Z) (ws : list Window) name :
  name ∈ (chunks_written self src n ws).*1 → ∃ j, n < j ∧ name = chunk_name j.
Proof.
  revert n. induction ws as [|w ws IH]; intros n; [by intros ?%elem_of_nil|].
  cbn [chunks_written]. rewrite fmap_app, elem_of_app. intros [Hn|Hn].
  - destruct (rows_to_write _); [|by apply elem_of_nil in Hn].
    apply list_elem_of_singleton in Hn as ->. exists (n + 1). split; [lia|done].
  - destruct (IH _ Hn) as (j & Hj & ->). exists j. split; [lia|done].
Qed.

Lemma chunks_written_NoDup self src (n : Z) (ws : list Window) :
  0 ≤ n → NoDup (chunks_written self src n ws).*1.
Proof.
  revert n. induction ws as [|w ws IH]; intros n Hn; [constructor|].
  cbn [chunks_written]. rewrite fmap_app. apply NoDup_app. split_and!.
  - destruct (rows_to_write _); [apply NoDup_singleton|constructor].
  - intros name Hname Hname'.
    destruct (rows_to_write _); [|by apply elem_of_nil in Hname].
    apply list_elem_of_singleton in Hname as ->.
    apply chunks_written_names in Hname' as (j & Hj & E).
    apply chunk_name_inj in E; lia.
  - apply IH. lia.
Qed.

Lemma put_files_empty (l : list (string * ChunkFile F)) :
  put_files l ∅ = list_to_map (reverse l).
Proof.
  induction l as [|p l IH] using rev_ind; [done|].
  rewrite put_files_app, reverse_app, IH. done.
Qed.

(** The rows of the written chunks are the rows of the raster. *)
Lemma chunks_written_rows self src (n : Z) (ws : list Window) :
  (chunks_written self src n ws ≫=
     λ p, match p.2 with CsvGz rows => rows | _ => [] end)
  = ws ≫= λ w, default [] (chunk_table self src w).
Proof.
  revert n. induction ws as [|w ws IH]; intros n; [done|].
  cbn [chunks_written]. rewrite bind_app, IH. csimpl. f_equal.
  unfold rows_to_write. destruct (chunk_table self src w) as [rows|]; [|done].
  destruct rows; [done|]. cbn. by rewrite app_nil_r.
Qed.
End Pipeline.

Section Pipeline2.
Context {F : Type} `{FloatLe F}.
Implicit Types (self : Processor F) (src : Raster F) (st : Scan F) (fs : FS F)
  (d : ChunksDir F) (w : Window) (env : Env F).

Lemma bind_ext_in {A B} (f g : A → list B) (l : list A) :
  (∀ x, x ∈ l → f x = g x) → l ≫= f = l ≫= g.
Proof.
  intros E. induction l as [|a l IH]; csimpl; [done|].
  rewrite E by (by left). rewrite IH; [done|]. intros x Hx. apply E. by right.
Qed.

Lemma filter_all {A} (P : A → Prop) `{∀ x, Decision (P x)} (l : list A) :
  (∀ x, x ∈ l → P x) → filter P l = l.
Proof.
  intros HP. induction l as [|a l IH]; [done|].
  rewrite filter_cons, decide_True by (apply HP; by left).
  rewrite IH; [done|]. intros x Hx. apply HP. by right.
Qed.

Lemma chunks_written_files self src (n : Z) (ws : list Window) p :
  p ∈ chunks_written self src n ws → ∃ rows, p.2 = CsvGz rows.
Proof.
  revert n. induction ws as [|w ws IH]; intros n; [by intros ?%elem_of_nil|].
  cbn [chunks_written]. rewrite elem_of_app. intros [Hp|Hp]; [|by eapply IH].
  destruct (rows_to_write _) as [rows|]; [|by apply elem_of_nil in Hp].
  apply list_elem_of_singleton in Hp as ->. by exists rows.
Qed.

(** The rows a merge takes from a directory that holds exactly the chunks
    written for [ws], when no append fails. *)
Lemma good_rows_of_written self src env d (n : Z) (ws : list Window) :
  0 ≤ n → (∀ name, append_fails env name = false) →
  chunk_files d = put_files (chunks_written self src n ws) ∅ →
  good_rows env d (listing d) ≡ₚ ws ≫= λ w, default [] (chunk_table self src w).
Proof.
  intros Hn Happ Hcf.
  set (ps := chunks_written self src n ws) in *.
  pose proof (chunks_written_NoDup self src n ws Hn) as Hnd. fold ps in Hnd.
  rewrite put_files_empty in Hcf.
  assert (Hnd' : NoDup (reverse ps).*1).
  { rewrite fmap_reverse. by rewrite reverse_Permutation. }
  assert (Hlist : listing d ≡ₚ ps.*1).
  { unfold listing, Py.sorted. rewrite merge_sort_Permutation.
    rewrite filter_all.
    - rewrite Hcf, (map_to_list_to_map _ Hnd'). by rewrite reverse_Permutation.
    - intros name Hname. rewrite Hcf, (map_to_list_to_map _ Hnd') in Hname.
      rewrite fmap_reverse, elem_of_reverse in Hname.
      apply chunks_written_names in Hname as (j & _ & ->).
      by rewrite chunk_name_matches_glob. }
  unfold good_rows. rewrite Hlist, list_fmap_bind.
  rewrite <-(chunks_written_rows self src n ws). fold ps.
  rewrite (bind_ext_in _ (λ p, match p.2 with CsvGz rows => rows | _ => [] end));
    [done|].
  intros [name c] Hp. cbn [compose fst snd].
  assert (Hlook : chunk_files d !! name = Some c).
  { rewrite Hcf. apply elem_of_list_to_map_1; [done|]. by apply elem_of_reverse. }
  rewrite Hlook, Happ. done.
Qed.
End Pipeline2.

(** Chunk files do not collide and are all found by the merge: two chunk
    numbers from 0 on give [save_chunk] different file names, and every
    such name matches the pattern [chunk_*.csv.gz] of [merge_chunks]. *)
Theorem chunk_files_do_not_collide (n m : Z) :
  0 ≤ n → 0 ≤ m →
  (chunk_name n = chunk_name m ↔ n = m) ∧ matches_glob (chunk_name n) = true.
Proof.
  intros Hn Hm. split; [|apply chunk_name_matches_glob].
  split; [by apply chunk_name_inj|by intros ->].
Qed.


Section ScanThenMerge.
Context {F : Type} `{FloatLe F}.
Implicit Types (self : Processor F) (src : Raster F) (st : Scan F) (fs : FS F)
  (d : ChunksDir F) (w : Window) (env : Env F).

(** A scan of a year from scratch, run to its end, followed by a merge in
    which no append fails, the reopened store reports its rows and the
    removal does not raise: when the raster yields any record at all, the
    merge returns, the store holds the records of all the windows (every
    record once; the chunks come in the order of their file names), the
    metadata counts them, and the chunk directory is gone. *)
Theorem scan_then_merge_stores_every_record self src fs env (year : Z) :
  final_csv fs = false → source_tif fs = Some src → chunks_dir fs = None →
  chunk_size self ≠ 0 →
  (∀ name, append_fails env name = false) →
  (∀ s, reopened_nrows env s = (Z.of_nat ∘ length) <$> data s) →
  rmtree_fails env = false →
  all_rows self src ≠ [] →
  let scanned := disk (final (main self (boot fs None))) in
  let r := merge_chunks env year scanned in
  outcome r = Ok tt ∧ chunks_dir (final r) = None ∧
  ∃ rows md,
    final_h5 (final r) = Some (mkStore (Some rows) (Some md)) ∧
    rows ≡ₚ all_rows self src ∧
    total_records md = Z.of_nat (length (all_rows self src)).
Proof.
  intros Hcsv Hsrc Hdir Hcs Happ Hreopen Hrm Hrows. cbn zeta.
  (* the scan *)
  assert (Hl0 : loaded_last_chunk fs = Some 0)
    by (by rewrite loaded_last_chunk_eq, Hdir).
  destruct (main_ready self src fs 0 Hcsv Hsrc Hcs Hl0 ltac:(lia))
    as (st0 & Hinit & Hr0 & Hn0 & _ & _ & Hmain).
  cbn zeta in Hmain.
  assert (Hst0 : st0 = mkScan default_progress 0
                         (set_chunks_dir (Some empty_dir) fs) None).
  { assert (Hinit' : init (boot fs None) =
      mkRun [EvMkdirChunks]
            (mkScan default_progress 0 (set_chunks_dir (Some empty_dir) fs) None)
            (Ok tt)).
    { unfold init, load_progress, io, mkdir_chunks, boot.
      eapply (bind_ok_run _ _ _ [_] _ _ []).
      { cbn [kill disk]. rewrite Hdir. reflexivity. }
      eapply (bind_ok_run _ _ _ [] _ _ []); reflexivity. }
    rewrite Hinit' in Hinit. by injection Hinit as <-. }
  destruct (ready_alive _ _ Hr0) as (Hkill0 & d0 & Hd0).
  set (total := total_chunks (src_height src) (src_width src) (chunk_size self)) in *.
  destruct (scan_loop_files self src 0 total (windows_of self src) st0 d0)
    as (d' & Hd' & Hq' & Hf'); [done|done|done|lia|].
  assert (Hd0' : d0 = empty_dir).
  { rewrite Hst0 in Hd0. cbn in Hd0. by injection Hd0 as <-. }
  rewrite Hn0, Hd0' in Hf'. cbn [chunk_files empty_dir] in Hf'.
  rewrite Hmain. cbn [final].
  set (scanned := disk (final (scan_loop self src (JInt 0) total
                                 (windows_of self src) st0))) in *.
  (* the rows of the merge *)
  pose proof (good_rows_of_written self src env d' 0 (windows_of self src)
                ltac:(lia) Happ Hf') as Hperm.
  fold (all_rows self src) in Hperm.
  set (rows := good_rows env d' (listing d')) in *.
  assert (Hne : rows ≠ []).
  { intros E. rewrite E in Hperm. apply Permutation_nil_l in Hperm. done. }
  assert (Hlen : length rows = length (all_rows self src))
    by (by rewrite Hperm).
  (* the merge *)
  destruct (merge_chunks_run env year scanned d' Hd') as (evs0 & _ & _ & Hrun).
  cbn zeta in Hrun. fold rows in Hrun.
  destruct (decide (listing d' = [])) as [Hl|Hl].
  { exfalso. apply Hne. unfold rows. by rewrite Hl. }
  rewrite decide_False in Hrun by done.
  assert (Hok : ∀ md q, verifies env (Z.of_nat (length rows))
            (mkFS (final_csv scanned) (Some (mkStore (Some rows) md))
                  (source_tif scanned) q) = true).
  { intros md q. unfold verifies. apply bool_decide_eq_true_2. cbn.
    by rewrite Hreopen. }
  rewrite Hok in Hrun. unfold after_cleanup in Hrun. rewrite Hrm in Hrun.
  rewrite Hrun. cbn [outcome final final_h5 chunks_dir set_chunks_dir].
  split_and!; [done|done|].
  eexists _, _. split_and!; [reflexivity|done|]. cbn. by rewrite Hlen.
Qed.
End ScanThenMerge.


(** ** What the extractor's records look like *)

Lemma background_is_code_0 (c : Z) :
  CDL_CROP_MAPPING !! c = Some "Background"%string → c = 0.
Proof.
  assert (Hall : map_Forall (λ (k : Z) (v : string), v = "Background"%string → k = 0)
                            CDL_CROP_MAPPING).
  { apply (bool_decide_unpack _). vm_compute. exact I. }
  intros Hc. by apply (Hall c _ Hc).
Qed.

Lemma bool_index_positive (vals : list Z) (mask : list bool) (v : Z) :
  v ∈ bool_index vals (zip_with andb ((λ v, 0 <? v) <$> vals) mask) → 0 < v.
Proof.
  unfold bool_index. intros Hv.
  apply list_elem_of_fmap in Hv as ([b v'] & -> & Hp).
  apply list_elem_of_filter in Hp as [Hb Hp]. cbn in Hb. subst b.
  apply list_elem_of_lookup in Hp as [i Hi].
  apply lookup_zip_with_Some in Hi as (b & v'' & [= <- <-] & Hm & Hv).
  apply lookup_zip_with_Some in Hm as (p & q & Hpq & Hpos & _).
  apply list_lookup_fmap_Some in Hpos as (v0 & -> & Hv0).
  rewrite Hv in Hv0. injection Hv0 as <-.
  symmetry in Hpq. apply andb_true_iff in Hpq as [Hpos _].
  by apply Z.ltb_lt.
Qed.

Section Records.
Context {F : Type} `{FloatLe F}.
Implicit Types (self : Processor F) (src : Raster F) (w : Window).

Lemma process_chunk_rows self src w :
  triple (λ _ : Scan F, True) (process_chunk self src w)
         (λ df _, ∀ rows, df = Some rows → Forall (well_formed_row self) rows)
         (λ _, True).
Proof.
  unfold process_chunk.
  apply (triple_try _ _ _ (λ _, True)); [|done|].
  - eapply triple_bind.
    { unfold read_band. eapply triple_bind.
      - by apply (triple_emit _ (λ _ _, True)).
      - intros u. destruct (src_read src w);
          [by apply (triple_ret _ (λ _ _, True))|by apply triple_raise]. }
    intros a. eapply triple_bind.
    { unfold reshape. apply triple_if; intros _;
        [by apply (triple_ret _ (λ _ _, True))|by apply triple_raise]. }
    intros ca_mask.
    eapply (triple_bind _
              (λ m _, m = zip_with andb ((λ v, 0 <? v) <$> flat a) ca_mask)).
    { unfold mask_and. apply triple_if; intros _;
        [by apply triple_raise|by apply triple_ret]. }
    intros valid_mask. apply triple_if; intros _.
    + apply triple_ret. by intros st _ rows [=].
    + apply triple_ret. intros st -> rows [= <-].
      apply Forall_forall. intros r Hr.
      apply elem_of_zip_with in Hr as (code & ll & -> & Hcode & _).
      split_and!; [done| |done]. by eapply bool_index_positive.
  - intros e. eapply triple_bind.
    + by apply (triple_emit _ (λ _ _, True)).
    + intros u. apply triple_ret. by intros st _ rows [=].
Qed.

(** Every record of a chunk carries the year of the processor and a crop
    code above zero, its crop name is the entry of the code in
    [CDL_CROP_MAPPING] (missing when the code has none), and that name is
    never [Background]. *)
Theorem records_are_never_background self src w (rows : list (Row F)) :
  chunk_table self src w = Some rows →
  Forall (λ r, well_formed_row self r ∧ crop_name r ≠ Some "Background"%string) rows.
Proof.
  intros Hrows.
  pose proof (process_chunk_rows self src w (boot no_files None) I) as Ht.
  rewrite process_chunk_run in Ht. cbn [outcome] in Ht.
  specialize (Ht rows Hrows). eapply Forall_impl; [exact Ht|].
  intros r (Hy & Hc & Hn). split; [done|].
  rewrite Hn. intros Hb. apply background_is_code_0 in Hb. lia.
Qed.
End Records.


(** ** The multi-year processor *)

Section AliveRules.
Context {Ev S : Type}.

Lemma alive_ret {A} (a : A) : alive (Ev := Ev) (S := S) (ret a).
Proof. by intros st. Qed.

Lemma alive_raise {A} e : alive (Ev := Ev) (S := S) (raise (A := A) e).
Proof. by intros st. Qed.

Lemma alive_gets {A} (f : S → A) : alive (Ev := Ev) (gets f).
Proof. by intros st. Qed.

Lemma alive_modify (f : S → S) : alive (Ev := Ev) (modify f).
Proof. by intros st. Qed.

Lemma alive_emit (ev : Ev) : alive (S := S) (emit ev).
Proof. by intros st. Qed.

Lemma alive_bind {A B} (m : M Ev S A) (k : A → M Ev S B) :
  alive m → (∀ a, alive (k a)) → alive (bind m k).
Proof.
  intros Hm Hk st. specialize (Hm st). unfold bind.
  destruct (m st) as [ev st' [a|e|]]; cbn [outcome final] in *; [|done..].
  apply Hk.
Qed.

Lemma alive_try {A} (m : M Ev S A) h :
  alive m → (∀ e, alive (h e)) → alive (try_except m h).
Proof.
  intros Hm Hh st. specialize (Hm st). unfold try_except.
  destruct (m st) as [ev st' [a|e|]]; cbn [outcome final] in *; [done| |done].
  apply Hh.
Qed.

Lemma alive_if {A} (b : bool) (m1 m2 : M Ev S A) :
  alive m1 → alive m2 → alive (if b then m1 else m2).
Proof. by destruct b. Qed.

Lemma alive_for_acc {A B} (l : list A) (body : A → B → M Ev S B) (acc : B) :
  (∀ a b, alive (body a b)) → alive (for_acc l body acc).
Proof.
  intros Hb. revert acc. induction l as [|a l IH]; intros acc; [apply alive_ret|].
  cbn [for_acc]. apply alive_bind; [apply Hb|]. intros acc'. apply IH.
Qed.

Lemma alive_for_each {A} (l : list A) (body : A → M Ev S unit) :
  (∀ a, alive (body a)) → alive (for_each l body).
Proof.
  intros Hb. induction l as [|a l IH]; [apply alive_ret|].
  cbn [for_each]. apply alive_bind; [apply Hb|]. intros _. exact IH.
Qed.

(** A [try] whose body is not killed and whose handler returns, returns. *)
Lemma try_returns {A} (m : M Ev S A) h st :
  alive m → (∀ e st', ∃ a, outcome (h e st') = Ok a) →
  ∃ a, outcome (try_except m h st) = Ok a.
Proof.
  intros Hm Hh. specialize (Hm st). unfold try_except.
  destruct (m st) as [ev st' [a|e|]]; cbn [outcome final] in *; [by eexists| |done].
  apply Hh.
Qed.
End AliveRules.

Section MultiFacts.
Context {F : Type}.
Implicit Types (self : Multi.Processor F) (o : Multi.Out F)
  (m : gmap string (Multi.OutFile F)).

Lemma alive_multi_to_csv name (rows : list (Row F)) : alive (Multi.to_csv name rows).
Proof.
  unfold Multi.to_csv. apply alive_bind; [apply alive_emit|]. intros _.
  apply alive_modify.
Qed.

Lemma alive_multi_save_chunk (df : option (list (Row F))) (year n : Z) :
  alive (Multi.save_chunk df year n).
Proof.
  unfold Multi.save_chunk. destruct df; [|apply alive_ret].
  apply alive_if; [apply alive_ret|].
  apply alive_bind; [apply alive_multi_to_csv|]. intros _. apply alive_emit.
Qed.

Lemma alive_multi_process_chunk self src w (year : Z) :
  alive (Multi.process_chunk self src w year).
Proof.
  unfold Multi.process_chunk. apply alive_try.
  - apply alive_bind.
    + apply alive_bind; [apply alive_emit|]. intros _.
      destruct (src_read src w); [apply alive_ret|apply alive_raise].
    + intros a. apply alive_if; apply alive_ret.
  - intros e. apply alive_bind; [apply alive_emit|]. intros _. apply alive_ret.
Qed.

Lemma alive_multi_merge (year : Z) : alive (Multi.merge_year_chunks (F := F) year).
Proof.
  unfold Multi.merge_year_chunks.
  apply alive_bind; [apply alive_emit|]. intros _.
  apply alive_bind; [apply alive_gets|]. intros chunks.
  apply alive_if; [apply alive_ret|].
  apply alive_bind.
  - apply alive_for_acc. intros name dfs.
    apply alive_bind.
    { unfold Multi.read_csv. apply alive_bind; [apply alive_gets|].
      intros [[rows|]|]; [apply alive_ret|apply alive_raise..]. }
    intros df. apply alive_bind; [|intros _; apply alive_ret].
    unfold Multi.unlink. apply alive_bind; [apply alive_gets|].
    intros [file|]; [|apply alive_raise].
    apply alive_bind; [apply alive_emit|]. intros _. apply alive_modify.
  - intros dfs. apply alive_bind; [apply alive_multi_to_csv|]. intros _.
    apply alive_emit.
Qed.

(** [process_single_year] returns whatever happens inside: every exception
    is logged and turned into the result [None]. *)
Lemma process_single_year_returns self (year : Z) o :
  ∃ b, outcome (Multi.process_single_year self year o) = Ok b.
Proof.
  unfold Multi.process_single_year. apply try_returns.
  - apply alive_bind; [apply alive_gets|]. intros done.
    apply alive_if.
    { apply alive_bind; [apply alive_emit|]. intros _. apply alive_ret. }
    apply alive_bind; [apply alive_gets|]. intros [src|].
    2:{ apply alive_bind; [apply alive_emit|]. intros _. apply alive_ret. }
    apply alive_bind; [apply alive_emit|]. intros _.
    apply alive_bind; [apply alive_if; [apply alive_raise|apply alive_ret]|].
    intros total. apply alive_bind.
    { apply alive_for_acc. intros y n. apply alive_for_acc. intros x n'.
      apply alive_bind; [apply alive_if; [apply alive_emit|apply alive_ret]|].
      intros _. apply alive_bind; [apply alive_multi_process_chunk|]. intros df.
      apply alive_bind; [|intros _; apply alive_ret].
      destruct df; [apply alive_multi_save_chunk|apply alive_ret]. }
    intros n. apply alive_bind; [apply alive_multi_merge|]. intros _.
    apply alive_bind; [apply alive_emit|]. intros _. apply alive_ret.
  - intros e st'. by exists false.
Qed.

(** [process_all_years] never raises: a year that fails is logged and the
    loop goes on with the next one. *)
Theorem process_all_years_never_raises self (start_year end_year : Z) o :
  outcome (Multi.process_all_years self start_year end_year o) = Ok tt.
Proof.
  unfold Multi.process_all_years.
  assert (Hloop : ∀ (l : list Z) o',
    outcome (for_each l (λ year,
      let* done := gets (λ o : Multi.Out F,
          bool_decide (is_Some (Multi.out_files o !! Multi.merged_name year))) in
      if done then Multi.log (Multi.MsgSkipping year)
      else Multi.process_single_year self year >> ret tt) o') = Ok tt).
  { induction l as [|y l IH]; intros o'; [done|].
    cbn [for_each]. unfold bind at 1.
    rewrite bind_gets.
    destruct (bool_decide _).
    - cbn [outcome final Multi.log emit]. apply IH.
    - unfold bind at 1.
      destruct (process_single_year_returns self y o') as [b Hb].
      rewrite Hb. cbn [outcome final ret]. apply IH. }
  unfold bind at 1. cbn [outcome final Multi.log emit]. apply Hloop.
Qed.
End MultiFacts.


Section MultiMerge.
Context {F : Type}.
Implicit Types (self : Multi.Processor F) (o : Multi.Out F)
  (m : gmap string (Multi.OutFile F)).

Lemma listing2_NoDup (year : Z) m : NoDup (listing2 year m).
Proof.
  unfold listing2, Py.sorted. rewrite merge_sort_Permutation.
  apply NoDup_filter, NoDup_fst_map_to_list.
Qed.

Lemma listing2_present (year : Z) m n : n ∈ listing2 year m → is_Some (m !! n).
Proof.
  unfold listing2, Py.sorted. rewrite merge_sort_Permutation.
  intros [_ Hn]%list_elem_of_filter.
  apply list_elem_of_fmap in Hn as ([k c] & -> & Hkc).
  apply elem_of_map_to_list in Hkc. cbn. eauto.
Qed.

Lemma listing2_matches (year : Z) m n :
  n ∈ listing2 year m → Multi.matches_glob year n = true.
Proof.
  unfold listing2, Py.sorted. rewrite merge_sort_Permutation.
  intros [Hn _]%list_elem_of_filter. by apply Is_true_true.
Qed.

Lemma readable_prefix_delete m (n : string) (l : list string) :
  n ∉ l → readable_prefix (delete n m) l = readable_prefix m l.
Proof.
  induction l as [|a l IH]; intros Hn; [done|].
  apply not_elem_of_cons in Hn as [Hne Hn]. cbn.
  rewrite lookup_delete_ne by done. destruct (m !! a) as [[rows|]|]; [|done..].
  by rewrite IH.
Qed.

Lemma tables_of_delete m (n : string) (l : list string) :
  n ∉ l → tables_of (delete n m) l = tables_of m l.
Proof.
  induction l as [|a l IH]; intros Hn; [done|].
  apply not_elem_of_cons in Hn as [Hne Hn]. unfold tables_of in *. cbn.
  rewrite lookup_delete_ne by done. by rewrite IH.
Qed.

Lemma first_error_delete m (n : string) (l : list string) :
  n ∉ l → first_error (delete n m) l = first_error m l.
Proof.
  induction l as [|a l IH]; intros Hn; [done|].
  apply not_elem_of_cons in Hn as [Hne Hn]. cbn.
  rewrite lookup_delete_ne by done. destruct (m !! a) as [[rows|e]|]; [|done..].
  by rewrite IH.
Qed.

Lemma first_error_None_prefix m (l : list string) :
  first_error m l = None → readable_prefix m l = l.
Proof.
  induction l as [|a l IH]; [done|]. cbn.
  destruct (m !! a) as [[rows|e]|]; [|done..]. intros E. by rewrite IH.
Qed.

Lemma first_error_Some_prefix m (l : list string) e :
  first_error m l = Some e → readable_prefix m l ≠ l.
Proof.
  induction l as [|a l IH]; [done|]. cbn.
  destruct (m !! a) as [[rows|e']|]; [|done..].
  intros E [= E']. by apply IH.
Qed.

Lemma tables_of_cons m (n : string) (l : list string) rows :
  m !! n = Some (Multi.Csv rows) → tables_of m (n :: l) = rows :: tables_of m l.
Proof. intros Hn. unfold tables_of. cbn. by rewrite Hn. Qed.

Lemma delete_all_lookup (l : list string) : ∀ m n,
  delete_all l m !! n = if decide (n ∈ l) then None else m !! n.
Proof.
  induction l as [|a l IH]; intros m n.
  - by rewrite decide_False by (apply not_elem_of_nil).
  - unfold delete_all. cbn [foldl]. fold (delete_all l (delete a m)).
    rewrite IH. destruct (decide (n ∈ l)) as [Hl|Hl].
    + by rewrite decide_True by (by right).
    + destruct (decide (n = a)) as [->|Hne].
      * rewrite decide_True by (by left). apply lookup_delete_eq.
      * rewrite decide_False by (by intros [?|?]%elem_of_cons).
        by apply lookup_delete_ne.
Qed.

Lemma out_eta o : Multi.set_out_files (Multi.out_files o) o = o.
Proof. by destruct o. Qed.

(** The loop of [merge_year_chunks]: the chunks are read and removed one by
    one, up to the first that cannot be read. *)
Lemma merge_year_loop (l : list string) : ∀ (acc : list (list (Row F))) o,
  NoDup l → (∀ n, n ∈ l → is_Some (Multi.out_files o !! n)) →
  for_acc l
    (λ chunk_file dfs,
       let* df := Multi.read_csv chunk_file in
       Multi.unlink chunk_file >> ret (dfs ++ [df]))
    acc o =
  mkRun (Multi.EvUnlink <$> readable_prefix (Multi.out_files o) l)
        (Multi.set_out_files
           (delete_all (readable_prefix (Multi.out_files o) l) (Multi.out_files o)) o)
        (match first_error (Multi.out_files o) l with
         | None => Ok (acc ++ tables_of (Multi.out_files o) l)
         | Some e => Raised e
         end).
Proof.
  induction l as [|n l IH]; intros acc o Hnd Hpres.
  - cbn. unfold ret. rewrite app_nil_r. by rewrite out_eta.
  - apply NoDup_cons in Hnd as [Hn Hnd].
    destruct (Hpres n ltac:(by left)) as [file Hfile].
    cbn [for_acc readable_prefix first_error]. rewrite Hfile.
    destruct file as [rows|e].
    + set (o1 := Multi.set_out_files (delete n (Multi.out_files o)) o).
      assert (Hstep : (let* df := Multi.read_csv n in
                       Multi.unlink n >> ret (acc ++ [df])) o =
                      mkRun [Multi.EvUnlink n] o1 (Ok (acc ++ [rows]))).
      { eapply (bind_ok_run _ _ _ [] _ _ [_]).
        { unfold Multi.read_csv. rewrite bind_gets, Hfile. reflexivity. }
        eapply (bind_ok_run _ _ _ [_] _ _ []); [|reflexivity].
        unfold Multi.unlink. rewrite bind_gets, Hfile. reflexivity. }
      unfold bind at 1. rewrite Hstep. cbn [outcome final events].
      rewrite IH; [|done|].
      2:{ intros a Ha. cbn. rewrite lookup_delete_ne by (by intros ->).
          apply Hpres. by right. }
      cbn [Multi.out_files o1 Multi.set_out_files].
      rewrite readable_prefix_delete, tables_of_delete, first_error_delete by done.
      cbn [events final outcome fmap list_fmap]. f_equal.
      destruct (first_error (Multi.out_files o) l) as [e|]; [done|].
      rewrite (tables_of_cons _ _ _ _ Hfile). by rewrite <-app_assoc.
    + eapply (bind_raised _ _ _ []).
      eapply (bind_raised _ _ _ []).
      unfold Multi.read_csv. rewrite bind_gets, Hfile. cbn. unfold raise.
      by rewrite out_eta.
Qed.

Lemma prefix_app (a b c : string) :
  String.prefix (a +:+ b) (a +:+ c) = String.prefix b c.
Proof.
  induction a as [|x a IH]; [done|].
  change (String.prefix (String x (a +:+ b)) (String x (a +:+ c)) = String.prefix b c).
  cbn [String.prefix]. destruct (Ascii.ascii_dec x x); [apply IH|done].
Qed.

(** The merged file of a year is not one of its chunk files. *)
Lemma merged_name_not_chunk (year : Z) :
  Multi.matches_glob year (Multi.merged_name year) = false.
Proof. unfold Multi.matches_glob, Multi.merged_name. by rewrite !prefix_app. Qed.

Lemma merged_name_not_listed (year : Z) m : Multi.merged_name year ∉ listing2 year m.
Proof.
  intros H%listing2_matches. by rewrite merged_name_not_chunk in H.
Qed.

Lemma first_error_all m (l : list string) :
  (∀ n, n ∈ l → is_Some (m !! n)) →
  (∀ n e, n ∈ l → m !! n ≠ Some (Multi.BadCsv e)) →
  first_error m l = None.
Proof.
  induction l as [|a l IH]; intros Hp Hr; [done|]. cbn.
  destruct (Hp a ltac:(by left)) as [[rows|e] Ha]; rewrite Ha.
  - apply IH; intros n; intros; [apply Hp|apply Hr]; by right.
  - by destruct (Hr a e ltac:(by left)).
Qed.

Lemma readable_prefix_stops m (l1 l2 : list string) (bad : string) e :
  (∀ n, n ∈ l1 → is_Some (m !! n)) →
  (∀ n e', n ∈ l1 → m !! n ≠ Some (Multi.BadCsv e')) →
  m !! bad = Some (Multi.BadCsv e) →
  readable_prefix m (l1 ++ bad :: l2) = l1 ∧
  first_error m (l1 ++ bad :: l2) = Some e.
Proof.
  induction l1 as [|a l1 IH]; intros Hp Hr Hbad; cbn.
  - by rewrite Hbad.
  - destruct (Hp a ltac:(by left)) as [[rows|e'] Ha]; rewrite Ha.
    + destruct IH as [-> ->]; [| |done|done];
        intros n; intros; [apply Hp|apply Hr]; by right.
    + by destruct (Hr a e' ltac:(by left)).
Qed.

(** The run of [merge_year_chunks] when the year has chunk files. *)
Lemma merge_year_chunks_run (year : Z) o :
  listing2 year (Multi.out_files o) ≠ [] →
  Multi.merge_year_chunks year o =
  let m := Multi.out_files o in
  let l := listing2 year m in
  let pre := readable_prefix m l in
  let final_df := concat (tables_of m l) in
  match first_error m l with
  | None =>
    mkRun (Multi.EvLog (Multi.MsgMerging year) :: (Multi.EvUnlink <$> l) ++
           [Multi.EvToCsv (Multi.merged_name year) final_df;
            Multi.EvLog (Multi.MsgSavedMerged year (length final_df))])
          (Multi.set_out_files
             (<[Multi.merged_name year := Multi.Csv final_df]> (delete_all l m)) o)
          (Ok tt)
  | Some e =>
    mkRun (Multi.EvLog (Multi.MsgMerging year) :: (Multi.EvUnlink <$> pre))
          (Multi.set_out_files (delete_all pre m) o) (Raised e)
  end.
Proof.
  intros Hne. cbn zeta.
  set (m := Multi.out_files o). set (l := listing2 year m).
  unfold Multi.merge_year_chunks.
  assert (Hloop := merge_year_loop l [] o (listing2_NoDup year m)
                     (listing2_present year m)).
  fold m in Hloop. rewrite app_nil_l in Hloop.
  assert (Hlen : (length l =? 0)%nat = false).
  { apply Nat.eqb_neq. intros H0. apply Hne. by apply nil_length_inv. }
  assert (Hhead : ∀ r,
    (if (length l =? 0)%nat then ret tt
     else
       let* dfs := for_acc l
           (λ chunk_file dfs,
              let* df := Multi.read_csv chunk_file in
              Multi.unlink chunk_file >> ret (dfs ++ [df])) [] in
       Multi.to_csv (Multi.merged_name year) (concat dfs) >>
       Multi.log (Multi.MsgSavedMerged year (length (concat dfs)))) o
    = mkRun (events r) (final r) (outcome r) →
    (Multi.log (Multi.MsgMerging year) >>
     let* chunks := Multi.glob_chunks year in
     if (length chunks =? 0)%nat then ret tt
     else
       let* dfs := for_acc chunks
           (λ chunk_file dfs,
              let* df := Multi.read_csv chunk_file in
              Multi.unlink chunk_file >> ret (dfs ++ [df])) [] in
       Multi.to_csv (Multi.merged_name year) (concat dfs) >>
       Multi.log (Multi.MsgSavedMerged year (length (concat dfs)))) o
    = mkRun (Multi.EvLog (Multi.MsgMerging year) :: events r) (final r) (outcome r)).
  { intros r Hr. eapply (bind_ok_run _ _ _ [_]); [reflexivity|].
    unfold Multi.glob_chunks. rewrite bind_gets. exact Hr. }
  rewrite Hlen in Hhead.
  destruct (first_error m l) as [e|] eqn:E.
  2:{ rewrite (first_error_None_prefix _ _ E) in Hloop.
    apply (Hhead (mkRun _ _ _)). cbn [events final outcome].
    eapply (bind_ok_run _ _ _ _ _ _ [_; _]); [exact Hloop|].
    eapply (bind_ok_run _ _ _ [_] _ _ [_]); reflexivity. }
  apply (Hhead (mkRun _ _ _)). cbn [events final outcome].
  eapply (bind_raised _ _ _ _). exact Hloop.
Qed.

(** When every chunk file of the year can be read, [merge_year_chunks]
    writes their rows, in the order of the file names, to the merged file of
    the year, removes the chunk files and leaves every other file alone. *)
Theorem merge_year_chunks_concatenates (year : Z) o :
  listing2 year (Multi.out_files o) ≠ [] →
  (∀ n e, n ∈ listing2 year (Multi.out_files o) →
          Multi.out_files o !! n ≠ Some (Multi.BadCsv e)) →
  outcome (Multi.merge_year_chunks year o) = Ok tt ∧
  Multi.rasters (final (Multi.merge_year_chunks year o)) = Multi.rasters o ∧
  ∀ k, Multi.out_files (final (Multi.merge_year_chunks year o)) !! k =
       if decide (k = Multi.merged_name year)
       then Some (Multi.Csv
              (concat (tables_of (Multi.out_files o)
                                 (listing2 year (Multi.out_files o)))))
       else if decide (k ∈ listing2 year (Multi.out_files o)) then None
       else Multi.out_files o !! k.
Proof.
  intros Hne Hread. rewrite (merge_year_chunks_run year o Hne). cbn zeta.
  rewrite first_error_all by (apply listing2_present || done).
  cbn [outcome final Multi.rasters Multi.out_files Multi.set_out_files].
  split_and!; [done..|]. intros k.
  destruct (decide (k = Multi.merged_name year)) as [->|Hk].
  - apply lookup_insert_eq.
  - rewrite lookup_insert_ne by done. apply delete_all_lookup.
Qed.

(** A chunk file that cannot be parsed makes [merge_year_chunks] raise the
    exception of [pd.read_csv] for that file, with the chunks read before
    it already removed: their rows are in no file any more, and the merged
    file is not written. *)
Theorem merge_year_chunks_loses_read_chunks (year : Z) o
    (l1 l2 : list string) (bad : string) (e : Exn) :
  listing2 year (Multi.out_files o) = l1 ++ bad :: l2 →
  (∀ n e', n ∈ l1 → Multi.out_files o !! n ≠ Some (Multi.BadCsv e')) →
  Multi.out_files o !! bad = Some (Multi.BadCsv e) →
  outcome (Multi.merge_year_chunks year o) = Raised e ∧
  (∀ n, n ∈ l1 →
        Multi.out_files (final (Multi.merge_year_chunks year o)) !! n = None) ∧
  (∀ k, k ∉ l1 →
        Multi.out_files (final (Multi.merge_year_chunks year o)) !! k
        = Multi.out_files o !! k) ∧
  Multi.out_files (final (Multi.merge_year_chunks year o)) !! Multi.merged_name year
  = Multi.out_files o !! Multi.merged_name year.
Proof.
  intros Hl Hread Hbad.
  assert (Hne : listing2 year (Multi.out_files o) ≠ []).
  { rewrite Hl. by destruct l1. }
  assert (Hpre : readable_prefix (Multi.out_files o)
                   (listing2 year (Multi.out_files o)) = l1 ∧
                 first_error (Multi.out_files o)
                   (listing2 year (Multi.out_files o)) = Some e).
  { rewrite Hl. apply readable_prefix_stops; [|done..].
    intros n Hn. apply (listing2_present year). rewrite Hl.
    apply elem_of_app. by left. }
  destruct Hpre as [Hpre Herr].
  assert (Hmerged : Multi.merged_name year ∉ l1).
  { intros Hin. apply (merged_name_not_listed year (Multi.out_files o)).
    rewrite Hl. apply elem_of_app. by left. }
  rewrite (merge_year_chunks_run year o Hne). cbn zeta. rewrite Hpre, Herr.
  cbn [outcome final Multi.rasters Multi.out_files Multi.set_out_files].
  split_and!; [done|..].
  - intros n Hn. rewrite delete_all_lookup. by rewrite decide_True.
  - intros k Hk. rewrite delete_all_lookup. by rewrite decide_False.
  - rewrite delete_all_lookup. by rewrite decide_False.
Qed.
End MultiMerge.


(** ** The years of the multi-year processor do not interfere *)

Lemma pretty_N_char_no_sep (x : N) :
  pretty_N_char x ≠ "_"%char ∧ pretty_N_char x ≠ "."%char.
Proof. unfold pretty_N_char. by repeat case_match. Qed.

Lemma pretty_N_go_no_sep (x : N) : ∀ s, no_sep s → no_sep (pretty_N_go x s).
Proof.
  induction (N.lt_wf_0 x) as [x _ IH]; intros s Hs.
  destruct (decide (0 < x)%N) as [Hx|Hx].
  - rewrite pretty_N_go_step by done. apply IH; [by apply N.div_lt|].
    destruct (pretty_N_char_no_sep (x `mod` 10)). by cbn.
  - replace x with 0%N by lia. by rewrite pretty_N_go_0.
Qed.

Lemma pretty_N_no_sep (x : N) : no_sep (pretty x).
Proof.
  unfold pretty, pretty_N. destruct (decide (x = 0%N)); [by cbn|].
  by apply pretty_N_go_no_sep.
Qed.

Lemma pretty_Z_no_sep (z : Z) : no_sep (pretty z).
Proof.
  destruct z as [|p|p].
  - by cbn.
  - apply (pretty_N_no_sep (N.pos p)).
  - change (no_sep (String "-" (pretty (N.pos p)))).
    cbn [no_sep]. split_and!; [done..|]. apply pretty_N_no_sep.
Qed.

(** Two names that start with separator-free parts, each followed by a
    separator, agree on that part when one is a prefix of the other. *)
Lemma prefix_sep_inv (a : string) : ∀ (a' b b' : string) (d d' : Ascii.ascii),
  no_sep a → no_sep a' →
  (d = "_" ∨ d = ".")%char → (d' = "_" ∨ d' = ".")%char →
  String.prefix (a +:+ String d b) (a' +:+ String d' b') = true →
  a = a' ∧ d = d'.
Proof.
  induction a as [|c a IH]; intros [|c' a'] b b' d d' Ha Ha' Hd Hd' Hp.
  - change (String.prefix (String d b) (String d' b') = true) in Hp.
    cbn [String.prefix] in Hp. by destruct (Ascii.ascii_dec d d').
  - change (String.prefix (String d b) (String c' (a' +:+ String d' b')) = true) in Hp.
    cbn [String.prefix] in Hp. destruct (Ascii.ascii_dec d c') as [<-|]; [|done].
    destruct Ha' as (? & ? & _). by destruct Hd.
  - change (String.prefix (String c (a +:+ String d b)) (String d' b') = true) in Hp.
    cbn [String.prefix] in Hp. destruct (Ascii.ascii_dec c d') as [<-|]; [|done].
    destruct Ha as (? & ? & _). by destruct Hd'.
  - change (String.prefix (String c (a +:+ String d b))
                          (String c' (a' +:+ String d' b')) = true) in Hp.
    cbn [String.prefix] in Hp. destruct (Ascii.ascii_dec c c') as [<-|]; [|done].
    destruct Ha as (_ & _ & Ha), Ha' as (_ & _ & Ha').
    destruct (IH a' b b' d d' Ha Ha' Hd Hd' Hp) as [-> ->]. done.
Qed.

Lemma prefix_refl_app (s t : string) : String.prefix s (s +:+ t) = true.
Proof.
  induction s as [|c s IH]; [by destruct t|].
  change (String.prefix (String c s) (String c (s +:+ t)) = true).
  cbn [String.prefix]. by destruct (Ascii.ascii_dec c c).
Qed.

Lemma string_eq_prefix (s : string) : String.prefix s s = true.
Proof.
  induction s as [|c s IH]; [done|].
  cbn [String.prefix]. by destruct (Ascii.ascii_dec c c).
Qed.

Section MultiNames.

(** The pattern of a year matches the chunk files of that year only. *)
Lemma glob_year_of_chunk (year year' n : Z) :
  Multi.matches_glob year (Multi.chunk_name year' n) = true → year = year'.
Proof.
  unfold Multi.matches_glob, Multi.chunk_name.
  intros [[Hp _]%andb_true_iff _]%andb_true_iff.
  rewrite prefix_app in Hp.
  apply (prefix_sep_inv (pretty year) (pretty year') "chunk_"
           ("chunk_" +:+ Py.fmt_05d n +:+ ".csv") "_" "_") in Hp
    as [Hp _]; [|apply pretty_Z_no_sep..|by left|by left].
  by apply (inj pretty).
Qed.

(** No pattern matches a merged file. *)
Lemma glob_not_merged (year year' : Z) :
  Multi.matches_glob year (Multi.merged_name year') = false.
Proof.
  destruct (Multi.matches_glob _ _) eqn:E; [|done].
  unfold Multi.matches_glob, Multi.merged_name in E.
  apply andb_true_iff in E as [[Hp _]%andb_true_iff _].
  rewrite prefix_app in Hp.
  apply (prefix_sep_inv (pretty year) (pretty year') "chunk_" "csv" "_" ".") in Hp
    as [_ Hp]; [done|apply pretty_Z_no_sep..|by left|by right].
Qed.

Lemma merged_name_inj (year year' : Z) :
  Multi.merged_name year = Multi.merged_name year' → year = year'.
Proof.
  unfold Multi.merged_name. intros E.
  apply (inj (String.app "ca_cdl_data_")) in E.
  apply string_app_inj_r in E. by apply (inj pretty).
Qed.

Lemma chunk_name_not_merged (year year' n : Z) :
  Multi.chunk_name year n ≠ Multi.merged_name year'.
Proof.
  unfold Multi.chunk_name, Multi.merged_name. intros E.
  apply (inj (String.app "ca_cdl_data_")) in E.
  assert (Hp : String.prefix (pretty year +:+ "_chunk_" +:+ Py.fmt_05d n +:+ ".csv")
                             (pretty year' +:+ ".csv") = true)
    by (rewrite E; apply string_eq_prefix).
  apply (prefix_sep_inv (pretty year) (pretty year')
           ("chunk_" +:+ Py.fmt_05d n +:+ ".csv") "csv" "_" ".") in Hp
    as [_ Hp]; [done|apply pretty_Z_no_sep..|by left|by right].
Qed.

End MultiNames.


Section PreservesRules.
Context {Ev S : Type}.
Implicit Types (I : S → Prop).

Lemma preserves_ret {A} I (a : A) : preserves (Ev := Ev) I (ret a).
Proof. by intros st. Qed.

Lemma preserves_raise {A} I e : preserves (Ev := Ev) I (raise (A := A) e).
Proof. by intros st. Qed.

Lemma preserves_gets {A} I (f : S → A) : preserves (Ev := Ev) I (gets f).
Proof. by intros st. Qed.

Lemma preserves_emit I (ev : Ev) : preserves I (emit ev).
Proof. by intros st. Qed.

Lemma preserves_modify I (f : S → S) :
  (∀ st, I st → I (f st)) → preserves (Ev := Ev) I (modify f).
Proof. intros Hf st. apply Hf. Qed.

Lemma preserves_bind {A B} I (m : M Ev S A) (k : A → M Ev S B) :
  preserves I m → (∀ a, preserves I (k a)) → preserves I (bind m k).
Proof.
  intros Hm Hk st HI. specialize (Hm st HI). unfold bind.
  destruct (m st) as [ev st' [a|e|]]; cbn [final] in *; [|done..].
  by apply Hk.
Qed.

Lemma preserves_try {A} I (m : M Ev S A) h :
  preserves I m → (∀ e, preserves I (h e)) → preserves I (try_except m h).
Proof.
  intros Hm Hh st HI. specialize (Hm st HI). unfold try_except.
  destruct (m st) as [ev st' [a|e|]]; cbn [final] in *; [done| |done].
  by apply Hh.
Qed.

Lemma preserves_if {A} I (b : bool) (m1 m2 : M Ev S A) :
  preserves I m1 → preserves I m2 → preserves I (if b then m1 else m2).
Proof. by destruct b. Qed.

Lemma preserves_for_acc {A B} I (l : list A) (body : A → B → M Ev S B) (acc : B) :
  (∀ a b, preserves I (body a b)) → preserves I (for_acc l body acc).
Proof.
  intros Hb. revert acc. induction l as [|a l IH]; intros acc; [apply preserves_ret|].
  cbn [for_acc]. apply preserves_bind; [apply Hb|]. intros acc'. apply IH.
Qed.

Lemma preserves_for_each {A} I (l : list A) (body : A → M Ev S unit) :
  (∀ a, preserves I (body a)) → preserves I (for_each l body).
Proof.
  intros Hb. induction l as [|a l IH]; [apply preserves_ret|].
  cbn [for_each]. apply preserves_bind; [apply Hb|]. intros _. exact IH.
Qed.
End PreservesRules.

Section MultiFrame.
Context {F : Type}.
Implicit Types (self : Multi.Processor F) (o : Multi.Out F)
  (m : gmap string (Multi.OutFile F)).

Lemma readable_prefix_subseteq m (l : list string) (n : string) :
  n ∈ readable_prefix m l → n ∈ l.
Proof.
  induction l as [|a l IH]; cbn; [done|].
  destruct (m !! a) as [[rows|]|]; [|by intros ?%elem_of_nil..].
  intros [->|Hn]%elem_of_cons; [by left|]. right. by apply IH.
Qed.

(** [merge_year_chunks] changes no file but the chunk files of the year and
    the merged file of the year, however it ends. *)
Lemma merge_year_chunks_frame (year : Z) o (k : string) :
  Multi.matches_glob year k = false → k ≠ Multi.merged_name year →
  Multi.out_files (final (Multi.merge_year_chunks year o)) !! k
  = Multi.out_files o !! k.
Proof.
  intros Hk Hne.
  assert (Hnl : k ∉ listing2 year (Multi.out_files o)).
  { intros Hin%listing2_matches. congruence. }
  destruct (decide (listing2 year (Multi.out_files o) = [])) as [E|E].
  - assert (Hrun : Multi.merge_year_chunks year o
                   = mkRun [Multi.EvLog (Multi.MsgMerging year)] o (Ok tt)).
    { unfold Multi.merge_year_chunks.
      eapply (bind_ok_run _ _ _ [_] _ _ []); [reflexivity|].
      unfold Multi.glob_chunks. rewrite bind_gets.
      fold (listing2 year (Multi.out_files o)). rewrite E. reflexivity. }
    by rewrite Hrun.
  - rewrite (merge_year_chunks_run year o E). cbn zeta.
    destruct (first_error _ _); cbn [final Multi.out_files Multi.set_out_files].
    2:{ rewrite lookup_insert_ne by done.
        rewrite delete_all_lookup. by rewrite decide_False. }
    rewrite delete_all_lookup. rewrite decide_False; [done|].
    by intros Hin%readable_prefix_subseteq.
Qed.

(** Merging one year leaves the chunk files and the merged file of every
    other year as they were, whether the merge returns or raises. *)
Theorem merge_year_chunks_keeps_other_years (year year' n : Z) o :
  year' ≠ year →
  Multi.out_files (final (Multi.merge_year_chunks year o)) !! Multi.chunk_name year' n
  = Multi.out_files o !! Multi.chunk_name year' n ∧
  Multi.out_files (final (Multi.merge_year_chunks year o)) !! Multi.merged_name year'
  = Multi.out_files o !! Multi.merged_name year'.
Proof.
  intros Hy. split; apply merge_year_chunks_frame.
  - destruct (Multi.matches_glob _ _) eqn:E; [|done].
    apply glob_year_of_chunk in E. congruence.
  - apply chunk_name_not_merged.
  - apply glob_not_merged.
  - intros E%merged_name_inj. congruence.
Qed.

Lemma to_csv_chunk_preserves (y : Z) file (year n : Z) (rows : list (Row F)) :
  preserves (finished y file) (Multi.to_csv (Multi.chunk_name year n) rows).
Proof.
  unfold Multi.to_csv. apply preserves_bind; [apply preserves_emit|]. intros _.
  apply preserves_modify. intros o Ho. unfold finished in *. cbn.
  rewrite lookup_insert_ne; [done|]. apply chunk_name_not_merged.
Qed.

Lemma process_chunk_preserves (I : Multi.Out F → Prop) self src w (year : Z) :
  preserves I (Multi.process_chunk self src w year).
Proof.
  unfold Multi.process_chunk. apply preserves_try.
  - apply preserves_bind.
    + apply preserves_bind; [apply preserves_emit|]. intros _.
      destruct (src_read src w); [apply preserves_ret|apply preserves_raise].
    + intros a. apply preserves_if; apply preserves_ret.
  - intros e. apply preserves_bind; [apply preserves_emit|]. intros _.
    apply preserves_ret.
Qed.

Lemma process_single_year_preserves (y : Z) file self (year : Z) :
  preserves (finished y file) (Multi.process_single_year self year).
Proof.
  destruct (decide (year = y)) as [->|Hy].
  - intros o Ho. unfold Multi.process_single_year.
    rewrite (try_ext _ (Multi.log (Multi.MsgAlreadyProcessed y) >> ret false)).
    + done.
    + rewrite bind_gets. rewrite bool_decide_eq_true_2; [done|].
      unfold finished in Ho. by rewrite Ho.
  - unfold Multi.process_single_year. apply preserves_try.
    2:{ intros e. apply preserves_bind; [apply preserves_emit|]. intros _.
        apply preserves_bind; [apply preserves_emit|]. intros _.
        apply preserves_ret. }
    apply preserves_bind; [apply preserves_gets|]. intros done.
    apply preserves_if.
    { apply preserves_bind; [apply preserves_emit|]. intros _. apply preserves_ret. }
    apply preserves_bind; [apply preserves_gets|]. intros [src|].
    2:{ apply preserves_bind; [apply preserves_emit|]. intros _. apply preserves_ret. }
    apply preserves_bind; [apply preserves_emit|]. intros _.
    apply preserves_bind;
      [apply preserves_if; [apply preserves_raise|apply preserves_ret]|].
    intros total. apply preserves_bind.
    { apply preserves_for_acc. intros y0 n. apply preserves_for_acc. intros x n'.
      apply preserves_bind;
        [apply preserves_if; [apply preserves_emit|apply preserves_ret]|].
      intros _. apply preserves_bind; [apply process_chunk_preserves|]. intros df.
      apply preserves_bind; [|intros _; apply preserves_ret].
      destruct df as [rows|]; [|apply preserves_ret].
      unfold Multi.save_chunk. apply preserves_if; [apply preserves_ret|].
      apply preserves_bind; [apply to_csv_chunk_preserves|]. intros _.
      apply preserves_emit. }
    intros n. apply preserves_bind.
    { intros o Ho. unfold finished in *.
      rewrite merge_year_chunks_frame; [done|apply glob_not_merged|].
      intros E%merged_name_inj. congruence. }
    intros _. apply preserves_bind; [apply preserves_emit|]. intros _.
    apply preserves_ret.
Qed.

(** A merged file that exists before [process_all_years] is still there
    afterwards with the same content, whatever the range of years and
    whatever happens to the other years. *)
Theorem process_all_years_keeps_finished_years self (start_year end_year y : Z)
    (file : Multi.OutFile F) o :
  Multi.out_files o !! Multi.merged_name y = Some file →
  Multi.out_files (final (Multi.process_all_years self start_year end_year o))
    !! Multi.merged_name y = Some file.
Proof.
  intros Ho. revert o Ho. change (preserves (finished y file)
    (Multi.process_all_years self start_year end_year)).
  unfold Multi.process_all_years.
  apply preserves_bind; [apply preserves_emit|]. intros _.
  apply preserves_for_each. intros year.
  apply preserves_bind; [apply preserves_gets|]. intros done.
  apply preserves_if; [apply preserves_emit|].
  apply preserves_bind; [apply process_single_year_preserves|]. intros _.
  apply preserves_ret.
Qed.
End MultiFrame.


Section MultiExtractor.
Context {F : Type}.
Implicit Types (self : Multi.Processor F) (src : Raster F) (o : Multi.Out F).

(** Whenever the read of a window returns its array (of the window's
    shape), [process_chunk] of the multi-year processor returns exactly one
    record per cell of the window whose value is above zero, in row-major
    order, wherever the cell lies; it returns [None] when no value is above
    zero.  It changes no file. *)
Theorem multi_process_chunk_keeps_positive_cells
    self src (window : Window) (year : Z) (a : Array2) o :
  src_read src window = Some a →
  shape a = (Z.to_nat (height window), Z.to_nat (width window)) →
  length (flat a) = size_of (shape a) →
  let r := Multi.process_chunk self src window year o in
  let recs :=
    multi_record_of self src a window year <$>
      filter (λ rc, 0 < cell_value a window rc) (window_cells window) in
  final r = o ∧ events r = [Multi.EvRead year window] ∧
  outcome r = Ok (match recs with [] => None | _ => Some recs end).
Proof.
  intros Hread Hshape Hlen r recs.
  set (nr := Z.to_nat (height window)) in *.
  set (nc := Z.to_nat (width window)) in *.
  set (cell_of := λ i : nat, (row_off window + Z.of_nat (i / nc),
                              col_off window + Z.of_nat (i mod nc))).
  assert (Hcells : window_cells window = cell_of <$> seq 0 (nr * nc))
    by apply window_cells_flat.
  rewrite Hshape in Hlen. unfold size_of in Hlen. simpl in Hlen.
  assert (Hval : ∀ i, (i < nr * nc)%nat →
            cell_value a window (cell_of i) = default 0 (flat a !! i)).
  { intros i Hi. unfold cell_value, array_get, cell_of. simpl.
    rewrite Hshape. simpl. fold nc.
    assert (nc ≠ 0)%nat by (intros E; rewrite E in Hi; lia).
    pose proof (Nat.div_mod_eq i nc).
    do 2 f_equal. lia. }
  set (mask := (λ v, 0 <? v) <$> flat a).
  assert (Hmlen : length mask = (nr * nc)%nat)
    by (unfold mask; by rewrite length_fmap).
  set (I := filter (λ i, mask !! i = Some true) (seq 0 (length mask))).
  assert (HI : filter (λ rc, 0 < cell_value a window rc) (window_cells window)
               = cell_of <$> I).
  { rewrite Hcells, filter_fmap_list. f_equal. unfold I. rewrite Hmlen.
    apply filter_ext_in. intros i Hi%elem_of_seq.
    unfold mask. rewrite list_lookup_fmap.
    destruct (lookup_lt_is_Some_2 (flat a) i ltac:(lia)) as [v Hv].
    rewrite Hval by lia. rewrite Hv. cbn.
    split.
    - intros Hpos. f_equal. by apply Z.ltb_lt.
    - intros [= Hpos]. by apply Z.ltb_lt. }
  assert (HinI : ∀ i, i ∈ I → (i < nr * nc)%nat).
  { intros i Hi. apply list_elem_of_filter in Hi as [_ Hi%elem_of_seq]. lia. }
  assert (Hrun :
    r = mkRun [Multi.EvRead year window] o
          (Ok (if negb (existsb id mask) then None
               else Some (zip_with
                 (λ code (ll : F * F), mkRow year code ll.1 ll.2 (CDL_CROP_MAPPING !! code))
                 (bool_index (flat a) mask)
                 ((λ xy : F * F, Multi.transformer self xy.1 xy.2) <$>
                  ((λ rc : Z * Z, src_xy src (rc.1 + row_off window) (rc.2 + col_off window)) <$>
                   nonzero (shape a) mask)))))).
  { unfold r, Multi.process_chunk.
    apply try_ok. eapply (bind_ok_run _ _ _ [_] _ _ []).
    - eapply (bind_ok_run _ _ _ [_] _ _ []); [reflexivity|].
      rewrite Hread. reflexivity.
    - fold mask. by destruct (existsb id mask). }
  assert (Hdf : zip_with
                 (λ code (ll : F * F), mkRow year code ll.1 ll.2 (CDL_CROP_MAPPING !! code))
                 (bool_index (flat a) mask)
                 ((λ xy : F * F, Multi.transformer self xy.1 xy.2) <$>
                  ((λ rc : Z * Z, src_xy src (rc.1 + row_off window) (rc.2 + col_off window)) <$>
                   nonzero (shape a) mask)) = recs).
  { unfold recs. rewrite HI.
    rewrite (bool_index_indices 0) by lia. fold I.
    unfold nonzero. fold I. rewrite Hshape. simpl.
    rewrite <-!list_fmap_compose.
    rewrite zip_with_fmap_l, zip_with_fmap_r, zip_with_diag.
    apply list_fmap_ext. intros _ i Hi%list_elem_of_lookup_2. apply HinI in Hi.
    simpl. unfold multi_record_of. rewrite Hval by done.
    unfold cell_of. simpl.
    replace (Z.of_nat (i / nc) + row_off window) with (row_off window + Z.of_nat (i / nc)) by lia.
    replace (Z.of_nat (i mod nc) + col_off window) with (col_off window + Z.of_nat (i mod nc)) by lia.
    done. }
  assert (Hex : existsb id mask = false ↔ recs = []).
  { rewrite existsb_id_indices. fold I. unfold recs. rewrite HI. split.
    - by intros ->.
    - by intros ?%fmap_nil_inv%fmap_nil_inv. }
  rewrite Hrun. cbn [final events outcome]. split_and!; [done..|].
  rewrite Hdf. destruct (existsb id mask) eqn:E; simpl.
  - destruct recs; [|done]. by assert (true = false) by (by apply Hex).
  - by rewrite (proj1 Hex).
Qed.
End MultiExtractor.


(** ** A year of the multi-year processor from the raster to the merged file *)

Section ForAcc.
Context {Ev S : Type}.

Lemma for_acc_ext {A B} (l : list A) (b1 b2 : A → B → M Ev S B) : ∀ acc st,
  (∀ a acc' st', b1 a acc' st' = b2 a acc' st') →
  for_acc l b1 acc st = for_acc l b2 acc st.
Proof.
  induction l as [|a l IH]; intros acc st E; [done|].
  cbn [for_acc]. unfold bind. rewrite E.
  destruct (b2 a acc st) as [ev st' [acc'|e|]]; cbn; [|done..].
  by rewrite IH.
Qed.

Lemma for_acc_app {A B} (l1 l2 : list A) (body : A → B → M Ev S B) : ∀ acc st,
  for_acc (l1 ++ l2) body acc st
  = bind (for_acc l1 body acc) (λ acc', for_acc l2 body acc') st.
Proof.
  induction l1 as [|a l1 IH]; intros acc st; cbn [for_acc app].
  - by rewrite bind_ret_l.
  - rewrite bind_assoc. apply bind_ext. intros acc' st'. apply IH.
Qed.

Lemma for_acc_bind_list {A A' B} (l : list A) (f : A → list A')
    (body : A' → B → M Ev S B) : ∀ acc st,
  for_acc (l ≫= f) body acc st
  = for_acc l (λ a acc', for_acc (f a) body acc') acc st.
Proof.
  induction l as [|a l IH]; intros acc st; csimpl; [done|].
  rewrite for_acc_app. apply bind_ext. intros acc' st'. apply IH.
Qed.

Lemma for_acc_singleton {A B} (a : A) (body : A → B → M Ev S B) acc st :
  for_acc [a] body acc st = body a acc st.
Proof. cbn [for_acc]. apply bind_ret_r. Qed.

(** Runs that return compose. *)
Lemma bind_lands {A B} (m : M Ev S A) (k : A → M Ev S B) st st' a st'' b :
  (∃ ev, m st = mkRun ev st' (Ok a)) → (∃ ev, k a st' = mkRun ev st'' (Ok b)) →
  ∃ ev, bind m k st = mkRun ev st'' (Ok b).
Proof.
  intros [ev E] [ev' E']. exists (ev ++ ev'). by apply (bind_ok_run _ _ _ _ _ _ _ _ _ E).
Qed.
End ForAcc.

Section MultiScan.
Context {F : Type}.
Implicit Types (self : Multi.Processor F) (src : Raster F) (o : Multi.Out F)
  (m : gmap string (Multi.OutFile F)) (w : Window).

(** [process_chunk] returns its table and leaves the files alone, whatever
    they are. *)
Lemma multi_process_chunk_lands self src w (year : Z) o :
  ∃ ev, Multi.process_chunk self src w year o
        = mkRun ev o (Ok (multi_chunk_table self src w year)).
Proof.
  unfold multi_chunk_table, Multi.process_chunk, try_except, bind, emit, raise, ret,
    Multi.log.
  cbn. destruct (src_read src w) as [a|]; cbn.
  - destruct (negb _); cbn; by eexists.
  - by eexists.
Qed.

(** The loops of [process_single_year] are one loop over the windows. *)
Lemma multi_scan_flat self src (year total : Z) o :
  for_acc (Py.range 0 (src_height src) (Multi.chunk_size self))
    (λ y chunk_num,
       let chunk_height := Z.min (Multi.chunk_size self) (src_height src - y) in
       for_acc (Py.range 0 (src_width src) (Multi.chunk_size self))
         (λ x chunk_num,
            let chunk_width := Z.min (Multi.chunk_size self) (src_width src - x) in
            multi_window_step self src year total
              (mkWindow x y chunk_width chunk_height) chunk_num)
         chunk_num)
    0 o
  = for_acc (multi_windows self src) (multi_window_step self src year total) 0 o.
Proof.
  unfold multi_windows, grid_windows. rewrite for_acc_bind_list.
  apply for_acc_ext. intros y n st. cbn zeta.
  rewrite for_acc_bind_list. apply for_acc_ext. intros x n' st'.
  by rewrite for_acc_singleton.
Qed.

Lemma multi_put_app (l k : list (string * list (Row F))) m :
  multi_put (l ++ k) m = multi_put k (multi_put l m).
Proof. apply foldl_app. Qed.

Lemma multi_window_step_lands self src (year total n : Z) w o :
  ∃ ev, multi_window_step self src year total w n o
        = mkRun ev
            (Multi.set_out_files
               (multi_put (multi_chunks_written self src year n [w]) (Multi.out_files o)) o)
            (Ok (n + 1)).
Proof.
  unfold multi_window_step. cbn zeta.
  eapply (bind_lands _ _ _ o tt).
  { destruct (_ =? _); by eexists. }
  eapply bind_lands; [apply multi_process_chunk_lands|].
  eapply bind_lands; [|by eexists].
  cbn [multi_chunks_written]. rewrite app_nil_r. unfold rows_to_write.
  destruct (multi_chunk_table self src w year) as [rows|].
  2:{ exists []. cbn. unfold ret. by rewrite out_eta. }
  unfold Multi.save_chunk. destruct (length rows =? 0)%nat.
  { exists []. cbn. unfold ret. by rewrite out_eta. }
  eexists. reflexivity.
Qed.

Lemma multi_scan_lands self src (year total : Z) (ws : list Window) : ∀ (n : Z) o,
  ∃ ev, for_acc ws (multi_window_step self src year total) n o
        = mkRun ev
            (Multi.set_out_files
               (multi_put (multi_chunks_written self src year n ws) (Multi.out_files o)) o)
            (Ok (n + Z.of_nat (length ws))).
Proof.
  induction ws as [|w ws IH]; intros n o.
  - exists []. cbn. unfold ret. rewrite out_eta. do 2 f_equal. lia.
  - cbn [for_acc]. eapply bind_lands; [apply multi_window_step_lands|].
    destruct (IH (n + 1) (Multi.set_out_files
               (multi_put (multi_chunks_written self src year n [w]) (Multi.out_files o)) o))
      as [ev E].
    exists ev. rewrite E.
    cbn [Multi.out_files Multi.set_out_files Multi.rasters multi_chunks_written length].
    rewrite app_nil_r, multi_put_app.
    replace (n + 1 + Z.of_nat (length ws)) with (n + Z.of_nat (S (length ws))) by lia.
    reflexivity.
Qed.
End MultiScan.


Section MultiYear.
Context {F : Type}.
Implicit Types (self : Multi.Processor F) (src : Raster F) (o : Multi.Out F)
  (m : gmap string (Multi.OutFile F)) (w : Window).

Lemma multi_chunk_name_inj (year n n' : Z) :
  0 ≤ n → 0 ≤ n' → Multi.chunk_name year n = Multi.chunk_name year n' → n = n'.
Proof.
  intros Hn Hn' E. unfold Multi.chunk_name, Py.fmt_05d in E.
  rewrite !(proj2 (Z.ltb_ge _ _)) in E by done.
  apply (inj (String.app "ca_cdl_data_")) in E.
  apply (inj (String.app (pretty year))) in E.
  apply (inj (String.app "_chunk_")) in E.
  apply string_app_inj_r in E. rewrite !zfill_unfold in E.
  apply zeros_app_inj in E; [|by apply pretty_canonical..].
  by apply (inj pretty).
Qed.

Lemma string_app_assoc (s t u : string) : (s +:+ t) +:+ u = s +:+ t +:+ u.
Proof.
  induction s as [|c s IH]; [done|].
  change (String c ((s +:+ t) +:+ u) = String c (s +:+ t +:+ u)). by rewrite IH.
Qed.

(** The pattern of a year matches every chunk file of the year. *)
Lemma multi_chunk_name_matches (year n : Z) :
  Multi.matches_glob year (Multi.chunk_name year n) = true.
Proof.
  unfold Multi.matches_glob, Multi.chunk_name.
  rewrite <-!string_app_assoc.
  rewrite endswith_app.
  rewrite (string_app_assoc _ (Py.fmt_05d n) ".csv").
  rewrite prefix_refl_app. cbn [andb].
  apply Nat.leb_le. rewrite !string_length_app. cbn. lia.
Qed.

Lemma elem_of_listing2 (year : Z) m (k : string) :
  k ∈ listing2 year m ↔ Multi.matches_glob year k = true ∧ is_Some (m !! k).
Proof.
  unfold listing2, Py.sorted. rewrite merge_sort_Permutation.
  rewrite list_elem_of_filter, Is_true_true. apply and_iff_compat_l.
  rewrite list_elem_of_fmap. split.
  - intros ([k' c] & -> & Hkc%elem_of_map_to_list). cbn. eauto.
  - intros [c Hc]. exists (k, c). split; [done|]. by apply elem_of_map_to_list.
Qed.

Lemma multi_written_names self src (year n : Z) (ws : list Window) name :
  name ∈ (multi_chunks_written self src year n ws).*1 →
  ∃ j, n < j ∧ name = Multi.chunk_name year j.
Proof.
  revert n. induction ws as [|w ws IH]; intros n; [by intros ?%elem_of_nil|].
  cbn [multi_chunks_written]. rewrite fmap_app, elem_of_app. intros [Hn|Hn].
  - destruct (rows_to_write _); [|by apply elem_of_nil in Hn].
    apply list_elem_of_singleton in Hn as ->. exists (n + 1). split; [lia|done].
  - destruct (IH _ Hn) as (j & Hj & ->). exists j. split; [lia|done].
Qed.

Lemma multi_written_NoDup self src (year n : Z) (ws : list Window) :
  0 ≤ n → NoDup (multi_chunks_written self src year n ws).*1.
Proof.
  revert n. induction ws as [|w ws IH]; intros n Hn; [constructor|].
  cbn [multi_chunks_written]. rewrite fmap_app. apply NoDup_app. split_and!.
  - destruct (rows_to_write _); [apply NoDup_singleton|constructor].
  - intros name Hname Hname'.
    destruct (rows_to_write _); [|by apply elem_of_nil in Hname].
    apply list_elem_of_singleton in Hname as ->.
    apply multi_written_names in Hname' as (j & Hj & E).
    apply multi_chunk_name_inj in E; lia.
  - apply IH. lia.
Qed.

(** The rows of the written chunks are the rows of the raster. *)
Lemma multi_written_rows self src (year n : Z) (ws : list Window) :
  concat (multi_chunks_written self src year n ws).*2
  = ws ≫= λ w, default [] (multi_chunk_table self src w year).
Proof.
  revert n. induction ws as [|w ws IH]; intros n; [done|].
  cbn [multi_chunks_written]. rewrite fmap_app, concat_app, IH. csimpl. f_equal.
  unfold rows_to_write. destruct (multi_chunk_table self src w year) as [rows|]; [|done].
  destruct rows; [done|]. cbn. by rewrite app_nil_r.
Qed.

Lemma multi_put_snoc (l : list (string * list (Row F))) p m :
  multi_put (l ++ [p]) m = <[p.1 := Multi.Csv p.2]> (multi_put l m).
Proof. by rewrite multi_put_app. Qed.

Lemma multi_put_lookup_ne (l : list (string * list (Row F))) m (k : string) :
  k ∉ l.*1 → multi_put l m !! k = m !! k.
Proof.
  induction l as [|p l IH] using rev_ind; intros Hk; [done|].
  rewrite fmap_app, elem_of_app in Hk. rewrite multi_put_snoc.
  rewrite lookup_insert_ne.
  - apply IH. tauto.
  - intros E. apply Hk. right. rewrite <-E. cbn. by left.
Qed.

Lemma multi_put_lookup (l : list (string * list (Row F))) m (k : string) rows :
  NoDup l.*1 → (k, rows) ∈ l → multi_put l m !! k = Some (Multi.Csv rows).
Proof.
  induction l as [|p l IH] using rev_ind; intros Hnd Hk; [by apply elem_of_nil in Hk|].
  rewrite fmap_app in Hnd. apply NoDup_app in Hnd as (Hnd & Hdis & _).
  rewrite multi_put_snoc. apply elem_of_app in Hk as [Hk|Hk].
  - rewrite lookup_insert_ne; [by apply IH|].
    intros E. apply (Hdis k).
    + apply list_elem_of_fmap. by exists (k, rows).
    + rewrite <-E. cbn. by left.
  - apply list_elem_of_singleton in Hk as <-. cbn. apply lookup_insert_eq.
Qed.

Lemma tables_of_written (l : list (string * list (Row F))) m :
  (∀ p, p ∈ l → m !! p.1 = Some (Multi.Csv p.2)) → tables_of m l.*1 = l.*2.
Proof.
  induction l as [|p l IH]; intros Hl; [done|]. rewrite !fmap_cons.
  rewrite (tables_of_cons _ _ _ p.2) by (apply Hl; by left).
  rewrite IH; [done|]. intros q Hq. apply Hl. by right.
Qed.

Lemma tables_of_Permutation m (l l' : list string) :
  l ≡ₚ l' → tables_of m l ≡ₚ tables_of m l'.
Proof. intros Hl. unfold tables_of. by rewrite Hl. Qed.

Lemma concat_Permutation_tables (t t' : list (list (Row F))) :
  t ≡ₚ t' → concat t ≡ₚ concat t'.
Proof. intros Ht. by rewrite Ht. Qed.
End MultiYear.


Section MultiEndToEnd.
Context {F : Type}.
Implicit Types (self : Multi.Processor F) (src : Raster F) (o : Multi.Out F)
  (m : gmap string (Multi.OutFile F)) (w : Window).

(** After the scan of a year that had no chunk files, the chunk files of
    the year are the ones the scan wrote. *)
Lemma listing2_after_scan self src (year : Z) m :
  listing2 year m = [] →
  listing2 year (multi_put (multi_chunks_written self src year 0 (multi_windows self src)) m)
  ≡ₚ (multi_chunks_written self src year 0 (multi_windows self src)).*1.
Proof.
  intros Hstale.
  apply NoDup_Permutation; [apply listing2_NoDup|by apply multi_written_NoDup|].
  intros k. rewrite elem_of_listing2. split.
  - intros [Hk Hin].
    destruct (decide (k ∈ (multi_chunks_written self src year 0 (multi_windows self src)).*1))
      as [|Hnot]; [done|].
    rewrite multi_put_lookup_ne in Hin by done.
    assert (Hl : k ∈ listing2 year m) by (by apply elem_of_listing2).
    rewrite Hstale in Hl. by apply elem_of_nil in Hl.
  - intros Hk. split.
    + apply multi_written_names in Hk as (j & _ & ->).
      apply multi_chunk_name_matches.
    + apply list_elem_of_fmap in Hk as ([k' rows] & -> & Hin).
      rewrite (multi_put_lookup _ _ k' rows); [done| |done].
      by apply multi_written_NoDup.
Qed.

(** A year from the raster to the merged file.  When the year has no merged
    file and no chunk files yet, its raster is there, the chunk size is not
    zero and the raster yields a record, [process_single_year] returns [True],
    the merged file of the year holds the records of all the windows, every
    record once, and every other file is as it was before: the chunk files
    written on the way are gone. *)
Theorem process_single_year_merges_every_record self (year : Z) src o :
  Multi.out_files o !! Multi.merged_name year = None →
  Multi.rasters o !! year = Some src →
  Multi.chunk_size self ≠ 0 →
  listing2 year (Multi.out_files o) = [] →
  multi_all_rows self src year ≠ [] →
  let r := Multi.process_single_year self year o in
  outcome r = Ok true ∧ Multi.rasters (final r) = Multi.rasters o ∧
  (∃ rows, Multi.out_files (final r) !! Multi.merged_name year
             = Some (Multi.Csv rows) ∧
           rows ≡ₚ multi_all_rows self src year) ∧
  ∀ k, k ≠ Multi.merged_name year →
       Multi.out_files (final r) !! k = Multi.out_files o !! k.
Proof.
  intros Hnew Hsrc Hcs Hstale Hrows. cbn zeta.
  set (m0 := Multi.out_files o) in *.
  set (W := multi_chunks_written self src year 0 (multi_windows self src)).
  set (m1 := multi_put W m0).
  set (o1 := Multi.set_out_files m1 o).
  set (l := listing2 year m1).
  set (final_df := concat (tables_of m1 l)).
  set (o2 := Multi.set_out_files
               (<[Multi.merged_name year := Multi.Csv final_df]> (delete_all l m1)) o1).
  assert (HWnd : NoDup W.*1) by (by apply multi_written_NoDup).
  assert (Hl : l ≡ₚ W.*1) by (by apply listing2_after_scan).
  assert (HW : ∀ p, p ∈ W → m1 !! p.1 = Some (Multi.Csv p.2)).
  { intros [k rows] Hp. by apply multi_put_lookup. }
  assert (Hall : concat W.*2 = multi_all_rows self src year)
    by apply multi_written_rows.
  assert (Hne : l ≠ []).
  { intros E. rewrite E in Hl. apply Permutation_nil in Hl.
    apply fmap_nil_inv in Hl. apply Hrows. rewrite <-Hall, Hl. done. }
  assert (Hread : first_error m1 l = None).
  { apply first_error_all; [apply listing2_present|].
    intros k e Hk. rewrite Hl in Hk.
    apply list_elem_of_fmap in Hk as (p & -> & Hp). by rewrite (HW p Hp). }
  (* the merge after the scan *)
  assert (Hmerge : ∃ ev, Multi.merge_year_chunks year o1 = mkRun ev o2 (Ok tt)).
  { eexists. rewrite (merge_year_chunks_run year o1 Hne). cbn zeta.
    cbn [Multi.out_files o1 Multi.set_out_files]. fold l.
    rewrite Hread. reflexivity. }
  (* the body of the [try] *)
  assert (Hrun : ∃ ev, Multi.process_single_year self year o = mkRun ev o2 (Ok true)).
  { unfold Multi.process_single_year.
    cut (∃ ev,
      (let* done := gets (λ o : Multi.Out F,
           bool_decide (is_Some (Multi.out_files o !! Multi.merged_name year))) in
       if done then Multi.log (Multi.MsgAlreadyProcessed year) >> ret false
       else
         let* file := gets (λ o : Multi.Out F, Multi.rasters o !! year) in
         match file with
         | None => Multi.log (Multi.MsgNotFound year) >> ret false
         | Some src =>
             Multi.log (Multi.MsgProcessing year) >>
             let* total_chunks :=
               (if Multi.chunk_size self =? 0 then raise ZeroDivisionError
                else ret (total_chunks (src_height src) (src_width src)
                            (Multi.chunk_size self))) in
             for_acc (Py.range 0 (src_height src) (Multi.chunk_size self))
               (λ y chunk_num,
                  let chunk_height :=
                    Z.min (Multi.chunk_size self) (src_height src - y) in
                  for_acc (Py.range 0 (src_width src) (Multi.chunk_size self))
                    (λ x chunk_num,
                       let chunk_width :=
                         Z.min (Multi.chunk_size self) (src_width src - x) in
                       multi_window_step self src year total_chunks
                         (mkWindow x y chunk_width chunk_height) chunk_num)
                    chunk_num)
               0 >>
             Multi.merge_year_chunks year >>
             Multi.log (Multi.MsgComplete year) >>
             ret true
         end) o = mkRun ev o2 (Ok true)).
    { intros [ev E]. exists ev. by apply try_ok. }
    rewrite bind_gets. fold m0. rewrite Hnew.
    rewrite bool_decide_eq_false_2 by (by intros [? [=]]).
    rewrite bind_gets, Hsrc.
    eapply (bind_lands _ _ _ o tt); [by eexists|].
    eapply bind_lands.
    { rewrite (proj2 (Z.eqb_neq _ _)) by done. by eexists. }
    eapply bind_lands.
    { destruct (multi_scan_lands self src year
                  (total_chunks (src_height src) (src_width src) (Multi.chunk_size self))
                  (multi_windows self src) 0 o) as [ev E].
      exists ev. rewrite multi_scan_flat. exact E. }
    eapply bind_lands; [exact Hmerge|].
    eapply (bind_lands _ _ _ o2 tt); by eexists. }
  destruct Hrun as [ev ->]. cbn [outcome final].
  split_and!; [done|done| |].
  - exists final_df. split; [apply lookup_insert_eq|].
    rewrite <-Hall. unfold final_df.
    rewrite (concat_Permutation_tables _ _ (tables_of_Permutation m1 _ _ Hl)).
    by rewrite (tables_of_written W m1 HW).
  - intros k Hk. cbn [o2 o1 Multi.out_files Multi.set_out_files].
    rewrite lookup_insert_ne by done. rewrite delete_all_lookup.
    destruct (decide (k ∈ l)) as [Hin|Hin].
    + symmetry. apply elem_of_listing2 in Hin as [Hglob _].
      destruct (m0 !! k) eqn:Hm0; [|done].
      assert (Hk0 : k ∈ listing2 year m0) by (apply elem_of_listing2; eauto).
      rewrite Hstale in Hk0. by apply elem_of_nil in Hk0.
    + apply multi_put_lookup_ne. by rewrite <-Hl.
Qed.
End MultiEndToEnd.


Section MultiNoRecords.
Context {F : Type}.
Implicit Types (self : Multi.Processor F) (src : Raster F) (o : Multi.Out F)
  (m : gmap string (Multi.OutFile F)) (w : Window).

Lemma merge_year_chunks_no_chunks (year : Z) o :
  listing2 year (Multi.out_files o) = [] →
  Multi.merge_year_chunks year o
  = mkRun [Multi.EvLog (Multi.MsgMerging year)] o (Ok tt).
Proof.
  intros E. unfold Multi.merge_year_chunks.
  eapply (bind_ok_run _ _ _ [_] _ _ []); [reflexivity|].
  unfold Multi.glob_chunks. rewrite bind_gets.
  fold (listing2 year (Multi.out_files o)). rewrite E. reflexivity.
Qed.

Lemma multi_written_nonempty self src (year n : Z) (ws : list Window) p :
  p ∈ multi_chunks_written self src year n ws → p.2 ≠ [].
Proof.
  revert n. induction ws as [|w ws IH]; intros n; [by intros ?%elem_of_nil|].
  cbn [multi_chunks_written]. rewrite elem_of_app. intros [Hp|Hp]; [|by eapply IH].
  unfold rows_to_write in Hp.
  destruct (multi_chunk_table self src w year) as [rows|];
    [|by apply elem_of_nil in Hp].
  destruct rows as [|r rows]; [by apply elem_of_nil in Hp|].
  cbn in Hp. by apply list_elem_of_singleton in Hp as ->.
Qed.

(** A year whose raster yields no record (no cell above zero, no window
    that can be read, or a negative chunk size, for which the loops have no
    turn): [process_single_year] returns [True] without writing any file.
    No merged file marks the year as done, so every later run scans it
    again. *)
Theorem process_single_year_without_records self (year : Z) src o :
  Multi.out_files o !! Multi.merged_name year = None →
  Multi.rasters o !! year = Some src →
  Multi.chunk_size self ≠ 0 →
  listing2 year (Multi.out_files o) = [] →
  multi_all_rows self src year = [] →
  outcome (Multi.process_single_year self year o) = Ok true ∧
  final (Multi.process_single_year self year o) = o.
Proof.
  intros Hnew Hsrc Hcs Hstale Hrows.
  set (W := multi_chunks_written self src year 0 (multi_windows self src)).
  assert (HW : W = []).
  { pose proof (multi_written_rows self src year 0 (multi_windows self src)) as Hall.
    fold W in Hall. fold (multi_all_rows self src year) in Hall.
    rewrite Hrows in Hall.
    destruct W as [|p W'] eqn:EW; [done|].
    assert (Hp : p.2 ≠ []).
    { apply (multi_written_nonempty self src year 0 (multi_windows self src)).
      fold W. rewrite EW. by left. }
    rewrite fmap_cons in Hall. cbn [concat] in Hall.
    by apply app_eq_nil in Hall as [? _]. }
  assert (Hrun : ∃ ev, Multi.process_single_year self year o = mkRun ev o (Ok true)).
  { unfold Multi.process_single_year.
    cut (∃ ev,
      (let* done := gets (λ o : Multi.Out F,
           bool_decide (is_Some (Multi.out_files o !! Multi.merged_name year))) in
       if done then Multi.log (Multi.MsgAlreadyProcessed year) >> ret false
       else
         let* file := gets (λ o : Multi.Out F, Multi.rasters o !! year) in
         match file with
         | None => Multi.log (Multi.MsgNotFound year) >> ret false
         | Some src =>
             Multi.log (Multi.MsgProcessing year) >>
             let* total_chunks :=
               (if Multi.chunk_size self =? 0 then raise ZeroDivisionError
                else ret (total_chunks (src_height src) (src_width src)
                            (Multi.chunk_size self))) in
             for_acc (Py.range 0 (src_height src) (Multi.chunk_size self))
               (λ y chunk_num,
                  let chunk_height :=
                    Z.min (Multi.chunk_size self) (src_height src - y) in
                  for_acc (Py.range 0 (src_width src) (Multi.chunk_size self))
                    (λ x chunk_num,
                       let chunk_width :=
                         Z.min (Multi.chunk_size self) (src_width src - x) in
                       multi_window_step self src year total_chunks
                         (mkWindow x y chunk_width chunk_height) chunk_num)
                    chunk_num)
               0 >>
             Multi.merge_year_chunks year >>
             Multi.log (Multi.MsgComplete year) >>
             ret true
         end) o = mkRun ev o (Ok true)).
    { intros [ev E]. exists ev. by apply try_ok. }
    rewrite bind_gets, Hnew.
    rewrite bool_decide_eq_false_2 by (by intros [? [=]]).
    rewrite bind_gets, Hsrc.
    eapply (bind_lands _ _ _ o tt); [by eexists|].
    eapply bind_lands.
    { rewrite (proj2 (Z.eqb_neq _ _)) by done. by eexists. }
    eapply (bind_lands _ _ _ o).
    { destruct (multi_scan_lands self src year
                  (total_chunks (src_height src) (src_width src) (Multi.chunk_size self))
                  (multi_windows self src) 0 o) as [ev E].
      exists ev. rewrite multi_scan_flat, E. fold W. rewrite HW.
      cbn [multi_put foldl]. by rewrite out_eta. }
    eapply (bind_lands _ _ _ o tt).
    { eexists. by apply merge_year_chunks_no_chunks. }
    eapply (bind_lands _ _ _ o tt); by eexists. }
  destruct Hrun as [ev ->]. done.
Qed.
End MultiNoRecords.


(** ** A scan killed at any point, and resumed (C2) *)

Section KillSteps.
Context {F : Type} `{FloatLe F}.
Implicit Types (self : Processor F) (src : Raster F) (st : Scan F) (fs : FS F)
  (d : ChunksDir F) (w : Window).

Lemma bind_ok_fo {Ev S A B} (m : M Ev S A) (k : A → M Ev S B) s ev s' a :
  m s = mkRun ev s' (Ok a) →
  final (bind m k s) = final (k a s') ∧ outcome (bind m k s) = outcome (k a s').
Proof. intros E. unfold bind. by rewrite E. Qed.

Lemma with_kill_same st : with_kill (kill st) st = st.
Proof. by destruct st. Qed.

(** Writing the chunk of a turn, under any kill budget: it is written in
    full, or the process is killed before the file is created or before it
    is complete. *)
Lemma save_if_table_kill st d (n : Z) (df : option (list (Row F))) :
  chunks_dir (disk st) = Some d →
  let r := (match df with
            | Some _ => save_chunk df n
            | None => ret tt
            end) st in
  (∃ k', outcome r = Ok tt ∧
         final r = mkScan (progress st) (chunk_num st)
                     (set_chunks_dir (Some (with_chunk n df d)) (disk st)) k') ∨
  (outcome r = Killed ∧ mid_turn n df (disk st) (disk (final r))).
Proof.
  intros Hd r. unfold r.
  destruct st as [p c fs k]. cbn [disk progress chunk_num] in *.
  assert (Hfs : set_chunks_dir (Some d) fs = fs).
  { destruct fs as [a b t dd]. cbn in *. by subst. }
  unfold with_chunk, mid_turn, rows_to_write.
  destruct df as [rows|]; [|left; exists k; by rewrite Hfs].
  unfold save_chunk.
  destruct (length rows =? 0)%nat; [left; exists k; by rewrite Hfs|].
  unfold bind, io, write_file, in_chunks_dir, log, emit.
  cbn [kill disk progress chunk_num].
  destruct k as [[|[|j]]|]; cbn; rewrite ?Hd; cbn.
  - right. split; [done|]. by left.
  - right. split; [done|]. right. split; [done|]. by exists d, (Unreadable EmptyDataError).
  - left. exists (Some j). split; [done|].
    unfold set_chunk_files, set_chunks_dir. cbn. by rewrite insert_insert_eq.
  - left. exists None. split; [done|].
    unfold set_chunk_files, set_chunks_dir. cbn. by rewrite insert_insert_eq.
Qed.

(** Saving the checkpoint, under any kill budget: it is saved, or the
    process is killed before the file is opened, which leaves the files as
    they are, or before the dump is complete, which leaves it torn. *)
Lemma save_progress_kill st d (n : Z) :
  chunks_dir (disk st) = Some d →
  let p := <["last_chunk" := JInt n]> (progress st) in
  let r := save_progress n st in
  (∃ k', outcome r = Ok tt ∧
         final r = mkScan p (chunk_num st)
                     (set_chunks_dir (Some (set_progress_json (Some (Json p)) d))
                        (disk st)) k') ∨
  (outcome r = Killed ∧ (disk (final r) = disk st ∨ torn (disk (final r)))).
Proof.
  intros Hd p r. unfold r, p.
  destruct st as [p0 c fs k]. cbn [disk progress chunk_num] in *.
  unfold save_progress, bind, modify, gets, io, in_chunks_dir, torn.
  cbn [kill disk progress chunk_num set_progress final outcome events].
  destruct k as [[|[|j]]|]; cbn; rewrite ?Hd; cbn.
  - right. split; [done|]. by left.
  - right. split; [done|]. right. eexists. split; [reflexivity|done].
  - left. by exists (Some j).
  - left. by exists None.
Qed.

Lemma bind_fo_ok {Ev S A B} (m : M Ev S A) (k : A → M Ev S B) s a :
  outcome (m s) = Ok a →
  final (bind m k s) = final (k a (final (m s))) ∧
  outcome (bind m k s) = outcome (k a (final (m s))).
Proof. intros E. unfold bind. by rewrite E. Qed.

Lemma bind_fo_killed {Ev S A B} (m : M Ev S A) (k : A → M Ev S B) s :
  outcome (m s) = Killed →
  final (bind m k s) = final (m s) ∧ outcome (bind m k s) = Killed.
Proof. intros E. unfold bind. by rewrite E. Qed.

(** A turn for a chunk number up to the start chunk only moves the
    counter, whatever the kill budget. *)
Lemma window_step_skip_any self src (s total : Z) w st :
  chunk_num st + 1 ≤ s →
  window_step self src (JInt s) total w st =
  mkRun [] (set_chunk_num (chunk_num st + 1) st) (Ok tt).
Proof.
  intros Hs. unfold window_step, process_window.
  eapply (bind_ok_run _ _ _ []); [reflexivity|].
  eapply (bind_ok_run _ _ _ []); [reflexivity|].
  eapply (bind_ok_run _ _ _ []); [reflexivity|].
  cbn [chunk_num set_chunk_num]. rewrite (proj2 (Z.leb_le _ _)) by done.
  reflexivity.
Qed.

(** A turn beyond the start chunk: after the window is read, what is left
    is the write of the chunk and the save of the checkpoint. *)
Lemma window_step_tail self src (s total : Z) w st :
  s < chunk_num st + 1 →
  let n := chunk_num st + 1 in
  let df := chunk_table self src (window_at self src w) in
  let tail :=
    ((match df with
      | Some _ => save_chunk df n
      | None => ret tt
      end) >> save_progress n) (set_chunk_num n st) in
  window_step self src (JInt s) total w st =
  mkRun ((if n mod 100 =? 0 then [EvLog (MsgProgress n total)] else []) ++
         chunk_events self src (window_at self src w) ++ events tail)
        (final tail) (outcome tail).
Proof.
  intros Hs n df tail. unfold window_step, process_window.
  eapply (bind_ok_run _ _ _ []); [reflexivity|].
  eapply (bind_ok_run _ _ _ []); [reflexivity|].
  eapply (bind_ok_run _ _ _ []); [reflexivity|].
  cbn [chunk_num set_chunk_num]. fold n. rewrite (proj2 (Z.leb_gt _ _)) by done.
  eapply bind_ok_run; [apply when_log_scan|].
  eapply bind_ok_run; [apply process_chunk_run|].
  fold (window_at self src w). fold df. apply run_eta.
Qed.

(** One turn of the loop under any kill budget.  Either the turn completes,
    with the state the unkilled turn leaves, or the process is killed: then
    the checkpoint file is torn, or the files are the ones the turn started
    on but for the chunk file of the turn. *)
Lemma window_step_kill self src (s total : Z) w st d :
  chunks_dir (disk st) = Some d → s < chunk_num st + 1 →
  let n := chunk_num st + 1 in
  let df := chunk_table self src (window_at self src w) in
  let p := <["last_chunk" := JInt n]> (progress st) in
  let r := window_step self src (JInt s) total w st in
  (∃ k', outcome r = Ok tt ∧
         final r = mkScan p n
           (set_chunks_dir
              (Some (set_progress_json (Some (Json p)) (with_chunk n df d)))
              (disk st)) k') ∨
  (outcome r = Killed ∧
   (mid_turn n df (disk st) (disk (final r)) ∨ torn (disk (final r)))).
Proof.
  intros Hd Hs n df p r. unfold r.
  rewrite (window_step_tail self src s total w st Hs). cbn zeta.
  fold n df. cbn [final outcome].
  set (st1 := set_chunk_num n st).
  assert (Hd1 : chunks_dir (disk st1) = Some d) by done.
  destruct (save_if_table_kill st1 d n df Hd1) as [(k' & Ho & Hf)|(Ho & Hmid)];
    cbn zeta in *.
  - destruct (bind_fo_ok _ (λ _, save_progress n) st1 tt Ho) as [-> ->].
    rewrite Hf.
    set (st2 := mkScan (progress st1) (chunk_num st1)
                  (set_chunks_dir (Some (with_chunk n df d)) (disk st1)) k').
    destruct (save_progress_kill st2 (with_chunk n df d) n eq_refl)
      as [(k'' & Ho2 & Hf2)|(Ho2 & Hk2)]; cbn zeta in *.
    + left. exists k''. split; [done|]. rewrite Hf2. done.
    + right. split; [done|]. destruct Hk2 as [Hsame|Htorn]; [|by right].
      left. rewrite Hsame. cbn [st2 disk st1 set_chunk_num].
      unfold mid_turn, with_chunk.
      destruct (rows_to_write df) as [rows|] eqn:Hrows.
      * right. split; [done|]. by exists d, (CsvGz rows).
      * left. destruct st as [p0 c [a b t dd] k]. cbn in *. by subst.
  - destruct (bind_fo_killed _ (λ _, save_progress n) st1 Ho) as [-> ->].
    right. split; [done|]. by left.
Qed.
End KillSteps.

Section KillLoop.
Context {F : Type} `{FloatLe F}.
Implicit Types (self : Processor F) (src : Raster F) (st : Scan F) (fs : FS F)
  (d : ChunksDir F) (w : Window).

Lemma scan_loop_cons_ok self src (start : JVal) (total : Z) w (ws : list Window) st :
  outcome (window_step self src start total w st) = Ok tt →
  final (scan_loop self src start total (w :: ws) st)
  = final (scan_loop self src start total ws
             (final (window_step self src start total w st))) ∧
  outcome (scan_loop self src start total (w :: ws) st)
  = outcome (scan_loop self src start total ws
               (final (window_step self src start total w st))).
Proof.
  intros Ho. unfold scan_loop. cbn [for_each].
  exact (bind_fo_ok _ (λ _, for_each ws (window_step self src start total)) st tt Ho).
Qed.

Lemma scan_loop_cons_killed self src (start : JVal) (total : Z) w (ws : list Window) st :
  outcome (window_step self src start total w st) = Killed →
  final (scan_loop self src start total (w :: ws) st)
  = final (window_step self src start total w st) ∧
  outcome (scan_loop self src start total (w :: ws) st) = Killed.
Proof.
  intros Ho. unfold scan_loop. cbn [for_each].
  exact (bind_fo_killed _ (λ _, for_each ws (window_step self src start total)) st Ho).
Qed.

(** The loop of [process] under any kill budget, from a state between two
    turns.  Either it completes, with the state the unkilled loop leaves,
    or the process is killed in the turn of a window beyond the start
    chunk: then the checkpoint file is torn, or the files are those the
    unkilled loop has when it reaches that turn, but for the chunk file of
    the turn. *)
Lemma scan_loop_kill self src (s0 total : Z) (ws : list Window) : ∀ st k,
  ready s0 st →
  let r := scan_loop self src (JInt s0) total ws (with_kill k st) in
  (∃ k', outcome r = Ok tt ∧
         final r = with_kill k' (final (scan_loop self src (JInt s0) total ws st))) ∨
  (outcome r = Killed ∧
   ∃ (i : nat) w, ws !! i = Some w ∧ s0 < chunk_num st + Z.of_nat i + 1 ∧
     let b := final (scan_loop self src (JInt s0) total (take i ws) st) in
     (mid_turn (chunk_num st + Z.of_nat i + 1)
               (chunk_table self src (window_at self src w))
               (disk b) (disk (final r)) ∨
      torn (disk (final r)))).
Proof.
  induction ws as [|w ws IH]; intros st k Hr; cbn zeta.
  { left. by exists k. }
  destruct (window_step_ready self src s0 total w st Hr)
    as (Ho1 & Hr1 & Hn1 & _). cbn zeta in *.
  set (st1 := final (window_step self src (JInt s0) total w st)) in *.
  destruct (ready_alive _ _ Hr) as (Hkill & d & Hd).
  destruct (scan_loop_cons_ok self src (JInt s0) total w ws st Ho1) as [Hf0 _].
  fold st1 in Hf0.
  (* the turn under the kill budget completes with budget [k'] *)
  assert (Hnext : ∀ k',
    outcome (window_step self src (JInt s0) total w (with_kill k st)) = Ok tt →
    final (window_step self src (JInt s0) total w (with_kill k st)) = with_kill k' st1 →
    (∃ k'', outcome (scan_loop self src (JInt s0) total (w :: ws) (with_kill k st)) = Ok tt ∧
            final (scan_loop self src (JInt s0) total (w :: ws) (with_kill k st))
            = with_kill k'' (final (scan_loop self src (JInt s0) total (w :: ws) st))) ∨
    (outcome (scan_loop self src (JInt s0) total (w :: ws) (with_kill k st)) = Killed ∧
     ∃ (i : nat) w', (w :: ws) !! i = Some w' ∧ s0 < chunk_num st + Z.of_nat i + 1 ∧
       (mid_turn (chunk_num st + Z.of_nat i + 1)
                 (chunk_table self src (window_at self src w'))
                 (disk (final (scan_loop self src (JInt s0) total
                                 (take i (w :: ws)) st)))
                 (disk (final (scan_loop self src (JInt s0) total (w :: ws)
                                 (with_kill k st)))) ∨
        torn (disk (final (scan_loop self src (JInt s0) total (w :: ws)
                             (with_kill k st))))))).
  { intros k' Hok Hfin.
    destruct (scan_loop_cons_ok self src (JInt s0) total w ws _ Hok) as [-> ->].
    rewrite Hfin, Hf0.
    destruct (IH st1 k' Hr1) as [(k'' & Ho & Hf)|(Ho & i & w' & Hw' & Hi & Hmid)];
      cbn zeta in *.
    - left. by exists k''.
    - right. split; [done|]. exists (S i), w'. split; [done|].
      split; [rewrite Hn1 in Hi; lia|].
      cbn [take].
      destruct (scan_loop_cons_ok self src (JInt s0) total w (take i ws) st Ho1)
        as [-> _].
      fold st1. rewrite Hn1 in Hmid.
      replace (chunk_num st + Z.of_nat (S i) + 1)
        with (chunk_num st + 1 + Z.of_nat i + 1) by lia.
      done. }
  destruct (Z.le_gt_cases (chunk_num st + 1) s0) as [Hskip|Hbeyond].
  - (* skipped *)
    assert (Hrun : ∀ st', chunk_num st' = chunk_num st →
      window_step self src (JInt s0) total w st' =
      mkRun [] (set_chunk_num (chunk_num st + 1) st') (Ok tt)).
    { intros st' E. rewrite <-E. apply window_step_skip_any. by rewrite E. }
    apply (Hnext k).
    + by rewrite (Hrun (with_kill k st)).
    + rewrite (Hrun (with_kill k st)) by done.
      unfold st1. rewrite (Hrun st) by done. done.
  - (* beyond the start chunk *)
    assert (Hdk : chunks_dir (disk (with_kill k st)) = Some d) by done.
    destruct (window_step_kill self src s0 total w (with_kill k st) d Hdk)
      as [(k' & Ho & Hf)|(Ho & Hmid)]; [cbn; lia|..]; cbn zeta in *.
    + apply (Hnext k'); [done|]. rewrite Hf. unfold st1.
      rewrite (window_step_run self src s0 total w st d Hd Hkill). cbn zeta.
      rewrite (proj2 (Z.leb_gt _ _)) by lia. done.
    + right.
      destruct (scan_loop_cons_killed self src (JInt s0) total w ws _ Ho) as [-> ->].
      split; [done|]. exists 0%nat, w. split; [done|]. split; [lia|].
      cbn [take]. replace (chunk_num st + Z.of_nat 0 + 1) with (chunk_num st + 1) by lia.
      exact Hmid.
Qed.
End KillLoop.

Section KillMain.
Context {F : Type} `{FloatLe F}.
Implicit Types (self : Processor F) (src : Raster F) (st : Scan F) (fs : FS F)
  (d : ChunksDir F) (w : Window).

(** The constructor under a kill budget that lets it create the
    directory. *)
Lemma init_kill fs (j : nat) :
  final (init (boot fs (Some (S j)))) = with_kill (Some j) (final (init (boot fs None))) ∧
  outcome (init (boot fs (Some (S j)))) = outcome (init (boot fs None)).
Proof.
  unfold init.
  assert (Hio : ∀ k, k ≠ Some 0%nat →
    io EvMkdirChunks mkdir_chunks OSError (boot fs k) =
    mkRun [EvMkdirChunks]
          (boot (match chunks_dir fs with
                 | None => set_chunks_dir (Some empty_dir) fs
                 | Some _ => fs
                 end) (Nat.pred <$> k)) (Ok tt)).
  { intros k Hk. unfold io, mkdir_chunks, boot. cbn [kill disk progress chunk_num].
    by destruct k as [[|k]|]. }
  destruct (bind_ok_fo _ (λ _, load_progress) _ _ _ _ (Hio (Some (S j)) ltac:(done)))
    as [-> ->].
  destruct (bind_ok_fo _ (λ _, load_progress) _ _ _ _ (Hio None ltac:(done)))
    as [-> ->].
  cbn [fmap option_fmap option_map Nat.pred].
  rewrite !load_progress_run.
  by destruct (_ ≫= progress_json) as [[p|]|].
Qed.

(** The constructor is killed before it does anything when the budget is
    zero. *)
Lemma main_killed_at_once self fs :
  main self (boot fs (Some 0%nat)) = mkRun [] (boot fs (Some 0%nat)) Killed.
Proof. unfold main. apply bind_killed. unfold init. by apply bind_killed. Qed.

Lemma try_fo_pass {Ev S A} (m : M Ev S A) h s :
  (∀ e, outcome (m s) ≠ Raised e) →
  final (try_except m h s) = final (m s) ∧
  outcome (try_except m h s) = outcome (m s).
Proof.
  intros Hnr. unfold try_except.
  destruct (m s) as [ev st' [a|e|]]; cbn in *; [done| |done].
  by destruct (Hnr e).
Qed.

(** [process] ends as its loop does, when the loop does not raise. *)
Lemma process_as_loop self src (s0 : Z) st :
  final_csv (disk st) = false → source_tif (disk st) = Some src →
  progress st !! "last_chunk" = Some (JInt s0) → chunk_size self ≠ 0 →
  chunk_num st = 0 →
  let loop := scan_loop self src (JInt s0)
                (total_chunks (src_height src) (src_width src) (chunk_size self))
                (windows_of self src) st in
  (∀ e, outcome loop ≠ Raised e) →
  final (process self st) = final loop ∧ outcome (process self st) = outcome loop.
Proof.
  intros Hcsv Hsrc Hlast Hcs Hn loop Hnr.
  rewrite (process_unfold self src (JInt s0)) by done.
  assert (Hst : set_chunk_num 0 st = st).
  { unfold set_chunk_num. rewrite <-Hn. apply scan_eta. }
  destruct (bind_ok_fo (log (MsgStartingFrom (JInt s0)))
              (λ _, try_except
                 (modify (set_chunk_num 0) >>
                  scan_loop self src (JInt s0)
                    (total_chunks (src_height src) (src_width src) (chunk_size self))
                    (windows_of self src))
                 (λ e, log (MsgErrorYear e) >> raise e))
              st [EvLog (MsgStartingFrom (JInt s0))] st tt eq_refl) as [-> ->].
  destruct (bind_ok_fo (modify (set_chunk_num 0))
              (λ _, scan_loop self src (JInt s0)
                      (total_chunks (src_height src) (src_width src) (chunk_size self))
                      (windows_of self src))
              st [] (set_chunk_num 0 st) tt eq_refl) as [Hf Ho].
  rewrite Hst in Hf, Ho. fold loop in Hf, Ho.
  destruct (try_fo_pass
              (modify (set_chunk_num 0) >>
               scan_loop self src (JInt s0)
                 (total_chunks (src_height src) (src_width src) (chunk_size self))
                 (windows_of self src))
              (λ e, log (MsgErrorYear e) >> raise e) st) as [-> ->].
  - intros e. by rewrite Ho.
  - by rewrite Hf, Ho.
Qed.

Lemma files_after_chunk_eq self src fs (s0 : Z) st0 (k : nat) :
  init (boot fs None) = mkRun [EvMkdirChunks] st0 (Ok tt) →
  ready s0 st0 → chunk_num st0 = 0 → 0 ≤ s0 →
  files_after_chunk self src fs k =
  disk (final (scan_loop self src (JInt s0)
                 (total_chunks (src_height src) (src_width src) (chunk_size self))
                 (take k (windows_of self src)) st0)).
Proof.
  intros Hinit Hr0 Hn0 Hs0.
  assert (Hlast0 : progress st0 !! "last_chunk" = Some (JInt s0)).
  { destruct Hr0 as (_ & _ & Hlast). rewrite Hlast, Hn0. do 2 f_equal. lia. }
  assert (Hst0 : set_chunk_num 0 st0 = st0).
  { unfold set_chunk_num. rewrite <-Hn0. apply scan_eta. }
  unfold files_after_chunk. rewrite Hinit. cbn [final].
  by rewrite Hlast0, Hst0.
Qed.

(** Where a kill leaves the files of a scan: as they were, when the
    constructor is killed at once; as the complete scan leaves them; or, in
    the turn of a window beyond the checkpoint, with a torn checkpoint file
    or as they were after the turn before, but for the chunk file of the
    turn. *)
Lemma main_kill self src fs (s0 : Z) (j : nat) :
  final_csv fs = false → source_tif fs = Some src → chunk_size self ≠ 0 →
  loaded_last_chunk fs = Some s0 → 0 ≤ s0 →
  let r := main self (boot fs (Some j)) in
  disk (final r) = fs ∨
  disk (final r) = disk (final (main self (boot fs None))) ∨
  ∃ (i : nat) w, windows_of self src !! i = Some w ∧ s0 < Z.of_nat i + 1 ∧
    (mid_turn (Z.of_nat i + 1) (chunk_table self src (window_at self src w))
              (files_after_chunk self src fs i) (disk (final r)) ∨
     torn (disk (final r))).
Proof.
  intros Hcsv Hsrc Hcs Hl Hs0 r. unfold r.
  destruct j as [|j]; [left; by rewrite main_killed_at_once|].
  destruct (main_ready self src fs s0 Hcsv Hsrc Hcs Hl Hs0)
    as (st0 & Hinit & Hr0 & Hn0 & Hc0 & Ht0 & Hfull).
  cbn zeta in Hfull.
  set (total := total_chunks (src_height src) (src_width src) (chunk_size self)) in *.
  set (ws := windows_of self src) in *.
  destruct (init_kill fs j) as [Hfk Hok]. rewrite Hinit in Hfk, Hok.
  cbn [final outcome] in Hfk, Hok.
  rewrite Hfull. cbn [final]. unfold main.
  destruct (bind_fo_ok init (λ _, process self) _ tt Hok) as [-> _].
  rewrite Hfk.
  assert (Hlast0 : progress st0 !! "last_chunk" = Some (JInt s0)).
  { destruct Hr0 as (_ & _ & Hlast). rewrite Hlast, Hn0. do 2 f_equal. lia. }
  destruct (scan_loop_kill self src s0 total ws st0 (Some j) Hr0)
    as [(k' & Ho & Hf)|(Ho & i & w & Hw & Hi & Hmid)]; cbn zeta in *.
  - destruct (process_as_loop self src s0 (with_kill (Some j) st0))
      as [-> _]; [cbn; by rewrite Hc0|cbn; by rewrite Ht0|done..| |].
    { intros e. fold total ws. by rewrite Ho. }
    fold total ws. rewrite Hf. by right; left.
  - destruct (process_as_loop self src s0 (with_kill (Some j) st0))
      as [-> _]; [cbn; by rewrite Hc0|cbn; by rewrite Ht0|done..| |].
    { intros e. fold total ws. by rewrite Ho. }
    fold total ws. right. right. exists i, w. split; [done|].
    split; [lia|].
    rewrite (files_after_chunk_eq self src fs s0 st0 i Hinit Hr0 Hn0 Hs0).
    fold total ws. rewrite Hn0 in Hmid. cbn in Hmid.
    replace (Z.of_nat i + 1) with (0 + Z.of_nat i + 1) by lia. exact Hmid.
Qed.
End KillMain.

Section Resumed.
Context {F : Type} `{FloatLe F}.
Implicit Types (self : Processor F) (src : Raster F) (st : Scan F) (fs : FS F)
  (d : ChunksDir F) (w : Window).

Lemma loaded_torn fs : torn fs → loaded_last_chunk fs = None.
Proof. intros (d & Hd & Ht). rewrite loaded_last_chunk_eq, Hd. cbn. by rewrite Ht. Qed.

Lemma loaded_mid_turn (n : Z) (df : option (list (Row F))) fs fs' :
  mid_turn n df fs fs' → loaded_last_chunk fs' = loaded_last_chunk fs.
Proof.
  intros [->|(_ & d & c & Hd & ->)]; [done|]. by apply loaded_write_file.
Qed.

(** A new process on files with a torn checkpoint raises in its
    constructor. *)
Lemma main_torn self fs :
  torn fs → outcome (main self (boot fs None)) = Raised JSONDecodeError.
Proof.
  intros (d & Hd & Ht).
  assert (Hinit : init (boot fs None) =
            mkRun [EvMkdirChunks] (boot fs None) (Raised JSONDecodeError)).
  { assert (Hio : io EvMkdirChunks mkdir_chunks OSError (boot fs None) =
              mkRun [EvMkdirChunks] (boot fs None) (Ok tt)).
    { unfold io, mkdir_chunks, boot. cbn [kill disk]. by rewrite Hd. }
    unfold init. eapply (bind_ok_run _ _ _ [_] _ _ []); [exact Hio|].
    rewrite load_progress_run, Hd. cbn. by rewrite Ht. }
  unfold main. by rewrite (bind_raised _ _ _ _ _ _ Hinit).
Qed.

(** The files a kill leaves in the turn of chunk [i + 1], before the
    checkpoint file is opened, resume like the files after chunk [i]: the
    turn writes the chunk file again. *)
Lemma main_absorbs_chunk_file self src (s0 : Z) st (i : nat) w fs' :
  ready s0 st → chunk_num st = Z.of_nat i → s0 ≤ Z.of_nat i →
  final_csv (disk st) = false → source_tif (disk st) = Some src →
  chunk_size self ≠ 0 →
  windows_of self src !! i = Some w →
  mid_turn (Z.of_nat i + 1) (chunk_table self src (window_at self src w))
           (disk st) fs' →
  main self (boot fs' None) = main self (boot (disk st) None).
Proof.
  intros Hr Hn Hs Hcsv Hsrc Hcs Hw [->|(Hrows & d & c & Hd & ->)]; [done|].
  set (n := Z.of_nat i + 1) in *.
  set (df := chunk_table self src (window_at self src w)) in *.
  set (d' := set_chunk_files (<[chunk_name n := c]> (chunk_files d)) d).
  set (fs' := set_chunks_dir (Some d') (disk st)).
  set (st' := mkScan (progress st) (chunk_num st) fs' None).
  set (total := total_chunks (src_height src) (src_width src) (chunk_size self)).
  set (ws := windows_of self src) in *.
  assert (Hr' : ready s0 st').
  { destruct Hr as (Hk & (d0 & Hd0 & Hsync) & Hlast).
    rewrite Hd in Hd0. injection Hd0 as <-.
    split_and!; [done| |done]. exists d'. split; [done|]. exact Hsync. }
  assert (Hl : loaded_last_chunk (disk st) = Some (Z.of_nat i)).
  { rewrite (loaded_of_ready s0) by done. f_equal. lia. }
  assert (Hl' : loaded_last_chunk fs' = Some (Z.of_nat i)).
  { change fs' with (disk st'). rewrite (loaded_of_ready s0) by done.
    f_equal. cbn. lia. }
  destruct (main_ready self src (disk st) (Z.of_nat i) Hcsv Hsrc Hcs Hl ltac:(lia))
    as (sb & Hib & _ & _ & _ & _ & Hmb).
  destruct (main_ready self src fs' (Z.of_nat i) Hcsv Hsrc Hcs Hl' ltac:(lia))
    as (sa & Hia & _ & _ & _ & _ & Hma).
  rewrite (init_of_ready s0 st Hr) in Hib. injection Hib as <-.
  change fs' with (disk st') in Hia.
  rewrite (init_of_ready s0 st' Hr') in Hia. injection Hia as <-.
  cbn zeta in Hma, Hmb. fold total ws in Hma, Hmb.
  rewrite Hma, Hmb. cbn [progress disk st'].
  assert (Hi : (i < length ws)%nat) by (by eapply lookup_lt_Some).
  assert (Hskip : ∀ fsx, is_Some (chunks_dir fsx) →
    scan_loop self src (JInt (Z.of_nat i)) total (take i ws)
      (mkScan (progress st) 0 fsx None) =
    mkRun [] (mkScan (progress st) (Z.of_nat i) fsx None) (Ok tt)).
  { intros fsx Hx. rewrite scan_loop_skip; [|done|done|cbn; rewrite length_take; lia].
    cbn. rewrite length_take. unfold set_chunk_num. cbn. do 2 f_equal. lia. }
  assert (Hloop :
    scan_loop self src (JInt (Z.of_nat i)) total ws (mkScan (progress st) 0 fs' None)
    = scan_loop self src (JInt (Z.of_nat i)) total ws
        (mkScan (progress st) 0 (disk st) None)).
  { rewrite <-(take_drop_middle ws i w Hw).
    rewrite (scan_loop_app _ _ _ _ _ _ _ _ _ (Hskip fs' ltac:(by eexists))).
    rewrite (scan_loop_app _ _ _ _ _ _ _ _ _ (Hskip (disk st) ltac:(by eexists))).
    assert (Hstep :
      window_step self src (JInt (Z.of_nat i)) total w
        (mkScan (progress st) (Z.of_nat i) fs' None)
      = window_step self src (JInt (Z.of_nat i)) total w
          (mkScan (progress st) (Z.of_nat i) (disk st) None)).
    { rewrite (window_step_run self src (Z.of_nat i) total w
                 (mkScan (progress st) (Z.of_nat i) fs' None) d' eq_refl eq_refl).
      rewrite (window_step_run self src (Z.of_nat i) total w
                 (mkScan (progress st) (Z.of_nat i) (disk st) None) d Hd eq_refl).
      cbn zeta. cbn [chunk_num progress disk]. fold n df.
      rewrite (proj2 (Z.leb_gt _ _)) by lia.
      f_equal. f_equal. unfold fs', set_chunks_dir. cbn. do 2 f_equal.
      unfold with_chunk. destruct Hrows as [rows ->].
      unfold d', set_chunk_files. cbn. by rewrite insert_insert_eq. }
    assert (Hrest :
      scan_loop self src (JInt (Z.of_nat i)) total (w :: drop (S i) ws)
        (mkScan (progress st) (Z.of_nat i) fs' None)
      = scan_loop self src (JInt (Z.of_nat i)) total (w :: drop (S i) ws)
          (mkScan (progress st) (Z.of_nat i) (disk st) None)).
    { unfold scan_loop. cbn [for_each]. unfold bind. by rewrite Hstep. }
    by rewrite Hrest. }
  by rewrite Hloop.
Qed.
End Resumed.

Section TornOnlyAtOpen.
Context {F : Type} `{FloatLe F}.
Implicit Types (self : Processor F) (src : Raster F) (st : Scan F) (fs : FS F)
  (d : ChunksDir F) (w : Window).

Lemma tears_ret {A} (a : A) : tears_at_open_only (ret a : M (Event F) (Scan F) A).
Proof. by intros st Hst. Qed.

Lemma tears_raise {A} e : tears_at_open_only (raise e : M (Event F) (Scan F) A).
Proof. by intros st Hst. Qed.

Lemma tears_gets {A} (f : Scan F → A) : tears_at_open_only (gets f).
Proof. by intros st Hst. Qed.

Lemma tears_emit (ev : Event F) :
  tears_at_open_only (emit ev : M (Event F) (Scan F) unit).
Proof. by intros st Hst. Qed.

Lemma tears_modify (f : Scan F → Scan F) :
  (∀ st, disk (f st) = disk st) → tears_at_open_only (modify f).
Proof. intros Hf st Hst. cbn. by rewrite Hf. Qed.

Lemma last_app_Some {A} (l1 l2 : list A) (x : A) :
  last l2 = Some x → last (l1 ++ l2) = Some x.
Proof. intros E. by rewrite last_app, E. Qed.

Lemma tears_bind {A B} (m : M (Event F) (Scan F) A)
    (k : A → M (Event F) (Scan F) B) :
  tears_at_open_only m → (∀ a, tears_at_open_only (k a)) →
  tears_at_open_only (bind m k).
Proof.
  intros Hm Hk st Hst. specialize (Hm st Hst). unfold bind.
  destruct (m st) as [ev st' [a|e|]]; cbn [outcome final events] in *; [|done..].
  specialize (Hk a st' Hm).
  destruct (k a st') as [ev' st2 [b|e|]]; cbn [outcome final events] in *;
    [done|done|].
  intros Ht. by apply last_app_Some, Hk.
Qed.

Lemma tears_try {A} (m : M (Event F) (Scan F) A) h :
  tears_at_open_only m → (∀ e, tears_at_open_only (h e)) →
  tears_at_open_only (try_except m h).
Proof.
  intros Hm Hh st Hst. specialize (Hm st Hst). unfold try_except.
  destruct (m st) as [ev st' [a|e|]]; cbn [outcome final events] in *; [done| |done].
  specialize (Hh e st' Hm).
  destruct (h e st') as [ev' st2 [b|e'|]]; cbn [outcome final events] in *;
    [done|done|].
  intros Ht. by apply last_app_Some, Hh.
Qed.

Lemma tears_if {A} (b : bool) (m1 m2 : M (Event F) (Scan F) A) :
  tears_at_open_only m1 → tears_at_open_only m2 →
  tears_at_open_only (if b then m1 else m2).
Proof. by destruct b. Qed.

Lemma tears_for_each {A} (l : list A) (body : A → M (Event F) (Scan F) unit) :
  (∀ a, tears_at_open_only (body a)) → tears_at_open_only (for_each l body).
Proof.
  intros Hb. induction l as [|a l IH]; [apply tears_ret|].
  cbn [for_each]. apply tears_bind; [apply Hb|]. intros _. exact IH.
Qed.

(** A step on the files that does not tear the checkpoint. *)
Lemma tears_io ev (f : FS F → option (FS F)) (e : Exn) :
  (∀ fs fs', f fs = Some fs' → ¬ torn fs → ¬ torn fs') →
  tears_at_open_only (io ev f e).
Proof.
  intros Hf st Hst. unfold io.
  destruct (kill st) as [[|k]|]; cbn [final outcome]; [done|..];
    (destruct (f (disk st)) as [fs'|] eqn:E; cbn [final outcome disk];
      [by eapply Hf|done]).
Qed.

Lemma torn_mkdir fs fs' : mkdir_chunks fs = Some fs' → ¬ torn fs → ¬ torn fs'.
Proof.
  unfold mkdir_chunks. intros [= <-] Hn.
  destruct (chunks_dir fs) eqn:Hd; [done|].
  intros (d & Hd' & Ht). cbn in Hd'. by injection Hd' as <-.
Qed.

Lemma torn_write_file name (c : ChunkFile F) fs fs' :
  write_file name c fs = Some fs' → ¬ torn fs → ¬ torn fs'.
Proof.
  intros (d & Hd & ->)%write_file_spec Hn (d' & Hd' & Ht).
  cbn in Hd'. injection Hd' as <-. apply Hn. by exists d.
Qed.

(** [save_progress] tears the checkpoint when the process is killed
    between the [open] and the end of [json.dump], and only then. *)
Lemma tears_save_progress (n : Z) : tears_at_open_only (save_progress (F := F) n).
Proof.
  intros [p c fs k] Hst. cbn [disk] in Hst.
  unfold save_progress, bind, modify, gets, io, in_chunks_dir.
  cbn [kill disk progress chunk_num set_progress final outcome events].
  destruct (chunks_dir fs) as [d|] eqn:Hd.
  - destruct k as [[|[|j]]|]; cbn; rewrite ?Hd; cbn; try done.
    + intros (d' & [= <-] & Ht). done.
    + intros (d' & [= <-] & Ht). done.
  - destruct k as [[|j]|]; cbn; rewrite ?Hd; cbn; done.
Qed.

Lemma tears_save_chunk (df : option (list (Row F))) (n : Z) :
  tears_at_open_only (save_chunk df n).
Proof.
  unfold save_chunk. destruct df as [rows|]; [|apply tears_ret].
  apply tears_if; [apply tears_ret|].
  apply tears_bind; [apply tears_io, torn_write_file|]. intros _.
  apply tears_bind; [apply tears_io, torn_write_file|]. intros _.
  apply tears_emit.
Qed.

Lemma tears_process_chunk self src w : tears_at_open_only (process_chunk self src w).
Proof. intros st Hst. by rewrite process_chunk_run. Qed.

Lemma tears_process_window self src (start : JVal) (total y ch x : Z) :
  tears_at_open_only (process_window self src start total y ch x).
Proof.
  unfold process_window.
  apply tears_bind; [by apply tears_modify|]. intros _.
  apply tears_bind; [apply tears_gets|]. intros n.
  apply tears_bind.
  { unfold py_le. destruct start; [apply tears_ret|apply tears_raise]. }
  intros skip. apply tears_if; [apply tears_ret|].
  apply tears_bind; [apply tears_if; [apply tears_emit|apply tears_ret]|]. intros _.
  apply tears_bind; [apply tears_process_chunk|]. intros df.
  apply tears_bind; [|intros _; apply tears_save_progress].
  destruct df; [apply tears_save_chunk|apply tears_ret].
Qed.

Lemma tears_process self : tears_at_open_only (process self).
Proof.
  unfold process.
  apply tears_bind; [apply tears_gets|]. intros csv.
  apply tears_if; [apply tears_emit|].
  apply tears_bind; [apply tears_gets|]. intros [src|]; [|apply tears_emit].
  apply tears_bind.
  { apply tears_bind; [apply tears_gets|]. intros p.
    destruct (p !! "last_chunk"); [apply tears_ret|apply tears_raise]. }
  intros start. apply tears_bind; [apply tears_emit|]. intros _.
  apply tears_try.
  - apply tears_bind; [apply tears_if; [apply tears_raise|apply tears_ret]|].
    intros total. apply tears_bind; [by apply tears_modify|]. intros _.
    apply tears_for_each. intros y. apply tears_for_each. intros x.
    apply tears_process_window.
  - intros e. apply tears_bind; [apply tears_emit|]. intros _. apply tears_raise.
Qed.

Lemma tears_init : tears_at_open_only (init (F := F)).
Proof.
  unfold init. apply tears_bind; [apply tears_io, torn_mkdir|]. intros _.
  unfold load_progress. apply tears_bind; [apply tears_gets|].
  intros [[p|]|]; [by apply tears_modify|apply tears_raise|by apply tears_modify].
Qed.

(** A run of the scan leaves a torn checkpoint only when it is killed
    right after it has opened the checkpoint file for writing. *)
Lemma main_tears_at_open_only self fs (k : option nat) :
  ¬ torn fs →
  torn (disk (final (main self (boot fs k)))) →
  outcome (main self (boot fs k)) = Killed ∧
  last (events (main self (boot fs k))) = Some EvOpenW.
Proof.
  intros Hfs Ht.
  assert (Hm : tears_at_open_only (main self)).
  { unfold main. apply tears_bind; [apply tears_init|]. intros _.
    apply tears_process. }
  specialize (Hm (boot fs k) Hfs).
  destruct (outcome (main self (boot fs k))); [done|done|]. split; [done|by apply Hm].
Qed.
End TornOnlyAtOpen.

Section ResumeAfterKill.
Context {F : Type} `{FloatLe F}.
Implicit Types (self : Processor F) (src : Raster F) (st : Scan F) (fs : FS F)
  (d : ChunksDir F) (w : Window).

(** C2, amended.  A scan is started on files whose checkpoint reads [s0]
    and the process is killed at any point: after [j] steps on the files,
    for any [j].  A new process then resumes on the files it left.  When
    the checkpoint file it finds can be read, as [c], the resumed scan
    returns and leaves exactly the files the uninterrupted scan leaves,
    chunk files and checkpoint; it reads none of the first [c] windows and
    reads each of the others, once and in order.  That covers a kill
    between the write of a chunk and the save of its checkpoint and a kill
    in the middle of the write of a chunk file.  The checkpoint file cannot
    be read only when the kill fell inside its write, right after the file
    was opened: it is torn then, and the new process raises in its
    constructor. *)
Theorem killed_scan_resumes_to_the_same_files self src fs (s0 : Z) (j : nat) :
  final_csv fs = false → source_tif fs = Some src → chunk_size self ≠ 0 →
  loaded_last_chunk fs = Some s0 →
  0 ≤ s0 ≤ Z.of_nat (length (windows_of self src)) →
  let full := main self (boot fs None) in
  let killed := main self (boot fs (Some j)) in
  let fs_j := disk (final killed) in
  let resumed := main self (boot fs_j None) in
  outcome full = Ok tt ∧
  match loaded_last_chunk fs_j with
  | Some c =>
      s0 ≤ c ≤ Z.of_nat (length (windows_of self src)) ∧
      outcome resumed = Ok tt ∧
      disk (final resumed) = disk (final full) ∧
      reads (events resumed) = drop (Z.to_nat c) (windows_of self src)
  | None =>
      torn fs_j ∧
      outcome killed = Killed ∧ last (events killed) = Some EvOpenW ∧
      outcome resumed = Raised JSONDecodeError
  end.
Proof.
  intros Hcsv Hsrc Hcs Hl [Hs0 Hlen]. cbn zeta.
  set (ws := windows_of self src) in *.
  set (total := total_chunks (src_height src) (src_width src) (chunk_size self)).
  (* resuming after chunk [k] *)
  assert (Hbetween : ∀ k : nat, s0 ≤ Z.of_nat k → (k ≤ length ws)%nat →
    outcome (main self (boot fs None)) = Ok tt ∧
    outcome (main self (boot (files_after_chunk self src fs k) None)) = Ok tt ∧
    loaded_last_chunk (files_after_chunk self src fs k) = Some (Z.of_nat k) ∧
    disk (final (main self (boot (files_after_chunk self src fs k) None)))
    = disk (final (main self (boot fs None))) ∧
    reads (events (main self (boot (files_after_chunk self src fs k) None)))
    = drop k ws ∧
    reads (events (main self (boot fs None))) = drop (Z.to_nat s0) ws).
  { intros k Hk1 Hk2.
    apply (@resume_between_chunks F _ self src fs s0 k); done. }
  destruct (Hbetween (length ws) ltac:(lia) ltac:(lia)) as (Hfull & _).
  split; [done|].
  destruct (main_ready self src fs s0 Hcsv Hsrc Hcs Hl Hs0)
    as (st0 & Hinit & Hr0 & Hn0 & Hc0 & Ht0 & Hmain).
  cbn zeta in Hmain. fold ws total in Hmain.
  destruct (main_kill self src fs s0 j Hcsv Hsrc Hcs Hl Hs0)
    as [->|[->|(i & w & Hw & Hi & [Hmid|Htorn])]]; cbn zeta in *.
  - (* killed before the first step *)
    rewrite Hl.
    destruct (Hbetween (Z.to_nat s0) ltac:(lia) ltac:(lia)) as (_ & _ & _ & _ & _ & Hreads).
    split_and!; [lia|lia|done|done|done].
  - (* not killed before the end *)
    assert (Hend : files_after_chunk self src fs (length ws)
                   = disk (final (main self (boot fs None)))).
    { rewrite (files_after_chunk_eq self src fs s0 st0 _ Hinit Hr0 Hn0 Hs0).
      fold ws total. rewrite firstn_all. by rewrite Hmain. }
    destruct (Hbetween (length ws) ltac:(lia) ltac:(lia))
      as (_ & Ho & Hlk & Hd & Hreads & _).
    rewrite Hend in Ho, Hlk, Hd, Hreads. rewrite Hlk.
    rewrite Nat2Z.id. split_and!; [lia|lia|done|done|done].
  - (* killed in a turn, the checkpoint file not opened *)
    assert (Hilen : (i < length ws)%nat) by (by eapply lookup_lt_Some).
    destruct (Hbetween i ltac:(lia) ltac:(lia))
      as (_ & Ho & Hlk & Hd & Hreads & _).
    rewrite (loaded_mid_turn _ _ _ _ Hmid), Hlk.
    destruct (scan_loop_ready self src s0 total (take i ws) st0 Hr0)
      as (_ & Hri & Hni & Hci & _ & Hti). cbn zeta in *.
    rewrite (files_after_chunk_eq self src fs s0 st0 i Hinit Hr0 Hn0 Hs0) in *.
    fold ws total in Hmid, Ho, Hd, Hreads |- *.
    set (st_i := final (scan_loop self src (JInt s0) total (take i ws) st0)) in *.
    rewrite length_take, Hn0 in Hni.
    assert (Hmain_eq :
      main self (boot (disk (final (main self (boot fs (Some j))))) None)
      = main self (boot (disk st_i) None)).
    { apply (main_absorbs_chunk_file self src s0 st_i i w); try done.
      - lia.
      - lia.
      - congruence.
      - congruence. }
    rewrite Hmain_eq. rewrite Nat2Z.id. split_and!; [lia|lia|done|done|done].
  - (* killed inside the write of the checkpoint *)
    rewrite (loaded_torn _ Htorn).
    assert (Hfs : ¬ torn fs).
    { intros Ht. apply loaded_torn in Ht. congruence. }
    destruct (main_tears_at_open_only self fs (Some j) Hfs Htorn) as [Hk Hlast].
    split_and!; [done|done|done|by apply main_torn].
Qed.
End ResumeAfterKill.


(** *** Examples *)

(** C1, counterexample: the scan's final file and the merged store both
    exist, and [merge_chunks] still merges: it replaces the store by one
    with other rows and removes the chunk directory. *)
Lemma merge_runs_when_final_artifacts_exist :
  let r := merge_chunks env_ok 2020 fs_done in
  final_csv fs_done = true ∧
  final_h5 fs_done = Some (mkStore (Some [row_1]) None) ∧
  is_Some (chunks_dir fs_done) ∧
  outcome r = Ok tt ∧
  final_h5 (final r) =
    Some (mkStore (Some [row_2])
            (Some (mkMetadata 1 2020 "2024-01-01T00:00:00" 1))) ∧
  chunks_dir (final r) = None ∧
  EvHdfCreate ∈ events r.
Proof.
  vm_compute. split_and!; try reflexivity; [by eexists|].
  repeat first [by apply list_elem_of_here | apply list_elem_of_further].
Qed.

Lemma final_artifact_skips_the_scan_only_witness :
  let st := boot fs_done None in
  process demo_processor st = mkRun [EvLog MsgAlreadyProcessed] st (Ok tt).
Proof.
  intros st.
  exact (proj1 (final_artifact_skips_the_scan_only demo_processor st env_ok fs_done
                  false None eq_refl)).
Defined.

Lemma process_chunk_emits_qualifying_cells_witness :
  outcome (process_chunk demo_processor demo_raster (mkWindow 0 0 2 2)
             (boot fs_year None)) =
  Ok (Some [mkRow 2020 1 1 1 (Some "Corn")]).
Proof.
  destruct (process_chunk_emits_qualifying_cells demo_processor demo_raster
              (mkWindow 0 0 2 2)
              (mkArray2 (2%nat, 2%nat) [-1; 0; 0; 1])
              (boot fs_year None))
    as (_ & _ & Hout & _); [reflexivity..|].
  rewrite Hout. vm_compute. reflexivity.
Defined.



(** C7, counterexample: [shutil.move] raises.  The unreadable file
    [chunk_00002.csv.gz] is not moved to [corrupted]: the failure is logged,
    the merge goes on, and the file disappears with the chunk directory
    after the verification. *)
Lemma failed_move_leaves_chunk_unquarantined :
  let r := merge_chunks env_no_move 2020 fs_mixed in
  chunk_files dir_mixed !! "chunk_00002.csv.gz" = Some (Unreadable BadGzipFile) ∧
  outcome r = Ok tt ∧
  EvLog (MsgMoveError "chunk_00002.csv.gz" OSError) ∈ events r ∧
  (∀ n, EvMove n ∉ events r) ∧
  chunks_dir (final r) = None.
Proof.
  vm_compute. split_and!; try reflexivity.
  - repeat first [by apply list_elem_of_here | apply list_elem_of_further].
  - intros n Hn. repeat (apply elem_of_cons in Hn as [Hn|Hn]; [discriminate|]).
    by apply elem_of_nil in Hn.
Qed.

(** The only chunk file is unreadable: it is moved to [corrupted], nothing
    is appended, and the call raises [KeyError]. *)
Lemma merge_without_rows_raises_witness :
  outcome (merge_chunks env_ok 2020 fs_one_unreadable) = Raised KeyError.
Proof.
  apply (merge_without_rows_raises env_ok 2020 fs_one_unreadable dir_one_unreadable).
  - reflexivity.
  - vm_compute. discriminate.
  - vm_compute. reflexivity.
Defined.

Lemma merge_of_no_chunks_returns_witness :
  outcome (merge_chunks env_ok 2020 fs_fresh) = Ok tt.
Proof.
  rewrite (merge_of_no_chunks_returns env_ok 2020 fs_fresh empty_dir);
    reflexivity.
Defined.

Lemma merge_chunks_logs_what_it_raises_witness :
  EvLog (MsgCritical KeyError) ∈ events (merge_chunks env_ok 2020 fs_one_unreadable).
Proof.
  apply (merge_chunks_logs_what_it_raises env_ok 2020 fs_one_unreadable KeyError).
  vm_compute. reflexivity.
Defined.

Lemma unmerged_chunks_are_set_aside_witness :
  EvMove "chunk_00002.csv.gz" ∈ events (merge_chunks env_ok 2020 fs_mixed) ↔
    "chunk_00002.csv.gz" ∈ listing dir_mixed ∧
    is_good env_ok dir_mixed "chunk_00002.csv.gz" = false ∧
    mv_fails env_ok "chunk_00002.csv.gz" = false.
Proof.
  exact (proj1 (unmerged_chunks_are_set_aside env_ok 2020 fs_mixed dir_mixed eq_refl)
               "chunk_00002.csv.gz").
Defined.

Lemma killed_scan_resumes_to_the_same_files_witness :
  let fs_j := disk (final (main demo_processor (boot fs_year (Some 7%nat)))) in
  loaded_last_chunk fs_j = Some 1 ∧
  outcome (main demo_processor (boot fs_j None)) = Ok tt ∧
  disk (final (main demo_processor (boot fs_j None)))
  = disk (final (main demo_processor (boot fs_year None))).
Proof.
  cbn zeta.
  pose proof (killed_scan_resumes_to_the_same_files demo_processor demo_raster
                fs_year 0 7) as Hres.
  cbn zeta in Hres.
  assert (Hc : loaded_last_chunk
                 (disk (final (main demo_processor (boot fs_year (Some 7%nat)))))
               = Some 1) by (vm_compute; reflexivity).
  rewrite Hc in Hres.
  destruct Hres as (_ & _ & Hok & Hsame & _);
    [reflexivity|reflexivity|done|reflexivity|vm_compute; split; discriminate|].
  split_and!; [exact Hc|exact Hok|exact Hsame].
Defined.

(** C2, counterexample: chunk 1 is complete and the file of chunk 2 is
    written, as in the uninterrupted run, when the process is killed inside
    [save_progress], between the [open] that truncates [progress.json] and
    the end of [json.dump].  The process that resumes finds a checkpoint
    that [json.load] cannot parse: its constructor raises, and the files
    are not those of the uninterrupted run. *)
Lemma kill_inside_checkpoint_write_breaks_resume :
  let fs_j := disk (final (main demo_processor (boot fs_year (Some 8%nat)))) in
  outcome (main demo_processor (boot fs_year None)) = Ok tt ∧
  last (events (main demo_processor (boot fs_year (Some 8%nat)))) = Some EvOpenW ∧
  (chunks_dir fs_j ≫= progress_json) = Some Torn ∧
  (chunks_dir fs_j ≫= λ d, chunk_files d !! chunk_name 2)
  = (chunks_dir (disk (final (main demo_processor (boot fs_year None))))
       ≫= λ d, chunk_files d !! chunk_name 2) ∧
  outcome (main demo_processor (boot fs_j None)) = Raised JSONDecodeError ∧
  disk (final (main demo_processor (boot fs_j None)))
  ≠ disk (final (main demo_processor (boot fs_year None))).
Proof.
  cbn zeta. split_and!; [vm_compute; reflexivity..|].
  intros Heq. apply (f_equal (λ fs, chunks_dir fs ≫= progress_json)) in Heq.
  vm_compute in Heq. discriminate.
Qed.


Lemma checkpoint_without_last_chunk_raises_witness :
  outcome (main demo_processor (boot fs_no_last_chunk None)) = Raised KeyError.
Proof.
  rewrite (checkpoint_without_last_chunk_raises demo_processor demo_raster
             fs_no_last_chunk dir_no_last_chunk {[ "status" := JStr "processing" ]});
    reflexivity.
Defined.

Lemma process_with_nonpositive_chunk_size_witness :
  outcome (process zero_processor (mkScan default_progress 0 fs_year None))
  = Raised ZeroDivisionError.
Proof.
  destruct (process_with_nonpositive_chunk_size zero_processor demo_raster (JInt 0)
              (mkScan default_progress 0 fs_year None)) as [Hzero _];
    [reflexivity..|].
  rewrite Hzero; reflexivity.
Defined.

Lemma scan_then_merge_stores_every_record_witness :
  outcome (merge_chunks env_ok 2020
             (disk (final (main demo_processor (boot fs_year None))))) = Ok tt.
Proof.
  apply (scan_then_merge_stores_every_record demo_processor demo_raster fs_year
           env_ok 2020); try reflexivity; try done.
Defined.

Lemma chunk_files_do_not_collide_witness :
  chunk_name 7 ≠ chunk_name 70 ∧ chunk_name 99999 ≠ chunk_name 100000 ∧
  matches_glob (chunk_name 7) = true ∧ matches_glob (chunk_name 100000) = true.
Proof.
  destruct (chunk_files_do_not_collide 7 70) as [H1 G1]; [lia|lia|].
  destruct (chunk_files_do_not_collide 100000 99999) as [H2 G2]; [lia|lia|].
  split_and!; [|..|exact G1|exact G2].
  - intros E. apply H1 in E. lia.
  - intros E. symmetry in E. apply H2 in E. lia.
Defined.

Lemma records_are_never_background_witness :
  Forall (λ r, well_formed_row demo_processor r ∧
               crop_name r ≠ Some "Background"%string)
         [mkRow 2020 1 1 1 (Some "Corn"%string)].
Proof.
  apply (records_are_never_background demo_processor demo_raster (mkWindow 0 0 2 2)).
  vm_compute. reflexivity.
Defined.

Lemma merge_year_chunks_concatenates_witness :
  outcome (Multi.merge_year_chunks 2020 out_chunks) = Ok tt.
Proof.
  assert (Hl : listing2 2020 (Multi.out_files out_chunks)
               = ["ca_cdl_data_2020_chunk_00001.csv"; "ca_cdl_data_2020_chunk_00002.csv"])
    by (vm_compute; reflexivity).
  apply (merge_year_chunks_concatenates 2020 out_chunks).
  - rewrite Hl. discriminate.
  - intros n e Hn. rewrite Hl in Hn.
    apply elem_of_cons in Hn as [->|Hn]; [vm_compute; discriminate|].
    apply list_elem_of_singleton in Hn as ->. vm_compute. discriminate.
Defined.

Lemma merge_year_chunks_loses_read_chunks_witness :
  outcome (Multi.merge_year_chunks 2020 out_bad_chunk) = Raised EmptyDataError.
Proof.
  apply (merge_year_chunks_loses_read_chunks 2020 out_bad_chunk
           ["ca_cdl_data_2020_chunk_00001.csv"] ["ca_cdl_data_2020_chunk_00003.csv"]
           "ca_cdl_data_2020_chunk_00002.csv").
  - vm_compute. reflexivity.
  - intros n e Hn. apply list_elem_of_singleton in Hn as ->. vm_compute. discriminate.
  - vm_compute. reflexivity.
Defined.

Lemma merge_year_chunks_keeps_other_years_witness :
  Multi.out_files (final (Multi.merge_year_chunks 2020 out_chunks))
    !! Multi.merged_name 2019
  = Multi.out_files out_chunks !! Multi.merged_name 2019.
Proof. apply (merge_year_chunks_keeps_other_years 2020 2019 1 out_chunks). lia. Defined.

Lemma process_all_years_keeps_finished_years_witness :
  Multi.out_files (final (Multi.process_all_years multi_demo_processor 2019 2020 out_chunks))
    !! Multi.merged_name 2019 = Some (Multi.Csv [row_1; row_2]).
Proof.
  apply (process_all_years_keeps_finished_years multi_demo_processor 2019 2020 2019).
  vm_compute. reflexivity.
Defined.

Lemma multi_process_chunk_keeps_positive_cells_witness :
  final (Multi.process_chunk multi_demo_processor demo_raster (mkWindow 0 0 2 2) 2020
           out_fresh) = out_fresh.
Proof.
  apply (multi_process_chunk_keeps_positive_cells multi_demo_processor demo_raster
           (mkWindow 0 0 2 2) 2020 (mkArray2 (2%nat, 2%nat) [-1; 0; 0; 1]) out_fresh);
    vm_compute; reflexivity.
Defined.

Lemma process_single_year_merges_every_record_witness :
  outcome (Multi.process_single_year multi_demo_processor 2020 out_fresh) = Ok true.
Proof.
  apply (process_single_year_merges_every_record multi_demo_processor 2020
           demo_raster out_fresh); try (vm_compute; reflexivity); try done.
Defined.

Lemma process_single_year_without_records_witness :
  outcome (Multi.process_single_year multi_negative_processor 2020 out_fresh) = Ok true.
Proof.
  apply (process_single_year_without_records multi_negative_processor 2020
           demo_raster out_fresh); try (vm_compute; reflexivity); try done.
Defined.

